(** * hdevjs: VerifyThisJS validators and the NumFunJS probability selector

    A shallow embedding of [src/verify_this.js]: the class [VerifyThis]
    (methods [string], [number], [array]), the class [Random]
    (methods [intBetween], [floatBetween]) and the function [execProb].
    The utilities built on them follow: [VerifyThis.email], the classes
    [Calculate] and [CheckNum] of the same file, [StringFun]
    ([src/string_fun.js]) and [ArrayFun] ([src/unnamed/part_001]).

    - JavaScript numbers are IEEE 754 binary64 values; they are modelled
      by the Standard Library's [spec_float] at precision 53 and maximal
      exponent 1024, with its correctly rounded operations.
    - A [throw] is a [Throw] completion that carries the class of the
      error and the parts of its message; the checks of a method are
      sequenced with [;;], which stops at the first [Throw].
    - The parameters are typed as the JSDoc of the source types them; the
      value under validation is any JavaScript value.
    - [Math.random()] is read once per draw; its result is an argument of
      the functions that draw. *)

From Stdlib Require Import ZArith List String Ascii Bool Lia SpecFloat.
Import ListNotations.

Local Open Scope string_scope.
Local Open Scope list_scope.
Local Open Scope Z_scope.

(** ** JavaScript numbers *)

Module JsNum.

Definition prec : Z := 53.
Definition emax : Z := 1024.

Definition num : Type := spec_float.

Definition NaN : num := S754_nan.
Definition of_Z (z : Z) : num := binary_normalize prec emax z 0 false.
Definition of_nat (n : nat) : num := of_Z (Z.of_nat n).

(** [x + y], [x - y], [x * y], [x / y] *)
Definition add : num -> num -> num := SFadd prec emax.
Definition sub : num -> num -> num := SFsub prec emax.
Definition mul : num -> num -> num := SFmul prec emax.
Definition div : num -> num -> num := SFdiv prec emax.

(** [x < y], [x > y], [x <= y], [x === y] on numbers *)
Definition ltb (x y : num) : bool := SFltb x y.
Definition gtb (x y : num) : bool := SFltb y x.
Definition leb (x y : num) : bool := SFleb x y.
Definition eqb (x y : num) : bool := SFeqb x y.

(** ToBoolean on a number: [0], [-0] and [NaN] are falsy. *)
Definition truthy (x : num) : bool :=
  match x with
  | S754_zero _ | S754_nan => false
  | _ => true
  end.

(** SameValueZero, the comparison of [Array.prototype.includes]. *)
Definition sameValueZero (x y : num) : bool :=
  match x, y with
  | S754_nan, S754_nan => true
  | _, _ => eqb x y
  end.

(** [Math.floor]: the integer part is taken on the exact value; a finite
    number with a non-negative exponent is already an integer. *)
Definition floor (x : num) : num :=
  match x with
  | S754_finite s m e =>
      if 0 <=? e then x
      else binary_normalize prec emax
             (Z.div (cond_Zopp s (Zpos m)) (2 ^ (- e))) 0 s
  | _ => x
  end.

(** The binary64 number nearest to the fraction [n / d]. *)
Definition of_ratio (n d : positive) : num :=
  SFdiv prec emax (S754_finite false n 0) (S754_finite false d 0).

(** [Math.pow(10, d)] and [10 ** d] for an integral [d] from [0] to [22],
    where [10^d] is a binary64 number.  For a larger [d] this is the
    correctly rounded power, which the result of an engine need not be;
    no statement below reads [pow10] there. *)
Definition pow10 (d : Z) : num := of_Z (10 ^ d).

(** [Number(x.toFixed(d))] for [0 <= d <= 100]: [toFixed] picks the
    integer [n] for which [n / 10^d - |x|] is closest to zero (the larger
    [n] on a tie) and prints [n / 10^d] in decimal; [Number] reads that
    back as the nearest binary64.  Non-finite numbers and numbers of
    magnitude at least [10^21] are printed by [ToString] and read back
    unchanged. *)
Definition toFixed_Number (d : Z) (x : num) : num :=
  match x with
  | S754_finite s m e =>
      let scale := 10 ^ d in
      let big :=
        if 0 <=? e then 10 ^ 21 <=? Zpos m * 2 ^ e
        else 10 ^ 21 * 2 ^ (- e) <=? Zpos m in
      let n :=
        if 0 <=? e then Zpos m * 2 ^ e * scale
        else (2 * Zpos m * scale + 2 ^ (- e)) / 2 ^ (- e + 1) in
      if big then x
      else
        match n with
        | Zpos p =>
            match of_ratio p (Z.to_pos scale) with
            | S754_finite _ m' e' => S754_finite s m' e'
            | S754_zero _ => S754_zero s
            | r => r
            end
        | _ => S754_zero s
        end
  | S754_zero _ => S754_zero false
  | _ => x
  end.

End JsNum.

Import JsNum.

#[global] Arguments of_Z : simpl never.
#[global] Arguments of_nat : simpl never.
#[global] Arguments add : simpl never.
#[global] Arguments sub : simpl never.
#[global] Arguments mul : simpl never.
#[global] Arguments div : simpl never.
#[global] Arguments ltb : simpl never.
#[global] Arguments gtb : simpl never.
#[global] Arguments leb : simpl never.
#[global] Arguments eqb : simpl never.
#[global] Arguments floor : simpl never.
#[global] Arguments pow10 : simpl never.
#[global] Arguments toFixed_Number : simpl never.

(** ** JavaScript values, errors and completions *)

#[warnings="-register-all"]
Inductive value : Type :=
  | VUndefined
  | VNull
  | VBool (b : bool)
  | VNum (n : num)
  | VStr (s : string)                (* a character stands for a UTF-16 code unit *)
  | VStringObj (s : string)          (* [new String(s)], e.g. a [StringFun] *)
  | VArray (elems : list value)
  | VObject (props : list (string * value)).

Definition typeof (v : value) : string :=
  match v with
  | VUndefined => "undefined"
  | VBool _ => "boolean"
  | VNum _ => "number"
  | VStr _ => "string"
  | VNull | VStringObj _ | VArray _ | VObject _ => "object"
  end.

Inductive ErrorClass : Type := Error | TypeError | RangeError | ReferenceError.

(** The message of an error is kept as the parts of its template literal:
    literal text (also an interpolated string) and interpolated numbers,
    whose rendering by [Number::toString] is left unapplied. *)
Inductive Part : Type :=
  | Txt (s : string)
  | Num (n : num).

Record JsError : Type := mkError { err_class : ErrorClass; err_message : list Part }.

Inductive Completion (A : Type) : Type :=
  | Normal (a : A)
  | Throw (e : JsError).
Arguments Normal {A} a.
Arguments Throw {A} e.

Definition bind {A B} (c : Completion A) (k : A -> Completion B) : Completion B :=
  match c with
  | Normal a => k a
  | Throw e => Throw e
  end.

Notation "x <- c ;; k" := (bind c (fun x => k))
  (at level 61, c at next level, right associativity).
Notation "c ;; k" := (bind c (fun _ => k))
  (at level 61, right associativity).

(** [if (cond) throw new cls(msg);] *)
Definition throw_if (cond : bool) (cls : ErrorClass) (msg : list Part) : Completion unit :=
  if cond then Throw (mkError cls msg) else Normal tt.

(** [arr.findIndex(pred)]: the first index whose element satisfies [pred],
    [-1] when there is none. *)
Fixpoint findIndex_from {A} (pred : A -> bool) (arr : list A) (i : Z) : Z :=
  match arr with
  | [] => -1
  | x :: rest => if pred x then i else findIndex_from pred rest (i + 1)
  end.

Definition findIndex {A} (pred : A -> bool) (arr : list A) : Z :=
  findIndex_from pred arr 0.

(** [arr.join(sep)] on an array of strings. *)
Definition join (sep : string) (arr : list string) : string := String.concat sep arr.

(** [arr.includes(s)] on an array of strings, for a primitive string [s]. *)
Definition includes_str (arr : list string) (s : string) : bool :=
  existsb (String.eqb s) arr.

(** [arr.includes(n)] on an array of numbers. *)
Definition includes_num (arr : list num) (n : num) : bool :=
  existsb (fun a => sameValueZero a n) arr.


(** ** Rule configurations

    The destructured parameter objects of the three validators, typed as
    their JSDoc says; a [?Number] rule is [None] when it is [null] (its
    default) and [Some n] when the caller gave the number [n]. *)

Module StringRules.
Record t : Type := mk {
  canEmpty : bool;
  minChars : option num;
  maxChars : option num;
  alias : string;
  allowedChars : list string
}.
Definition default : t := mk false None None "String" [].
End StringRules.

Module NumberRules.
Record t : Type := mk {
  min : option num;
  maxValue : option num;
  alias : string;
  allowedNums : list num;
  allowedNumsAlias : string
}.
Definition default : t := mk None None "Number" [] "number".
End NumberRules.

Module ArrayRules.
Record t : Type := mk {
  canEmpty : bool;
  minElements : option num;
  maxElements : option num;
  arrayOf : list string
}.
Definition default : t := mk false None None [].
End ArrayRules.

(** [if (rule && test(rule)) throw new cls(msg(rule));] for a [?Number]
    rule: [null], [0], [-0] and [NaN] are falsy and skip the test. *)
Definition check_rule (rule : option num) (test : num -> bool)
    (cls : ErrorClass) (msg : num -> list Part) : Completion unit :=
  match rule with
  | Some r => throw_if (truthy r && test r) cls (msg r)
  | None => Normal tt
  end.

(** [rule === k] for a [?Number] rule. *)
Definition rule_is (rule : option num) (k : num) : bool :=
  match rule with
  | Some r => eqb r k
  | None => false
  end.

(** ** class VerifyThis *)

Module VerifyThis.

(** [allowedChars.includes(str)]: a [String] object is never the same
    value as a primitive string of the array. *)
Definition includes_value (arr : list String.string) (str : value) : bool :=
  match str with
  | VStr s => includes_str arr s
  | _ => false
  end.

(** [static string(str, {canEmpty, minChars, maxChars, alias, allowedChars})] *)
Definition string (str : value) (rules : StringRules.t) : Completion unit :=
  let '(StringRules.mk canEmpty minChars maxChars alias allowedChars) := rules in
  match str with
  | VStr s | VStringObj s =>
      let length := of_nat (String.length s) in
      (* [!str]: only the empty primitive string is falsy *)
      let falsy := match str with VStr "" => true | _ => false end in
      throw_if (negb canEmpty && falsy) Error
        [Txt alias; Txt " is empty"] ;;
      check_rule minChars (fun minChars => ltb length minChars) Error
        (fun minChars => [Txt alias; Txt " has less than "; Num minChars; Txt " characters"]) ;;
      check_rule maxChars (fun maxChars => gtb length maxChars) Error
        (fun maxChars => [Txt alias; Txt " has more than "; Num maxChars; Txt " characters"]) ;;
      throw_if (rule_is maxChars (of_Z 1) && negb (includes_value allowedChars str)) Error
        [Txt "Entered character is not "; Txt (join " or " allowedChars)]
  | _ => Throw (mkError TypeError [Txt "Entered value is not a string"])
  end.

(** [static number(num, {min, maxValue, alias, allowedNums, allowedNumsAlias})].
    The message of the minimum check interpolates [minValue], a name
    that is bound nowhere: evaluating the template literal throws a
    ReferenceError before the RangeError is constructed. *)
Definition number (num : value) (rules : NumberRules.t) : Completion unit :=
  let '(NumberRules.mk min maxValue alias allowedNums allowedNumsAlias) := rules in
  match num with
  | VNum n =>
      throw_if ((0 <? Z.of_nat (List.length allowedNums)) && negb (includes_num allowedNums n))
        Error [Txt "Entered "; Txt allowedNumsAlias; Txt " is not allowed"] ;;
      match min with
      | Some min =>
          throw_if ((truthy min || eqb min (of_Z 0)) && ltb n min)
            ReferenceError [Txt "minValue is not defined"]
      | None => Normal tt
      end ;;
      check_rule maxValue (fun maxValue => gtb n maxValue) RangeError
        (fun maxValue => [Txt alias; Txt " is more than "; Num maxValue])
  | _ => Throw (mkError TypeError [Txt "Entered value is not a number"])
  end.

(** [static array(arr, {canEmpty, minElements, maxElements, arrayOf})] *)
Definition array (arr : value) (rules : ArrayRules.t) : Completion unit :=
  let '(ArrayRules.mk canEmpty minElements maxElements arrayOf) := rules in
  match arr with
  | VArray elems =>
      let length := of_nat (List.length elems) in
      (* [arr.length < 1], [arrayOf.length > 0]: lengths against integer
         literals are compared as integers *)
      throw_if (negb canEmpty && (Z.of_nat (List.length elems) <? 1)) Error
        [Txt "Array is empty"] ;;
      (if 0 <? Z.of_nat (List.length arrayOf) then
         let indexEl :=
           findIndex (fun element => negb (includes_str arrayOf (typeof element))) elems in
         throw_if (0 <=? indexEl) TypeError
           [Txt "Element in index "; Num (of_Z indexEl); Txt " is not a ";
            Txt (join " or " arrayOf)]
       else Normal tt) ;;
      check_rule minElements (fun minElements => ltb length minElements) Error
        (fun minElements => [Txt "Array has less than "; Num minElements; Txt " elements"]) ;;
      check_rule maxElements (fun maxElements => gtb length maxElements) Error
        (fun maxElements => [Txt "Array has more than "; Num maxElements; Txt " elements"])
  | _ => Throw (mkError Error [Txt "Entered value is not an array"])
  end.

End VerifyThis.

(** ** class Random

    [Math.random()] is called once per draw; its result is the argument
    [random] of the two methods. *)

Module Random.

(** [static intBetween(min, max)] *)
Definition intBetween (random : num) (min max : num) : Completion num :=
  VerifyThis.number (VNum min) (NumberRules.mk None None "Minimun value" [] "number") ;;
  VerifyThis.number (VNum max) (NumberRules.mk None None "Maximun value" [] "number") ;;
  throw_if (eqb min max) Error [Txt "Minimun value is equals to maximun value"] ;;
  throw_if (gtb min max) RangeError [Txt "Minimum value is more than the maximum value"] ;;
  Normal (add (floor (mul random (add (sub max min) (of_Z 1)))) min).

(** [static floatBetween(min, max, decimals = 1)], for an integral number
    of decimals. [toFixed] throws a RangeError outside [0..100]. *)
Definition floatBetween (random : num) (min max : num) (decimals : Z) : Completion num :=
  VerifyThis.number (VNum min) (NumberRules.mk None None "Minimum value" [] "number") ;;
  VerifyThis.number (VNum max) (NumberRules.mk None None "Maximum value" [] "number") ;;
  VerifyThis.number (VNum (of_Z decimals))
    (NumberRules.mk (Some (of_Z 1)) None "Number of decimals" [] "number") ;;
  throw_if (eqb min max) Error [Txt "Minimun value is equals to maximun value"] ;;
  throw_if (gtb min max) RangeError [Txt "Minimum value is more than the maximum value"] ;;
  let min := mul min (pow10 decimals) in
  let max := mul max (pow10 decimals) in
  n <- intBetween random min max ;;
  let q := div n (pow10 decimals) in
  throw_if ((decimals <? 0) || (100 <? decimals)) RangeError
    [Txt "toFixed() digits argument must be between 0 and 100"] ;;
  Normal (toFixed_Number decimals q).

End Random.

(** ** execProb *)

(** [ProbInfo]: an object that may own an [el] and a [prob] property. *)
Record ProbInfo : Type := mkProbInfo { el : option value; prob : option num }.

(** [element.hasOwnProperty("el")], [element.hasOwnProperty("prob")] *)
Definition hasOwn_el (element : ProbInfo) : bool :=
  match el element with Some _ => true | None => false end.
Definition hasOwn_prob (element : ProbInfo) : bool :=
  match prob element with Some _ => true | None => false end.

(** The values bound by the destructuring [{el: item, prob: percent}]; a
    missing property reads as [undefined], which [+=] turns into [NaN]. *)
Definition item_of (element : ProbInfo) : value :=
  match el element with Some v => v | None => VUndefined end.
Definition percent_of (element : ProbInfo) : num :=
  match prob element with Some p => p | None => NaN end.

(** [for (const {prob: percent} of arr) checkPercent += percent;] *)
Definition checkPercent (arr : list ProbInfo) : num :=
  fold_left (fun checkPercent element => add checkPercent (percent_of element)) arr (of_Z 0).

(** The second loop: [currentProb += percent; if (num <= currentProb) return item;]
    falling off the end returns [undefined]. *)
Fixpoint walk (num currentProb : num) (arr : list ProbInfo) : value :=
  match arr with
  | [] => VUndefined
  | element :: rest =>
      let currentProb := add currentProb (percent_of element) in
      if leb num currentProb then item_of element
      else walk num currentProb rest
  end.

Definition execProb (random : num) (arr : list ProbInfo) : Completion value :=
  let indexEl := findIndex (fun element => negb (hasOwn_el element)) arr in
  let indexProb := findIndex (fun element => negb (hasOwn_prob element)) arr in
  throw_if (0 <=? indexEl) ReferenceError
    [Txt "Element in index "; Num (of_Z indexEl); Txt " is missing 'el' property"] ;;
  throw_if (0 <=? indexProb) ReferenceError
    [Txt "Element in index "; Num (of_Z indexProb); Txt " is missing 'prob' property"] ;;
  throw_if (gtb (checkPercent arr) (of_Z 100)) Error
    [Txt "The sum of the probabilities is more than 100"] ;;
  num <- Random.floatBetween random (of_Z 0) (of_Z 100) 1 ;;
  Normal (walk num (of_Z 0) arr).



(** * The utilities built on the validators

    [Calculate] and [CheckNum] of NumFunJS ([src/verify_this.js]),
    [StringFun] ([src/string_fun.js]), [ArrayFun]
    ([src/unnamed/part_001]) and [VerifyThis.email].  The methods that
    need regular expressions, sorting, the printing of numbers or the
    case of letters are not modelled. *)

(** ** Operators and built-ins *)

(** [n % d] on numbers: the remainder of the truncating division, exact,
    with the sign of [n]. *)
Definition remainder (n d : num) : num :=
  match n, d with
  | S754_nan, _ | _, S754_nan => S754_nan
  | S754_infinity _, _ => S754_nan
  | _, S754_infinity _ => n
  | _, S754_zero _ => S754_nan
  | S754_zero _, _ => n
  | S754_finite sn mn en, S754_finite _ md ed =>
      let e := Z.min en ed in
      let r := (Zpos mn * 2 ^ (en - e)) mod (Zpos md * 2 ^ (ed - e)) in
      binary_normalize prec emax (cond_Zopp sn r) e sn
  end.

#[global] Arguments remainder : simpl never.

(** [x === y]. The model has no object identity: two objects are taken for
    distinct ones, and every use below has a primitive on one side. *)
Definition strict_equals (x y : value) : bool :=
  match x, y with
  | VUndefined, VUndefined => true
  | VNull, VNull => true
  | VBool a, VBool b => Bool.eqb a b
  | VNum a, VNum b => eqb a b
  | VStr a, VStr b => String.eqb a b
  | _, _ => false
  end.

(** SameValueZero on values. *)
Definition same_value_zero (x y : value) : bool :=
  match x, y with
  | VNum a, VNum b => sameValueZero a b
  | _, _ => strict_equals x y
  end.

(** [arr.includes(el)] compares with SameValueZero, [arr.indexOf(el)]
    with [===]. *)
Definition includes (arr : list value) (el : value) : bool :=
  existsb (fun x => same_value_zero x el) arr.

Definition indexOf (arr : list value) (el : value) : Z :=
  findIndex (fun x => strict_equals x el) arr.

(** [arr[i]]: [undefined] outside the array. *)
Definition at_index (arr : list value) (i : Z) : value :=
  if i <? 0 then VUndefined else nth (Z.to_nat i) arr VUndefined.

(** [arr[i]] for a number [i]: the element at that index when [i] is a
    non-negative integer ([-0] is the index 0), [undefined] for any other
    number. *)
Definition at_number (arr : list value) (i : num) : value :=
  match i with
  | S754_zero _ => at_index arr 0
  | S754_finite false m e =>
      if 0 <=? e then at_index arr (Zpos m * 2 ^ e)
      else if Zpos m mod 2 ^ (- e) =? 0 then at_index arr (Zpos m / 2 ^ (- e))
      else VUndefined
  | _ => VUndefined
  end.

(** The array after [arr.splice(start, deleteCount)]: a negative [start]
    counts from the end, and both arguments are clamped to the array. *)
Definition splice (arr : list value) (start deleteCount : Z) : list value :=
  let len := Z.of_nat (List.length arr) in
  let from := if start <? 0 then Z.max (len + start) 0 else Z.min start len in
  let count := Z.min (Z.max deleteCount 0) (len - from) in
  firstn (Z.to_nat from) arr ++ skipn (Z.to_nat (from + count)) arr.

(** The number that a value is in arithmetic, for the values that reach
    it: the numbers that the validators have let through, and the
    [undefined] of a missing index, which is [NaN]. *)
Definition the_number (v : value) : num :=
  match v with
  | VNum n => n
  | _ => NaN
  end.

(** One argument more for [Math.max] and [Math.min]: [NaN] as soon as an
    argument is [NaN]; [+0] counts as larger than [-0]. *)
Definition max_step (highest x : num) : num :=
  match highest, x with
  | S754_nan, _ | _, S754_nan => S754_nan
  | S754_zero true, S754_zero false => x
  | _, _ => if gtb x highest then x else highest
  end.

Definition min_step (lowest x : num) : num :=
  match lowest, x with
  | S754_nan, _ | _, S754_nan => S754_nan
  | S754_zero false, S754_zero true => x
  | _, _ => if ltb x lowest then x else lowest
  end.

(** [Math.max(...xs)] and [Math.min(...xs)]: the array is spread into the
    arguments of the call, and an engine takes only so many arguments:
    [max_arguments] is that number, and a longer array ends in the
    RangeError of the engine (the message is the one of V8). *)
Definition too_many_arguments : JsError :=
  mkError RangeError [Txt "Maximum call stack size exceeded"].

Definition Math_max (max_arguments : nat) (xs : list num) : Completion num :=
  if (List.length xs <=? max_arguments)%nat
  then Normal (fold_left max_step xs (S754_infinity true))
  else Throw too_many_arguments.

Definition Math_min (max_arguments : nat) (xs : list num) : Completion num :=
  if (List.length xs <=? max_arguments)%nat
  then Normal (fold_left min_step xs (S754_infinity false))
  else Throw too_many_arguments.

(** The parts that [${v}] adds to a template literal: the string of a
    value; an array prints its elements separated by commas, [undefined]
    and [null] among them as nothing. *)
Fixpoint interpolated (v : value) : list Part :=
  match v with
  | VUndefined => [Txt "undefined"]
  | VNull => [Txt "null"]
  | VBool b => [Txt (if b then "true" else "false")]
  | VNum n => [Num n]
  | VStr s | VStringObj s => [Txt s]
  | VArray elems =>
      (fix joined (l : list value) : list Part :=
         match l with
         | [] => []
         | x :: rest =>
             match x with
             | VUndefined | VNull => []
             | _ => interpolated x
             end
             ++ match rest with
                | [] => []
                | _ => Txt "," :: joined rest
                end
         end) elems
  | VObject _ => [Txt "[object Object]"]
  end.

(** [str.split("")]: the strings of one character each. *)
Definition split_chars (s : string) : list string :=
  map (fun c => String c EmptyString) (list_ascii_of_string s).

(** ** VerifyThis.email *)

(** [static email(str)]: after [this.string(str, {})] the test reads
    [email], a name that is bound nowhere (the parameter is [str]). *)
Definition email (str : value) : Completion unit :=
  VerifyThis.string str StringRules.default ;;
  Throw (mkError ReferenceError [Txt "email is not defined"]).

(** ** class StringFun: [this] is a [String] object *)

Module StringFun.

(** [reverse()]: the rule object [{miChars: 2}] has no property that
    [VerifyThis.string] reads, so every rule keeps its default. *)
Definition reverse (this : string) : Completion value :=
  VerifyThis.string (VStringObj this) StringRules.default ;;
  Normal (VStr (join "" (rev (split_chars this)))).

(** [isPalindrome()]: [this === this.reverse()] compares the [String]
    object with the primitive string that [reverse] returns. *)
Definition isPalindrome (this : string) : Completion value :=
  VerifyThis.string (VStringObj this) (StringRules.mk false (Some (of_Z 3)) None "String" []) ;;
  reversed <- reverse this ;;
  Normal (VBool (if strict_equals (VStringObj this) reversed then true else false)).

End StringFun.

(** ** class ArrayFun: [this] is an array *)

Module ArrayFun.

(** The objects that [minAndMax] and [evenAndOdd] return. *)
Record MinMax : Type := mkMinMax { max : num; min : num }.
Record EvenOdd : Type := mkEvenOdd { even : list value; odd : list value }.

(** [last()] *)
Definition last (this : list value) : Completion value :=
  VerifyThis.array (VArray this) ArrayRules.default ;;
  Normal (at_index this (Z.of_nat (List.length this) - 1)).

(** [randElement()]; [random] is the result of [Math.random()]. *)
Definition randElement (random : num) (this : list value) : Completion value :=
  VerifyThis.array (VArray this) ArrayRules.default ;;
  Normal (at_number this (floor (mul random (of_nat (List.length this))))).

(** [clean()]: returns nothing; the result is the array after the call. *)
Definition clean (this : list value) : Completion (list value) :=
  VerifyThis.array (VArray this) ArrayRules.default ;;
  Normal (splice this 0 (Z.of_nat (List.length this))).

(** [removeElement(el)] for a string or a number [el]: returns nothing; the
    result is the array after the call. *)
Definition removeElement (this : list value) (el : value) : Completion (list value) :=
  VerifyThis.array (VArray this) (ArrayRules.mk false None None ["string"; "number"]) ;;
  throw_if (negb (includes this el)) ReferenceError
    ([Txt "Element "; Txt (String (ascii_of_nat 34) "")] ++ interpolated el
     ++ [Txt (String (ascii_of_nat 34) ""); Txt " is not in the array"]) ;;
  Normal (splice this (indexOf this el) 1).

(** [removeDuplicates()]: [new Set(arr)] reads [arr], a name that is bound
    nowhere. *)
Definition removeDuplicates (this : list value) : Completion value :=
  VerifyThis.array (VArray this) (ArrayRules.mk false (Some (of_Z 2)) None []) ;;
  Throw (mkError ReferenceError [Txt "arr is not defined"]).

(** [minAndMax()]: the rule [minElementes] is read by nothing;
    [max_arguments] is the number of arguments that the engine takes in
    the two calls. *)
Definition minAndMax (max_arguments : nat) (this : list value) : Completion MinMax :=
  VerifyThis.array (VArray this) (ArrayRules.mk false None None ["number"]) ;;
  highest <- Math_max max_arguments (map the_number this) ;;
  lowest <- Math_min max_arguments (map the_number this) ;;
  Normal (mkMinMax highest lowest).

(** [evenAndOdd()] *)
Definition evenAndOdd (this : list value) : Completion EvenOdd :=
  VerifyThis.array (VArray this) (ArrayRules.mk false (Some (of_Z 2)) None ["number"]) ;;
  Normal (mkEvenOdd
            (filter (fun n => eqb (remainder (the_number n) (of_Z 2)) (of_Z 1)) this)
            (filter (fun n => eqb (remainder (the_number n) (of_Z 2)) (of_Z 0)) this)).

End ArrayFun.

(** ** class Calculate and class CheckNum

    The loops count with a number; [fuel] bounds the iterations that the
    model runs, and [None] is a loop that has not ended within it. *)

Module Calculate.

(** [for (let i = 1; i <= num; i++) factorial *= i;] *)
Fixpoint factorial_loop (fuel : nat) (num i factorial : JsNum.num) : option JsNum.num :=
  match fuel with
  | O => None
  | S fuel =>
      if leb i num then factorial_loop fuel num (add i (of_Z 1)) (mul factorial i)
      else Some factorial
  end.

(** [static factorialOf(num)] *)
Definition factorialOf (fuel : nat) (num : value) : option (Completion JsNum.num) :=
  match VerifyThis.number num (NumberRules.mk (Some (of_Z 1)) None "Number" [] "number") with
  | Throw e => Some (Throw e)
  | Normal _ => option_map Normal (factorial_loop fuel (the_number num) (of_Z 1) (of_Z 1))
  end.

(** [arr[i]] on the array of [fibonacciOf], kept as its index-value pairs;
    two indices name the same property when they are the same number. *)
Definition fib_get (arr : list (num * num)) (i : num) : value :=
  match find (fun kv => sameValueZero (fst kv) i) arr with
  | Some kv => VNum (snd kv)
  | None => VUndefined
  end.

Definition fib_set (arr : list (num * num)) (i v : num) : list (num * num) :=
  (i, v) :: filter (fun kv => negb (sameValueZero (fst kv) i)) arr.

(** [for (let i = 2; i <= num; i++) arr[i] = arr[i - 1] + arr[i - 2];] *)
Fixpoint fibonacci_loop (fuel : nat) (num i : JsNum.num)
    (arr : list (JsNum.num * JsNum.num)) : option (list (JsNum.num * JsNum.num)) :=
  match fuel with
  | O => None
  | S fuel =>
      if leb i num then
        fibonacci_loop fuel num (add i (of_Z 1))
          (fib_set arr i
             (add (the_number (fib_get arr (sub i (of_Z 1))))
                  (the_number (fib_get arr (sub i (of_Z 2))))))
      else Some arr
  end.

(** [static fibonacciOf(num)] *)
Definition fibonacciOf (fuel : nat) (num : value) : option (Completion value) :=
  match VerifyThis.number num (NumberRules.mk (Some (of_Z 0)) None "Number" [] "number") with
  | Throw e => Some (Throw e)
  | Normal _ =>
      option_map (fun arr => Normal (fib_get arr (the_number num)))
        (fibonacci_loop fuel (the_number num) (of_Z 2)
           [(of_Z 0, of_Z 0); (of_Z 1, of_Z 1)])
  end.

End Calculate.

Module CheckNum.

(** [for (let i = 2; i < num; i++) { if (num % i === 0) return false; } return true;] *)
Fixpoint isPrime_loop (fuel : nat) (num i : JsNum.num) : option bool :=
  match fuel with
  | O => None
  | S fuel =>
      if ltb i num then
        if eqb (remainder num i) (of_Z 0) then Some false
        else isPrime_loop fuel num (add i (of_Z 1))
      else Some true
  end.

(** [static isPrime(num)] *)
Definition isPrime (fuel : nat) (num : value) : option (Completion bool) :=
  match VerifyThis.number num (NumberRules.mk (Some (of_Z 2)) None "Number" [] "number") with
  | Throw e => Some (Throw e)
  | Normal _ => option_map Normal (isPrime_loop fuel (the_number num) (of_Z 2))
  end.

End CheckNum.


(** * Vocabulary of the statements *)

(** ** The errors of the checks *)



(** The error of the element-type check of [array] at index [i]. *)
Definition wrong_element_type (rules : ArrayRules.t) (i : nat) : JsError :=
  mkError TypeError
    [Txt "Element in index "; Num (of_nat i); Txt " is not a ";
     Txt (join " or " (ArrayRules.arrayOf rules))].

(** The errors of the two property checks of [execProb] at index [i]. *)
Definition missing_el (i : nat) : JsError :=
  mkError ReferenceError
    [Txt "Element in index "; Num (of_nat i); Txt " is missing 'el' property"].

Definition missing_prob (i : nat) : JsError :=
  mkError ReferenceError
    [Txt "Element in index "; Num (of_nat i); Txt " is missing 'prob' property"].

(** The error of the check of [execProb] on the sum of the probabilities. *)
Definition sum_more_than_100 : JsError :=
  mkError Error [Txt "The sum of the probabilities is more than 100"].

(** ** Conditions on the inputs *)



(** Every element owns both properties. *)
Definition complete (arr : list ProbInfo) : Prop :=
  forall element, In element arr -> el element <> None /\ prob element <> None.

(** The probabilities are numbers from [0] on, as a [ProbInfo] has them. *)
Definition probs_nonneg (arr : list ProbInfo) : Prop :=
  forall element, In element arr ->
    exists p, prob element = Some p
              /\ valid_binary prec emax p = true
              /\ leb (of_Z 0) p = true.

(** ** Cumulative totals *)

(** The running total [currentProb] after the elements of [arr], starting
    from [c]. *)
Definition running (c : num) (arr : list ProbInfo) : num :=
  fold_left (fun acc element => add acc (percent_of element)) arr c.

(** The cumulative total of the element at index [i]: the sum of the
    probabilities of the elements at indices [0..i], added in that order. *)
Definition cumulative (arr : list ProbInfo) (i : nat) : num :=
  checkPercent (firstn (S i) arr).

(** The array [[{el: "A", prob: 60}, {el: "B", prob: 40}]]. *)
Definition A60_B40 : list ProbInfo :=
  [mkProbInfo (Some (VStr "A")) (Some (of_Z 60));
   mkProbInfo (Some (VStr "B")) (Some (of_Z 40))].

(** The array [[{el: "A", prob: 80}, {el: "B", prob: -50}]]. *)
Definition A80_Bminus50 : list ProbInfo :=
  [mkProbInfo (Some (VStr "A")) (Some (of_Z 80));
   mkProbInfo (Some (VStr "B")) (Some (of_Z (-50)))].

(** ** Exact values of binary64 numbers *)

(** The value [m * 2^e] of a mantissa and an exponent, as the integer
    number of its units of [2^-1200]; every exponent met in the proofs is
    above [-1200]. *)
Definition Zval (m e : Z) : Z := m * 2 ^ (e + 1200).

(** [rec] is [m] shifted right by [k] digits: its mantissa is the
    quotient, and its round and sticky bits are set only if digits were
    lost. *)
Definition shifted (m k : Z) (rec : shr_record) : Prop :=
  shr_m rec = m / 2 ^ k
  /\ (shr_r rec || shr_s rec = true -> m mod 2 ^ k <> 0).

(** The number that [binary_round_aux] builds from the rounded mantissa
    [m2] at the exponent [e1]: a mantissa that reached [2^53] moves to the
    next exponent, and an exponent above [emax - prec] overflows. *)
Definition round_pack (m2 e1 : Z) : spec_float :=
  if m2 =? 0 then S754_zero false
  else if m2 =? 2 ^ 53 then
    if e1 + 1 <=? emax - prec then S754_finite false (Z.to_pos (2 ^ 52)) (e1 + 1)
    else S754_infinity false
  else
    if e1 <=? emax - prec then S754_finite false (Z.to_pos m2) e1
    else S754_infinity false.

(** Non-negative numbers that the operations can return: a zero, a
    positive canonical number in range, or [+Infinity]. *)
Definition nonneg_valid (x : spec_float) : Prop :=
  match x with
  | S754_zero _ => True
  | S754_infinity s => s = false
  | S754_nan => False
  | S754_finite s m e => s = false /\ bounded prec emax m e = true
  end.

(** The mantissa of [1001], the factor of [Math.random()] in
    [intBetween(0, 1000)], the binary64 number just below [1001], and the
    one just below [1]. *)
Definition m1001 : positive := 8804889115230208.
Definition below_1001 : num := S754_finite false 8804889115230207 (-43).
Definition below_1 : num := S754_finite false 9007199254740991 (-53).

(** The least result of [Math.random()] for which the draw of [execProb]
    is [100]: the binary64 number nearest to [1000/1001]; the number just
    below it, and the number just below [1000]. *)
Definition least_for_100 : num := of_ratio 1000 1001.
Definition below_least_for_100 : num := S754_finite false 8998201053687304 (-53).
Definition below_1000 : num := S754_finite false 8796093022207999 (-43).

(** The test that the quotient [k / 10] is below [100]. *)
Definition tenth_below_100 (k : nat) : bool :=
  ltb (div (of_nat k) (of_Z 10)) (of_Z 100).

(** Structural equality of binary64 numbers. *)
Definition same_num (x y : num) : bool :=
  match x, y with
  | S754_zero s, S754_zero s' => Bool.eqb s s'
  | S754_infinity s, S754_infinity s' => Bool.eqb s s'
  | S754_nan, S754_nan => true
  | S754_finite s m e, S754_finite s' m' e' =>
      Bool.eqb s s' && Pos.eqb m m' && Z.eqb e e'
  | _, _ => false
  end.

(** What the draw of [execProb] makes of the integer [k]: [k + 0], divided
    by [10], one decimal kept; the test is that this is the quotient
    [k / 10] itself, and that it lies between [0] and [100]. *)
Definition tenth_ok (k : nat) : bool :=
  let q := div (of_nat k) (of_Z 10) in
  same_num (toFixed_Number 1 (div (add (of_nat k) (of_Z 0)) (of_Z 10))) q
  && leb (of_Z 0) q && leb q (of_Z 100).

(** The error of the unbound name [minValue], which the message of the
    minimum check of [VerifyThis.number] reads. *)
Definition minValue_unbound : JsError :=
  mkError ReferenceError [Txt "minValue is not defined"].

(** ** Integers as numbers *)

(** The number [x] is the integer [k], exactly. *)
Definition is_integer (x : num) (k : Z) : Prop :=
  match x with
  | S754_zero _ => k = 0
  | S754_finite s m e => Zval (cond_Zopp s (Zpos m)) e = Zval k 0
  | _ => False
  end.

Definition is_integerb (x : num) (k : Z) : bool :=
  match x with
  | S754_zero _ => k =? 0
  | S754_finite s m e => Zval (cond_Zopp s (Zpos m)) e =? Zval k 0
  | _ => false
  end.

(** The factorial and the Fibonacci numbers, as integers. *)
Fixpoint factorial (n : nat) : Z :=
  match n with
  | O => 1
  | S m => Z.of_nat n * factorial m
  end.

Fixpoint fibonacci_pair (n : nat) : Z * Z :=
  match n with
  | O => (0, 1)
  | S m => let '(a, b) := fibonacci_pair m in (b, a + b)
  end.

Definition fibonacci (n : nat) : Z := fst (fibonacci_pair n).

(** The tests that [factorialOf(n)] and [fibonacciOf(n)] return the number
    of the factorial, or of the Fibonacci number, and that this number is
    that integer exactly. *)
Definition factorial_ok (n : nat) : bool :=
  match Calculate.factorialOf (S n) (VNum (of_nat n)) with
  | Some (Normal r) => same_num r (of_Z (factorial n)) && is_integerb r (factorial n)
  | _ => false
  end.

Definition fibonacci_ok (n : nat) : bool :=
  match Calculate.fibonacciOf (S n) (VNum (of_nat n)) with
  | Some (Normal (VNum r)) => same_num r (of_Z (fibonacci n)) && is_integerb r (fibonacci n)
  | _ => false
  end.

(** * Properties *)

(** ** Comparisons of binary64 numbers *)

Section Comparisons.

Lemma SFcompare_antisym (x y : spec_float) :
  SFcompare y x = option_map CompOpp (SFcompare x y).
Proof.
  destruct x as [sx|sx| |sx mx ex], y as [sy|sy| |sy my ey]; simpl;
    try reflexivity;
    try (destruct sx; reflexivity); try (destruct sy; reflexivity);
    try (destruct sx, sy; reflexivity).
  change (Pos.compare_cont Eq my mx) with (Pos.compare my mx).
  change (Pos.compare_cont Eq mx my) with (Pos.compare mx my).
  destruct sx, sy; simpl; try reflexivity;
    rewrite (Z.compare_antisym ex ey);
    destruct (ex ?= ey); simpl; try reflexivity;
    rewrite (Pos.compare_antisym mx my);
    destruct (Pos.compare mx my); reflexivity.
Qed.

Lemma ltb_leb (x y : num) : ltb x y = true -> leb x y = true.
Proof.
  unfold ltb, leb, SFltb, SFleb.
  destruct (SFcompare x y) as [[]|]; intros; congruence.
Qed.

Lemma ltb_not_leb (x y : num) : ltb x y = true -> leb y x = false.
Proof.
  unfold ltb, leb, SFltb, SFleb. rewrite (SFcompare_antisym x y).
  destruct (SFcompare x y) as [[]|]; simpl; intros; congruence.
Qed.

Lemma leb_not_gtb (x y : num) : leb x y = true -> gtb x y = false.
Proof.
  unfold gtb, ltb, leb, SFltb, SFleb. rewrite (SFcompare_antisym x y).
  destruct (SFcompare x y) as [[]|]; simpl; intros; congruence.
Qed.

Lemma eqb_not_gtb (x y : num) : eqb x y = true -> gtb x y = false.
Proof.
  unfold gtb, ltb, eqb, SFltb, SFeqb. rewrite (SFcompare_antisym x y).
  destruct (SFcompare x y) as [[]|]; simpl; intros; congruence.
Qed.

Lemma ltb_NaN_l (y : num) : ltb NaN y = false.
Proof. reflexivity. Qed.

Lemma ltb_NaN_r (x : num) : ltb x NaN = false.
Proof. destruct x; reflexivity. Qed.

(** A bound that passes [value > bound] is not [NaN]; it is falsy only
    when it is a zero. *)
Lemma gtb_truthy (x bound : num) :
  gtb x bound = true -> eqb bound (of_Z 0) = false -> truthy bound = true.
Proof.
  destruct bound as [s|s| |s m e]; simpl; intros Hgt Hz; try reflexivity.
  - discriminate Hz.
  - discriminate Hgt.
Qed.

End Comparisons.

(** ** VerifyThis.number *)

Section NumberProperties.

Import NumberRules.

(** Whenever the minimum rule is enforced ([min] is truthy or a zero) and
    the value is below it, the call ends in the ReferenceError raised by
    the unbound name [minValue], never in a RangeError. *)
Lemma number_below_min_ReferenceError (n m : num) (rules : NumberRules.t) :
  min rules = Some m ->
  (allowedNums rules = [] \/ includes_num (allowedNums rules) n = true) ->
  truthy m || eqb m (of_Z 0) = true ->
  ltb n m = true ->
  VerifyThis.number (VNum n) rules
  = Throw (mkError ReferenceError [Txt "minValue is not defined"]).
Proof.
  destruct rules as [mn mx al nums nal]; simpl.
  intros -> Hallowed Hset Hlt.
  assert (Hpass : (0 <? Z.of_nat (List.length nums)) && negb (includes_num nums n) = false).
  { destruct Hallowed as [-> | ->]; [reflexivity | apply andb_false_r]. }
  rewrite Hpass, Hset, Hlt. reflexivity.
Qed.

(** A non-zero maximum is enforced once the earlier checks pass. *)
Lemma number_above_maxValue_RangeError (n mx : num) (rules : NumberRules.t) :
  maxValue rules = Some mx ->
  (allowedNums rules = [] \/ includes_num (allowedNums rules) n = true) ->
  (forall m, min rules = Some m -> ltb n m = false) ->
  eqb mx (of_Z 0) = false ->
  gtb n mx = true ->
  VerifyThis.number (VNum n) rules
  = Throw (mkError RangeError [Txt (alias rules); Txt " is more than "; Num mx]).
Proof.
  destruct rules as [mn mxv al nums nal]; simpl.
  intros -> Hallowed Hmin Hnz Hgt.
  assert (Hpass : (0 <? Z.of_nat (List.length nums)) && negb (includes_num nums n) = false).
  { destruct Hallowed as [-> | ->]; [reflexivity | apply andb_false_r]. }
  rewrite Hpass. simpl.
  destruct mn as [m|]; simpl.
  - rewrite (Hmin m eq_refl), andb_false_r. simpl.
    rewrite (gtb_truthy _ _ Hgt Hnz), Hgt. reflexivity.
  - rewrite (gtb_truthy _ _ Hgt Hnz), Hgt. reflexivity.
Qed.

Lemma number_below_min_ReferenceError_witness :
  VerifyThis.number (VNum (of_Z 3)) (mk (Some (of_Z 10)) None "Number" [] "number")
  = Throw (mkError ReferenceError [Txt "minValue is not defined"]).
Proof.
  apply (number_below_min_ReferenceError (of_Z 3) (of_Z 10)
           (mk (Some (of_Z 10)) None "Number" [] "number") eq_refl (or_introl eq_refl));
    reflexivity.
Defined.

Lemma number_above_maxValue_RangeError_witness :
  VerifyThis.number (VNum (of_Z 11)) (mk None (Some (of_Z 10)) "Number" [] "number")
  = Throw (mkError RangeError [Txt "Number"; Txt " is more than "; Num (of_Z 10)]).
Proof.
  apply (number_above_maxValue_RangeError (of_Z 11) (of_Z 10)
           (mk None (Some (of_Z 10)) "Number" [] "number") eq_refl (or_introl eq_refl)).
  - intros m Hm. discriminate Hm.
  - reflexivity.
  - reflexivity.
Defined.

(** C1: [VerifyThis.number(5, {min: 0})] returns normally, and
    [VerifyThis.number(-1, {min: 0})] does not end in the RangeError of
    the minimum check: building its message reads the unbound name
    [minValue], so the call throws a ReferenceError instead. *)
Theorem number_min_zero_throws_ReferenceError :
  VerifyThis.number (VNum (of_Z 5)) (mk (Some (of_Z 0)) None "Number" [] "number")
  = Normal tt
  /\ VerifyThis.number (VNum (of_Z (-1))) (mk (Some (of_Z 0)) None "Number" [] "number")
     = Throw (mkError ReferenceError [Txt "minValue is not defined"]).
Proof. split; reflexivity. Qed.

(** C8: with [maxValue] set to [0] the maximum check is skipped, because
    [maxValue && ...] takes a zero for an unset rule:
    [VerifyThis.number(5, {maxValue: 0})] returns normally although
    [5 > 0]. *)
Theorem number_maxValue_zero_not_enforced :
  gtb (of_Z 5) (of_Z 0) = true
  /\ VerifyThis.number (VNum (of_Z 5)) (mk None (Some (of_Z 0)) "Number" [] "number")
     = Normal tt.
Proof. split; reflexivity. Qed.

(** C10: [NaN] is accepted whatever [min] and [maxValue] are, when
    [allowedNums] is empty: it is of type number and every ordered
    comparison with it is false. *)
Theorem number_accepts_NaN (mn mx : option num) (al nal : string) :
  VerifyThis.number (VNum NaN) (mk mn mx al [] nal) = Normal tt.
Proof.
  unfold VerifyThis.number, check_rule, gtb. simpl.
  destruct mn as [m|], mx as [x|]; simpl;
    rewrite ?ltb_NaN_r, ?andb_false_r; reflexivity.
Qed.

End NumberProperties.

(** ** VerifyThis.string *)

Section StringProperties.

Import StringRules.





(** A zero [maxChars] is taken for an unset rule. *)
Lemma string_maxChars_zero_not_enforced :
  gtb (of_nat (String.length "a")) (of_Z 0) = true
  /\ VerifyThis.string (VStr "a") (mk false None (Some (of_Z 0)) "String" []) = Normal tt.
Proof. split; reflexivity. Qed.








End StringProperties.

(** ** findIndex *)

Section FindIndex.

Context {A : Type} (pred : A -> bool).

Lemma findIndex_from_none (arr : list A) (i : Z) :
  (forall y, In y arr -> pred y = false) ->
  findIndex_from pred arr i = -1.
Proof.
  revert i. induction arr as [|x rest IH]; intros i Hall; simpl.
  - reflexivity.
  - rewrite (Hall x (or_introl eq_refl)).
    apply IH. intros y Hy. apply Hall. right. exact Hy.
Qed.

Lemma findIndex_from_first (pre : list A) (x : A) (post : list A) (i : Z) :
  (forall y, In y pre -> pred y = false) ->
  pred x = true ->
  findIndex_from pred (pre ++ x :: post) i = i + Z.of_nat (List.length pre).
Proof.
  revert i. induction pre as [|p pre IH]; intros i Hpre Hx; simpl.
  - rewrite Hx. lia.
  - rewrite (Hpre p (or_introl eq_refl)).
    rewrite IH; [lia | | exact Hx].
    intros y Hy. apply Hpre. right. exact Hy.
Qed.

(** Either no element satisfies [pred], or the array splits at the first
    one that does. *)
Lemma findIndex_split (arr : list A) :
  (forall y, In y arr -> pred y = false)
  \/ exists pre x post,
       arr = pre ++ x :: post
       /\ (forall y, In y pre -> pred y = false)
       /\ pred x = true.
Proof.
  induction arr as [|a rest IH].
  - left. intros y [].
  - destruct (pred a) eqn:Ha.
    + right. exists [], a, rest. repeat split; [intros y [] | exact Ha].
    + destruct IH as [Hnone | (pre & x & post & -> & Hpre & Hx)].
      * left. intros y [<- | Hy]; [exact Ha | apply Hnone, Hy].
      * right. exists (a :: pre), x, post. repeat split; [|exact Hx].
        intros y [<- | Hy]; [exact Ha | apply Hpre, Hy].
Qed.

Lemma findIndex_none (arr : list A) :
  (forall y, In y arr -> pred y = false) -> findIndex pred arr = -1.
Proof. apply findIndex_from_none. Qed.

Lemma findIndex_first (pre : list A) (x : A) (post : list A) :
  (forall y, In y pre -> pred y = false) ->
  pred x = true ->
  findIndex pred (pre ++ x :: post) = Z.of_nat (List.length pre).
Proof. intros Hpre Hx. unfold findIndex. rewrite findIndex_from_first; auto. Qed.

End FindIndex.

(** ** VerifyThis.array *)

Section ArrayProperties.

Import ArrayRules.

Lemma nonempty_length {B : Type} (l : list B) :
  l <> [] -> (0 <? Z.of_nat (List.length l)) = true /\ (Z.of_nat (List.length l) <? 1) = false.
Proof. destruct l; [congruence|]. intros _. simpl List.length.
  split; [apply Z.ltb_lt | apply Z.ltb_ge]; lia.
Qed.

(** C9: on a non-empty array with a non-empty [arrayOf], the first
    element whose [typeof] is not in [arrayOf] makes [array] fail with a
    TypeError that names the 0-based index of that element and the
    allowed types; when the type of every element is in [arrayOf], the
    check passes: no TypeError is thrown, and the call returns normally
    when no element-count rule is set. *)
Theorem array_arrayOf_check (elems : list value) (rules : t) :
  elems <> [] ->
  arrayOf rules <> [] ->
  (forall pre x post,
      elems = pre ++ x :: post ->
      (forall y, In y pre -> includes_str (arrayOf rules) (typeof y) = true) ->
      includes_str (arrayOf rules) (typeof x) = false ->
      VerifyThis.array (VArray elems) rules
      = Throw (wrong_element_type rules (List.length pre)))
  /\ ((forall y, In y elems -> includes_str (arrayOf rules) (typeof y) = true) ->
      (forall e, VerifyThis.array (VArray elems) rules = Throw e -> err_class e <> TypeError)
      /\ (minElements rules = None -> maxElements rules = None ->
          VerifyThis.array (VArray elems) rules = Normal tt)).
Proof.
  intros Hne Hof.
  destruct (nonempty_length elems Hne) as [_ Hlen].
  destruct (nonempty_length (arrayOf rules) Hof) as [Hoflen _].
  destruct rules as [ce mn mx tags]; simpl in *. split.
  - intros pre x post -> Hpre Hx.
    rewrite Hlen, andb_false_r, Hoflen. simpl.
    rewrite findIndex_first.
    + unfold wrong_element_type, of_nat, throw_if; simpl.
      destruct (Z.leb_spec 0 (Z.of_nat (List.length pre))); [reflexivity | lia].
    + intros y Hy. rewrite (Hpre y Hy). reflexivity.
    + rewrite Hx. reflexivity.
  - intros Hall.
    rewrite Hlen, andb_false_r, Hoflen. simpl.
    rewrite findIndex_none by (intros y Hy; rewrite (Hall y Hy); reflexivity).
    simpl. split.
    + intros e. unfold check_rule, throw_if.
      repeat match goal with
             | |- context [if ?c then _ else _] => destruct c; simpl
             | |- context [match ?o with Some _ => _ | None => _ end] => destruct o; simpl
             end; intros [= <-]; discriminate.
    + intros -> ->. reflexivity.
Qed.

Lemma array_arrayOf_check_witness :
  VerifyThis.array (VArray [VNum (of_Z 1); VStr "x"]) (mk false None None ["number"])
  = Throw (mkError TypeError
             [Txt "Element in index "; Num (of_Z 1); Txt " is not a "; Txt "number"])
  /\ VerifyThis.array (VArray [VNum (of_Z 1); VNum (of_Z 2)]) (mk false None None ["number"])
     = Normal tt.
Proof.
  split.
  - apply (proj1 (array_arrayOf_check [VNum (of_Z 1); VStr "x"]
                    (mk false None None ["number"])
                    ltac:(discriminate) ltac:(discriminate))
             [VNum (of_Z 1)] (VStr "x") [] eq_refl).
    + intros y [<- | []]. reflexivity.
    + reflexivity.
  - apply (proj2 (array_arrayOf_check [VNum (of_Z 1); VNum (of_Z 2)]
                    (mk false None None ["number"])
                    ltac:(discriminate) ltac:(discriminate))).
    + intros y [<- | [<- | []]]; reflexivity.
    + reflexivity.
    + reflexivity.
Defined.

End ArrayProperties.


(** ** Rounding to binary64

    What the correctly rounded operations of [SpecFloat] return on
    positive operands, stated on exact values.  The value [m * 2^e] of a
    mantissa and an exponent is handled as the integer [Zval m e], its
    multiple of [2^-1200]; every exponent met here is above [-1200]. *)

Section BinaryRounding.

Lemma fexp_unfold (e : Z) : fexp prec emax e = Z.max (e - 53) (-1074).
Proof. reflexivity. Qed.

Lemma pow2_pos (k : Z) : 0 <= k -> 0 < 2 ^ k.
Proof. intros. apply Z.pow_pos_nonneg; lia. Qed.

Lemma pow2_add (a b : Z) : 0 <= a -> 0 <= b -> 2 ^ (a + b) = 2 ^ a * 2 ^ b.
Proof. intros. apply Z.pow_add_r; assumption. Qed.

Lemma pow2_le (a b : Z) : 0 <= a <= b -> 2 ^ a <= 2 ^ b.
Proof. intros. apply Z.pow_le_mono_r; lia. Qed.

Lemma digits2_bounds (p : positive) :
  2 ^ (Zpos (digits2_pos p) - 1) <= Zpos p < 2 ^ Zpos (digits2_pos p).
Proof.
  induction p as [p IH | p IH |]; simpl digits2_pos.
  - rewrite Pos2Z.inj_succ.
    replace (Z.succ (Zpos (digits2_pos p)) - 1) with (Z.succ (Zpos (digits2_pos p) - 1)) by lia.
    rewrite !Z.pow_succ_r by lia. lia.
  - rewrite Pos2Z.inj_succ.
    replace (Z.succ (Zpos (digits2_pos p)) - 1) with (Z.succ (Zpos (digits2_pos p) - 1)) by lia.
    rewrite !Z.pow_succ_r by lia. lia.
  - simpl. lia.
Qed.

(** The number of digits of [m] is the one [d] with [2^(d-1) <= m < 2^d]. *)
Lemma digits2_unique (p : positive) (d : Z) :
  2 ^ (d - 1) <= Zpos p < 2 ^ d -> Zpos (digits2_pos p) = d.
Proof.
  intros [Hlo Hhi]. pose proof (digits2_bounds p) as [Blo Bhi].
  assert (0 < d).
  { destruct (Z.ltb_spec 0 d); [assumption|].
    destruct (Z.eq_dec d 0) as [-> | ]; [simpl in Hhi; lia|].
    rewrite Z.pow_neg_r in Hhi by lia. lia. }
  destruct (Z.lt_trichotomy (Zpos (digits2_pos p)) d) as [Hlt | [Heq | Hgt]].
  - assert (2 ^ Zpos (digits2_pos p) <= 2 ^ (d - 1)) by (apply pow2_le; lia). lia.
  - exact Heq.
  - assert (2 ^ d <= 2 ^ (Zpos (digits2_pos p) - 1)) by (apply pow2_le; lia). lia.
Qed.

(** A canonical mantissa has at most 53 digits, exactly 53 above the
    least exponent. *)
Lemma canonical_bounds (m : positive) (e : Z) :
  canonical_mantissa prec emax m e = true ->
  -1074 <= e /\ Zpos m < 2 ^ 53 /\ (-1074 < e -> 2 ^ 52 <= Zpos m).
Proof.
  unfold canonical_mantissa. rewrite fexp_unfold. intros H. apply Z.eqb_eq in H.
  pose proof (digits2_bounds m) as [Blo Bhi].
  assert (Hd : Zpos (digits2_pos m) <= 53) by lia.
  split; [lia|]. split.
  - assert (2 ^ Zpos (digits2_pos m) <= 2 ^ 53) by (apply pow2_le; lia). lia.
  - intros He. assert (Zpos (digits2_pos m) = 53) as Heq by lia.
    rewrite Heq in Blo. exact Blo.
Qed.

Lemma canonical_of_bounds (m : positive) (e : Z) :
  -1074 <= e -> Zpos m < 2 ^ 53 -> (-1074 < e -> 2 ^ 52 <= Zpos m) ->
  canonical_mantissa prec emax m e = true.
Proof.
  intros He Hhi Hlo. unfold canonical_mantissa. rewrite fexp_unfold. apply Z.eqb_eq.
  pose proof (digits2_bounds m) as [Blo Bhi].
  assert (Hd : Zpos (digits2_pos m) <= 53).
  { destruct (Z.leb_spec (Zpos (digits2_pos m)) 53); [assumption|].
    assert (2 ^ 53 <= 2 ^ (Zpos (digits2_pos m) - 1)) by (apply pow2_le; lia). lia. }
  destruct (Z.eq_dec e (-1074)) as [-> | Hne]; [lia|].
  assert (Zpos (digits2_pos m) = 53); [|lia].
  apply digits2_unique. split; [apply Hlo; lia | exact Hhi].
Qed.

Lemma Zval_pos (m e : Z) : -1200 <= e -> 0 < m -> 0 < Zval m e.
Proof. intros He Hm. unfold Zval. pose proof (pow2_pos (e + 1200)). nia. Qed.

Lemma Zval_shift (m e k : Z) :
  -1200 <= e -> 0 <= k -> Zval m (e + k) = Zval (m * 2 ^ k) e.
Proof.
  intros He Hk. unfold Zval.
  replace (e + k + 1200) with (k + (e + 1200)) by lia.
  rewrite pow2_add by lia. ring.
Qed.

(** On canonical mantissas [SFcompare] is the order of the values. *)
Lemma compare_canonical (m1 : positive) (e1 : Z) (m2 : positive) (e2 : Z) :
  canonical_mantissa prec emax m1 e1 = true ->
  canonical_mantissa prec emax m2 e2 = true ->
  SFcompare (S754_finite false m1 e1) (S754_finite false m2 e2)
  = Some (Zval (Zpos m1) e1 ?= Zval (Zpos m2) e2).
Proof.
  intros C1 C2.
  destruct (canonical_bounds m1 e1 C1) as (E1 & H1 & L1).
  destruct (canonical_bounds m2 e2 C2) as (E2 & H2 & L2).
  unfold SFcompare. f_equal.
  destruct (Z.compare_spec e1 e2) as [-> | Hlt | Hgt].
  - unfold Zval. rewrite <- Zmult_compare_compat_r by (apply Z.lt_gt, pow2_pos; lia).
    reflexivity.
  - symmetry. apply Z.compare_lt_iff.
    replace e2 with (e1 + (e2 - e1)) by lia. rewrite Zval_shift by lia.
    unfold Zval. apply Z.mul_lt_mono_pos_r; [apply pow2_pos; lia|].
    assert (2 ^ 1 <= 2 ^ (e2 - e1)) by (apply pow2_le; lia).
    specialize (L2 ltac:(lia)). change (2 ^ 1) with 2 in *.
    change (2 ^ 53) with (2 * 2 ^ 52) in H1. nia.
  - symmetry. apply Z.compare_gt_iff.
    replace e1 with (e2 + (e1 - e2)) by lia. rewrite Zval_shift by lia.
    unfold Zval. apply Z.mul_lt_mono_pos_r; [apply pow2_pos; lia|].
    assert (2 ^ 1 <= 2 ^ (e1 - e2)) by (apply pow2_le; lia).
    specialize (L1 ltac:(lia)). change (2 ^ 1) with 2 in *.
    change (2 ^ 53) with (2 * 2 ^ 52) in H2. nia.
Qed.

(** *** Shifting a mantissa to the right *)

Lemma shifted_0 (m : Z) : shifted m 0 (Build_shr_record m false false).
Proof.
  split; simpl.
  - rewrite Z.div_1_r. reflexivity.
  - discriminate.
Qed.

Lemma shr_1_m (rec : shr_record) :
  0 <= shr_m rec ->
  shr_m (shr_1 rec) = shr_m rec / 2
  /\ (shr_r (shr_1 rec) = true -> shr_m rec mod 2 = 1)
  /\ shr_s (shr_1 rec) = shr_r rec || shr_s rec.
Proof.
  destruct rec as [m r s]. simpl. intros Hm.
  destruct m as [|p|p]; [| |lia].
  - repeat split. discriminate.
  - destruct p as [p|p|]; simpl shr_m; simpl shr_r; simpl shr_s.
    + rewrite Pos2Z.inj_xI. repeat split.
      * apply (Z.div_unique_pos _ 2 _ 1); lia.
      * intros _. symmetry. apply (Z.mod_unique_pos _ 2 (Zpos p) 1); lia.
    + rewrite Pos2Z.inj_xO. repeat split.
      * apply (Z.div_unique_pos _ 2 _ 0); lia.
      * discriminate.
    + repeat split.
Qed.

Lemma shifted_shr_1 (m k : Z) (rec : shr_record) :
  0 <= m -> 0 <= k -> shifted m k rec -> shifted m (k + 1) (shr_1 rec).
Proof.
  intros Hm Hk [Hq Hlost].
  assert (Hpos : 0 < 2 ^ k) by (apply pow2_pos; lia).
  assert (Hrec : 0 <= shr_m rec) by (rewrite Hq; apply Z.div_pos; lia).
  destruct (shr_1_m rec Hrec) as (Hm1 & Hr1 & Hs1).
  assert (Hpow : 2 ^ (k + 1) = 2 ^ k * 2) by (rewrite pow2_add by lia; reflexivity).
  split.
  - rewrite Hm1, Hq, Hpow. rewrite Z.div_div by lia. reflexivity.
  - intros Hbits Hzero. rewrite Hs1 in Hbits.
    assert (Hdiv : m = 2 ^ k * 2 * (m / (2 ^ k * 2))).
    { rewrite Hpow in Hzero. pose proof (Z.div_mod m (2 ^ k * 2) ltac:(lia)). lia. }
    set (q := m / (2 ^ k * 2)) in *.
    assert (Hmk : m mod 2 ^ k = 0).
    { rewrite Hdiv. replace (2 ^ k * 2 * q) with ((2 * q) * 2 ^ k) by ring.
      apply Z.mod_mul. lia. }
    assert (Hqk : m / 2 ^ k = 2 * q).
    { rewrite Hdiv at 1. replace (2 ^ k * 2 * q) with ((2 * q) * 2 ^ k) by ring.
      apply Z.div_mul. lia. }
    apply orb_true_iff in Hbits. destruct Hbits as [Hr | Hrs].
    + specialize (Hr1 Hr). rewrite Hq, Hqk in Hr1.
      replace (2 * q) with (q * 2) in Hr1 by ring.
      rewrite Z.mod_mul in Hr1 by lia. discriminate.
    + apply (Hlost Hrs Hmk).
Qed.

Lemma shifted_iter_pos (m : Z) (p : positive) :
  0 <= m ->
  forall (k : Z) (rec : shr_record),
    0 <= k -> shifted m k rec -> shifted m (k + Zpos p) (iter_pos shr_1 p rec).
Proof.
  intros Hm. induction p as [p IH | p IH |]; intros k rec Hk Hrec; simpl iter_pos.
  - replace (k + Zpos p~1) with (k + 1 + Zpos p + Zpos p) by lia.
    apply IH; [lia|]. apply IH; [lia|]. apply shifted_shr_1; assumption.
  - replace (k + Zpos p~0) with (k + Zpos p + Zpos p) by lia.
    apply IH; [lia|]. apply IH; assumption.
  - apply shifted_shr_1; assumption.
Qed.

(** [shr] by a non-negative number of digits. *)
Lemma shifted_shr (m e n : Z) :
  0 <= m -> 0 <= n ->
  exists rec, shr (Build_shr_record m false false) e n = (rec, e + n) /\ shifted m n rec.
Proof.
  intros Hm Hn. destruct n as [|p|p]; [| |lia].
  - exists (Build_shr_record m false false). split.
    + simpl. rewrite Z.add_0_r. reflexivity.
    + apply shifted_0.
  - exists (iter_pos shr_1 p (Build_shr_record m false false)). split.
    + reflexivity.
    + apply (shifted_iter_pos m p Hm 0 _ ltac:(lia) (shifted_0 m)).
Qed.

(** Rounding to nearest even moves the shifted mantissa up by at most
    one, and only if digits were lost. *)
Lemma round_nearest_even_shifted (m n : Z) (rec : shr_record) :
  shifted m n rec ->
  let m2 := round_nearest_even (shr_m rec) (loc_of_shr_record rec) in
  m / 2 ^ n <= m2 <= m / 2 ^ n + 1
  /\ (m2 = m / 2 ^ n + 1 -> m mod 2 ^ n <> 0).
Proof.
  intros [Hq Hlost]. destruct rec as [q r s]. simpl in *. subst q.
  destruct r, s; simpl; try (destruct (Z.even (m / 2 ^ n)));
    (split; [lia|]); intros Heq; try lia; apply Hlost; reflexivity.
Qed.

(** *** The result of rounding a positive mantissa *)

Lemma shr_no_shift (rec : shr_record) (e n : Z) : n <= 0 -> shr rec e n = (rec, e).
Proof. intros Hn. destruct n as [|p|p]; [reflexivity | lia | reflexivity]. Qed.

Lemma second_shift (m2 e1 : Z) :
  -1074 <= e1 -> 0 <= m2 <= 2 ^ 53 ->
  (let '(mrs, e) := shr_fexp prec emax m2 e1 loc_Exact in
   match shr_m mrs with
   | Z0 => S754_zero false
   | Zpos m => if e <=? emax - prec then S754_finite false m e else S754_infinity false
   | Zneg _ => S754_nan
   end) = round_pack m2 e1.
Proof.
  intros He [Hlo Hhi]. unfold round_pack, shr_fexp. simpl shr_record_of_loc.
  destruct (Z.eqb_spec m2 0) as [-> | Hnz].
  - rewrite shr_no_shift; [reflexivity|].
    simpl Zdigits2. rewrite fexp_unfold. lia.
  - destruct (Z.eqb_spec m2 (2 ^ 53)) as [-> | Hn53].
    + replace (fexp prec emax (Zdigits2 (2 ^ 53) + e1) - e1) with 1.
      * reflexivity.
      * change (Zdigits2 (2 ^ 53)) with 54. rewrite fexp_unfold. lia.
    + destruct m2 as [|p|p]; [lia | | lia].
      rewrite shr_no_shift; [reflexivity|].
      simpl Zdigits2. rewrite fexp_unfold.
      pose proof (digits2_bounds p) as [Blo Bhi].
      assert (Zpos (digits2_pos p) <= 53); [|lia].
      destruct (Z.leb_spec (Zpos (digits2_pos p)) 53); [assumption|].
      assert (2 ^ 53 <= 2 ^ (Zpos (digits2_pos p) - 1)) by (apply pow2_le; lia). lia.
Qed.

(** [binary_round_aux] on a positive mantissa that is at or below its
    canonical exponent [e1]: the mantissa is shifted to [e1] and rounded
    to [m2], one of the two integers around the exact quotient. *)
Lemma binary_round_aux_exact (mx : positive) (ex : Z) :
  let e1 := fexp prec emax (Zpos (digits2_pos mx) + ex) in
  ex <= e1 ->
  exists m2 : Z,
    Zpos mx / 2 ^ (e1 - ex) <= m2 <= Zpos mx / 2 ^ (e1 - ex) + 1
    /\ (m2 = Zpos mx / 2 ^ (e1 - ex) + 1 -> Zpos mx mod 2 ^ (e1 - ex) <> 0)
    /\ Zpos mx / 2 ^ (e1 - ex) < 2 ^ 53
    /\ (-1074 < e1 -> 2 ^ 52 <= Zpos mx / 2 ^ (e1 - ex))
    /\ binary_round_aux prec emax false (Zpos mx) ex loc_Exact = round_pack m2 e1.
Proof.
  intros e1 Hle.
  pose proof (digits2_bounds mx) as [Blo Bhi].
  set (d := Zpos (digits2_pos mx)) in *.
  assert (He1 : e1 = Z.max (d + ex - 53) (-1074)) by (unfold e1; apply fexp_unfold).
  set (n := e1 - ex) in *.
  assert (Hn : 0 <= n) by lia.
  assert (Hpn : 0 < 2 ^ n) by (apply pow2_pos; lia).
  destruct (shifted_shr (Zpos mx) ex n ltac:(lia) Hn) as (rec & Hshr & Hrec).
  pose proof (round_nearest_even_shifted _ _ _ Hrec) as Hround.
  set (m2 := round_nearest_even (shr_m rec) (loc_of_shr_record rec)) in *.
  simpl in Hround. destruct Hround as (Hm2 & Hup).
  assert (Hq_hi : Zpos mx / 2 ^ n < 2 ^ 53).
  { apply Z.div_lt_upper_bound; [lia|].
    assert (2 ^ d <= 2 ^ (n + 53)) by (apply pow2_le; lia).
    rewrite pow2_add in H by lia. lia. }
  assert (Hq_lo : -1074 < e1 -> 2 ^ 52 <= Zpos mx / 2 ^ n).
  { intros Hnormal. apply Z.div_le_lower_bound; [lia|].
    assert (Hd : d - 1 = n + 52) by lia. rewrite Hd in Blo.
    rewrite pow2_add in Blo by lia. lia. }
  assert (Hq0 : 0 <= Zpos mx / 2 ^ n) by (apply Z.div_pos; lia).
  exists m2.
  split; [exact Hm2|]. split; [exact Hup|]. split; [exact Hq_hi|].
  split; [exact Hq_lo|].
  unfold binary_round_aux, shr_fexp at 1. simpl shr_record_of_loc. simpl Zdigits2.
  fold d. fold e1. fold n. rewrite Hshr. fold m2.
  replace (ex + n) with e1 by lia.
  apply second_shift; lia.
Qed.

Lemma bounded_canonical (m : positive) (e : Z) :
  bounded prec emax m e = true ->
  canonical_mantissa prec emax m e = true /\ e <= 971.
Proof.
  unfold bounded. intros H. apply andb_true_iff in H. destruct H as [Hc He].
  split; [exact Hc|]. apply Z.leb_le in He. exact He.
Qed.

Lemma round_pack_nonneg_valid (m2 e1 : Z) :
  -1074 <= e1 -> 0 <= m2 <= 2 ^ 53 -> (-1074 < e1 -> 2 ^ 52 <= m2) ->
  nonneg_valid (round_pack m2 e1).
Proof.
  intros He [Hlo Hhi] Hnormal. unfold round_pack.
  destruct (Z.eqb_spec m2 0) as [-> | Hnz]; [exact I|].
  destruct (Z.eqb_spec m2 (2 ^ 53)) as [-> | Hn53].
  - destruct (Z.leb_spec (e1 + 1) (emax - prec)) as [Hle | Hgt]; [|reflexivity].
    split; [reflexivity|]. unfold bounded. apply andb_true_iff. split.
    + apply canonical_of_bounds; rewrite ?Z2Pos.id; try lia; reflexivity.
    + apply Z.leb_le. exact Hle.
  - destruct (Z.leb_spec e1 (emax - prec)) as [Hle | Hgt]; [|reflexivity].
    split; [reflexivity|]. unfold bounded. apply andb_true_iff. split.
    + apply canonical_of_bounds; rewrite ?Z2Pos.id; lia.
    + apply Z.leb_le. exact Hle.
Qed.

(** A canonical number in range whose value is at most the value of the
    rounded mantissa is at most the number built from it... *)
Lemma round_pack_ge (m2 e1 : Z) (m0 : positive) (e0 : Z) :
  -1074 <= e1 -> 0 <= m2 <= 2 ^ 53 -> (-1074 < e1 -> 2 ^ 52 <= m2) ->
  canonical_mantissa prec emax m0 e0 = true ->
  Zval (Zpos m0) e0 <= Zval m2 e1 ->
  leb (S754_finite false m0 e0) (round_pack m2 e1) = true.
Proof.
  intros He [Hlo Hhi] Hnormal Hc Hval.
  destruct (canonical_bounds m0 e0 Hc) as (E0 & H0 & L0).
  pose proof (Zval_pos (Zpos m0) e0 ltac:(lia) ltac:(lia)) as Hpos.
  unfold round_pack.
  destruct (Z.eqb_spec m2 0) as [-> | Hnz].
  { unfold Zval in Hval, Hpos. rewrite Z.mul_0_l in Hval. lia. }
  unfold leb, SFleb.
  destruct (Z.eqb_spec m2 (2 ^ 53)) as [-> | Hn53].
  - destruct (Z.leb_spec (e1 + 1) (emax - prec)) as [Hle | Hgt]; [|reflexivity].
    rewrite compare_canonical;
      [| exact Hc | apply canonical_of_bounds; rewrite ?Z2Pos.id; try lia; reflexivity].
    rewrite Z2Pos.id by lia. rewrite (Zval_shift (2 ^ 52) e1 1) by lia.
    change (2 ^ 52 * 2 ^ 1) with (2 ^ 53).
    destruct (Z.compare_spec (Zval (Zpos m0) e0) (Zval (2 ^ 53) e1)); [reflexivity.. | lia].
  - destruct (Z.leb_spec e1 (emax - prec)) as [Hle | Hgt]; [|reflexivity].
    rewrite compare_canonical;
      [| exact Hc | apply canonical_of_bounds; rewrite ?Z2Pos.id; lia].
    rewrite Z2Pos.id by lia.
    destruct (Z.compare_spec (Zval (Zpos m0) e0) (Zval m2 e1)); [reflexivity.. | lia].
Qed.

(** ... and one whose value is at least that value is at least that
    number, which then does not overflow. *)
Lemma round_pack_le (m2 e1 : Z) (m0 : positive) (e0 : Z) :
  -1074 <= e1 -> 0 <= m2 <= 2 ^ 53 -> (-1074 < e1 -> 2 ^ 52 <= m2) ->
  bounded prec emax m0 e0 = true ->
  Zval m2 e1 <= Zval (Zpos m0) e0 ->
  leb (round_pack m2 e1) (S754_finite false m0 e0) = true.
Proof.
  intros He [Hlo Hhi] Hnormal Hb Hval.
  destruct (bounded_canonical m0 e0 Hb) as [Hc Hmax].
  destruct (canonical_bounds m0 e0 Hc) as (E0 & H0 & L0).
  assert (Hbig : 971 <= e1 -> 2 ^ 52 <= m2 -> 971 < e1 \/ m2 = 2 ^ 53 -> False).
  { intros Hge Hm Hcase.
    assert (Ha : Zval (Zpos m0) e0 < Zval (2 ^ 53) 971).
    { replace 971 with (e0 + (971 - e0)) by lia. rewrite Zval_shift by lia.
      unfold Zval. apply Z.mul_lt_mono_pos_r; [apply pow2_pos; lia|].
      assert (0 < 2 ^ (971 - e0)) by (apply pow2_pos; lia). nia. }
    assert (Hb' : Zval (2 ^ 53) 971 <= Zval m2 e1).
    { replace e1 with (971 + (e1 - 971)) by lia. rewrite Zval_shift by lia.
      unfold Zval. apply Z.mul_le_mono_nonneg_r; [apply Z.lt_le_incl, pow2_pos; lia|].
      destruct Hcase as [Hgt | ->].
      - assert (2 ^ 1 <= 2 ^ (e1 - 971)) by (apply pow2_le; lia).
        change (2 ^ 1) with 2 in *. change (2 ^ 53) with (2 * 2 ^ 52). nia.
      - assert (0 < 2 ^ (e1 - 971)) by (apply pow2_pos; lia). nia. }
    lia. }
  unfold round_pack.
  destruct (Z.eqb_spec m2 0) as [-> | Hnz]; [reflexivity|].
  unfold leb, SFleb.
  destruct (Z.eqb_spec m2 (2 ^ 53)) as [-> | Hn53].
  - destruct (Z.leb_spec (e1 + 1) (emax - prec)) as [Hle | Hgt].
    + rewrite compare_canonical;
        [| apply canonical_of_bounds; rewrite ?Z2Pos.id; try lia; reflexivity | exact Hc].
      rewrite Z2Pos.id by lia. rewrite (Zval_shift (2 ^ 52) e1 1) by lia.
      change (2 ^ 52 * 2 ^ 1) with (2 ^ 53).
      destruct (Z.compare_spec (Zval (2 ^ 53) e1) (Zval (Zpos m0) e0)); [reflexivity.. | lia].
    + exfalso. change (emax - prec) with 971 in Hgt.
      apply Hbig; [lia | lia | right; reflexivity].
  - destruct (Z.leb_spec e1 (emax - prec)) as [Hle | Hgt].
    + rewrite compare_canonical;
        [| apply canonical_of_bounds; rewrite ?Z2Pos.id; lia | exact Hc].
      rewrite Z2Pos.id by lia.
      destruct (Z.compare_spec (Zval m2 e1) (Zval (Zpos m0) e0)); [reflexivity.. | lia].
    + exfalso. change (emax - prec) with 971 in Hgt.
      apply Hbig; [lia | apply Hnormal; lia | left; lia].
Qed.

(** *** Rounding is monotone around canonical numbers *)

(** A canonical number below the exact value [mx * 2^ex] stays below the
    mantissa rounded at the exponent [e1]. *)
Lemma round_down_bound (mx ex e1 m2 : Z) (m0 : positive) (e0 : Z) :
  -1200 <= ex <= e1 -> 0 < mx ->
  mx / 2 ^ (e1 - ex) <= m2 ->
  (-1074 < e1 -> 2 ^ 52 <= mx / 2 ^ (e1 - ex)) ->
  canonical_mantissa prec emax m0 e0 = true ->
  Zval (Zpos m0) e0 <= Zval mx ex ->
  Zval (Zpos m0) e0 <= Zval m2 e1.
Proof.
  intros [Hex Hle] Hmx Hm2 Hnormal Hc Hval.
  destruct (canonical_bounds m0 e0 Hc) as (E0 & H0 & L0).
  set (n := e1 - ex) in *.
  assert (Hpn : 0 < 2 ^ n) by (apply pow2_pos; lia).
  destruct (Z.le_gt_cases e1 e0) as [Hcase | Hcase].
  - (* the number is a multiple of [2^e1] *)
    assert (Ha : Zval (Zpos m0) e0 = Zval (Zpos m0 * 2 ^ (n + (e0 - e1))) ex).
    { rewrite <- Zval_shift by lia. f_equal. lia. }
    assert (Hb : Zval m2 e1 = Zval (m2 * 2 ^ n) ex).
    { rewrite <- Zval_shift by lia. f_equal. lia. }
    rewrite Ha in Hval |- *. rewrite Hb. clear Ha Hb.
    unfold Zval in *.
    assert (HP : 0 < 2 ^ (ex + 1200)) by (apply pow2_pos; lia).
    apply Z.mul_le_mono_pos_r in Hval; [|exact HP].
    apply Z.mul_le_mono_nonneg_r; [lia|].
    rewrite pow2_add in Hval |- * by lia.
    set (M := 2 ^ (e0 - e1)) in *.
    assert (HM : Zpos m0 * M <= mx / 2 ^ n).
    { apply Z.div_le_lower_bound; [lia|]. lia. }
    nia.
  - (* the number is below the least normal mantissa at [e1] *)
    specialize (Hnormal ltac:(lia)).
    assert (Hb : Zval m2 e1 = Zval (m2 * 2 ^ (e1 - e0)) e0).
    { rewrite <- Zval_shift by lia. f_equal. lia. }
    rewrite Hb. clear Hb.
    unfold Zval. apply Z.mul_le_mono_nonneg_r; [apply Z.lt_le_incl, pow2_pos; lia|].
    assert (2 ^ 1 <= 2 ^ (e1 - e0)) by (apply pow2_le; lia).
    change (2 ^ 1) with 2 in *. change (2 ^ 53) with (2 * 2 ^ 52) in H0. nia.
Qed.

(** A canonical number above the exact value stays above the rounded
    mantissa. *)
Lemma round_up_bound (mx ex e1 m2 : Z) (m0 : positive) (e0 : Z) :
  -1200 <= ex <= e1 -> 0 < mx ->
  m2 <= mx / 2 ^ (e1 - ex) + 1 ->
  (m2 = mx / 2 ^ (e1 - ex) + 1 -> mx mod 2 ^ (e1 - ex) <> 0) ->
  (-1074 < e1 -> 2 ^ 52 <= mx / 2 ^ (e1 - ex)) ->
  canonical_mantissa prec emax m0 e0 = true ->
  Zval mx ex <= Zval (Zpos m0) e0 ->
  Zval m2 e1 <= Zval (Zpos m0) e0.
Proof.
  intros [Hex Hle] Hmx Hm2 Hup Hnormal Hc Hval.
  destruct (canonical_bounds m0 e0 Hc) as (E0 & H0 & L0).
  set (n := e1 - ex) in *.
  assert (Hpn : 0 < 2 ^ n) by (apply pow2_pos; lia).
  pose proof (Z.div_mod mx (2 ^ n) ltac:(lia)) as Hdm.
  pose proof (Z.mod_pos_bound mx (2 ^ n) Hpn) as Hmod.
  assert (HP : 0 < 2 ^ (ex + 1200)) by (apply pow2_pos; lia).
  destruct (Z.le_gt_cases e1 e0) as [Hcase | Hcase].
  - assert (Ha : Zval (Zpos m0) e0 = Zval (Zpos m0 * 2 ^ (n + (e0 - e1))) ex).
    { rewrite <- Zval_shift by lia. f_equal. lia. }
    assert (Hb : Zval m2 e1 = Zval (m2 * 2 ^ n) ex).
    { rewrite <- Zval_shift by lia. f_equal. lia. }
    rewrite Ha in Hval |- *. rewrite Hb. clear Ha Hb.
    unfold Zval in *.
    apply Z.mul_le_mono_pos_r in Hval; [|exact HP].
    apply Z.mul_le_mono_nonneg_r; [lia|].
    rewrite pow2_add in Hval |- * by lia.
    set (M := 2 ^ (e0 - e1)) in *.
    set (q := mx / 2 ^ n) in *. set (r := mx mod 2 ^ n) in *.
    assert (Hq : q <= Zpos m0 * M) by nia.
    destruct (Z.eq_dec m2 (q + 1)) as [Heq | Hne].
    + specialize (Hup Heq). assert (q < Zpos m0 * M) by nia. nia.
    + assert (m2 <= q) by lia. nia.
  - exfalso. specialize (Hnormal ltac:(lia)).
    assert (Hx : Zval (2 ^ 52) e1 <= Zval mx ex).
    { assert (Hb : Zval (2 ^ 52) e1 = Zval (2 ^ 52 * 2 ^ n) ex).
      { rewrite <- Zval_shift by lia. f_equal. lia. }
      rewrite Hb. unfold Zval. apply Z.mul_le_mono_nonneg_r; [lia|]. nia. }
    assert (Ha : Zval (Zpos m0) e0 < Zval (2 ^ 52) e1).
    { assert (Hb : Zval (2 ^ 52) e1 = Zval (2 ^ 52 * 2 ^ (e1 - e0)) e0).
      { rewrite <- Zval_shift by lia. f_equal. lia. }
      rewrite Hb. unfold Zval. apply Z.mul_lt_mono_pos_r; [apply pow2_pos; lia|].
      assert (2 ^ 1 <= 2 ^ (e1 - e0)) by (apply pow2_le; lia).
      change (2 ^ 1) with 2 in *. change (2 ^ 53) with (2 * 2 ^ 52) in H0. nia. }
    lia.
Qed.

(** [binary_round_aux] on a positive mantissa at or below its canonical
    exponent returns a non-negative number, which is above every canonical
    number below the exact value and below every canonical number in range
    above it. *)
Lemma binary_round_aux_monotone (mx : positive) (ex : Z) :
  -1200 <= ex ->
  ex <= fexp prec emax (Zpos (digits2_pos mx) + ex) ->
  let result := binary_round_aux prec emax false (Zpos mx) ex loc_Exact in
  nonneg_valid result
  /\ (forall m0 e0, canonical_mantissa prec emax m0 e0 = true ->
                    Zval (Zpos m0) e0 <= Zval (Zpos mx) ex ->
                    leb (S754_finite false m0 e0) result = true)
  /\ (forall m0 e0, bounded prec emax m0 e0 = true ->
                    Zval (Zpos mx) ex <= Zval (Zpos m0) e0 ->
                    leb result (S754_finite false m0 e0) = true).
Proof.
  intros Hex Hle result.
  destruct (binary_round_aux_exact mx ex Hle) as (m2 & Hm2 & Hup & Hhi & Hlo & Hres).
  unfold result. rewrite Hres. clear result Hres.
  set (e1 := fexp prec emax (Zpos (digits2_pos mx) + ex)) in *.
  assert (He1 : -1074 <= e1) by (unfold e1; rewrite fexp_unfold; lia).
  assert (Hq0 : 0 <= Zpos mx / 2 ^ (e1 - ex)).
  { apply Z.div_pos; [lia | apply pow2_pos; lia]. }
  assert (Hnormal : -1074 < e1 -> 2 ^ 52 <= m2).
  { intros H. specialize (Hlo H). lia. }
  split; [|split].
  - apply round_pack_nonneg_valid; lia.
  - intros m0 e0 Hc Hval.
    apply round_pack_ge; try lia; [exact Hc|].
    apply (round_down_bound (Zpos mx) ex e1 m2 m0 e0); try lia; assumption.
  - intros m0 e0 Hb Hval.
    apply round_pack_le; try lia; [exact Hb|].
    apply (round_up_bound (Zpos mx) ex e1 m2 m0 e0); try lia; try assumption.
    apply (bounded_canonical m0 e0 Hb).
Qed.

(** *** Aligning a mantissa to a lower exponent *)

Lemma iter_xO_val (m d : positive) : Zpos (Pos.iter xO m d) = Zpos m * 2 ^ Zpos d.
Proof.
  change (Pos.iter xO m d) with (shift_pos d m).
  rewrite shift_pos_correct. change (Z.pow_pos 2 d) with (2 ^ Zpos d). ring.
Qed.

Lemma shl_align_spec (m : positive) (e e' : Z) :
  let '(m', e'') := shl_align m e e' in
  e'' = Z.min e e' /\ Zpos m' = Zpos m * 2 ^ (e - Z.min e e').
Proof.
  unfold shl_align. destruct (e' - e) as [|d|d] eqn:Hd.
  - split; [lia|]. replace (e - Z.min e e') with 0 by lia. simpl. lia.
  - split; [lia|]. replace (e - Z.min e e') with 0 by lia. simpl. lia.
  - split; [lia|]. rewrite iter_xO_val. f_equal. f_equal. lia.
Qed.

Lemma digits2_shift (m : positive) (k : Z) (m' : positive) :
  0 <= k -> Zpos m' = Zpos m * 2 ^ k ->
  Zpos (digits2_pos m') = Zpos (digits2_pos m) + k.
Proof.
  intros Hk Hm'. apply digits2_unique. rewrite Hm'.
  pose proof (digits2_bounds m) as [Blo Bhi].
  assert (0 < 2 ^ k) by (apply pow2_pos; lia).
  replace (Zpos (digits2_pos m) + k - 1) with (Zpos (digits2_pos m) - 1 + k) by lia.
  rewrite !pow2_add by lia. nia.
Qed.

(** [binary_round] of a positive mantissa: the rounding lemma holds with
    no condition on where the mantissa stands. *)
Lemma binary_round_monotone (mx : positive) (ex : Z) :
  -1200 <= ex ->
  let result := binary_round prec emax false mx ex in
  nonneg_valid result
  /\ (forall m0 e0, canonical_mantissa prec emax m0 e0 = true ->
                    Zval (Zpos m0) e0 <= Zval (Zpos mx) ex ->
                    leb (S754_finite false m0 e0) result = true)
  /\ (forall m0 e0, bounded prec emax m0 e0 = true ->
                    Zval (Zpos mx) ex <= Zval (Zpos m0) e0 ->
                    leb result (S754_finite false m0 e0) = true).
Proof.
  intros Hex result. unfold result, binary_round. clear result.
  set (e1 := fexp prec emax (Zpos (digits2_pos mx) + ex)).
  assert (He1 : -1074 <= e1) by (unfold e1; rewrite fexp_unfold; lia).
  pose proof (shl_align_spec mx ex e1) as Hal.
  destruct (shl_align mx ex e1) as [mz ez]. destruct Hal as [Hez Hmz].
  assert (Hk : 0 <= ex - Z.min ex e1) by lia.
  pose proof (digits2_shift mx _ mz Hk Hmz) as Hdig.
  assert (Hsame : Zval (Zpos mz) ez = Zval (Zpos mx) ex).
  { rewrite Hmz, Hez. rewrite <- Zval_shift by lia. f_equal. lia. }
  assert (Hpre : ez <= fexp prec emax (Zpos (digits2_pos mz) + ez)).
  { rewrite Hdig, Hez.
    replace (Zpos (digits2_pos mx) + (ex - Z.min ex e1) + Z.min ex e1)
      with (Zpos (digits2_pos mx) + ex) by lia.
    fold e1. lia. }
  pose proof (binary_round_aux_monotone mz ez ltac:(lia) Hpre) as Hmono.
  rewrite Hsame in Hmono. exact Hmono.
Qed.

(** *** Addition of non-negative numbers *)

Lemma leb_refl_finite (s : bool) (m : positive) (e : Z) :
  leb (S754_finite s m e) (S754_finite s m e) = true.
Proof.
  unfold leb, SFleb, SFcompare.
  rewrite Z.compare_refl.
  change (Pos.compare_cont Eq m m) with (Pos.compare m m). rewrite Pos.compare_refl.
  destruct s; reflexivity.
Qed.

Lemma leb_refl_nonneg (x : spec_float) : nonneg_valid x -> leb x x = true.
Proof.
  destruct x as [s|s| |s m e]; simpl; intros H.
  - reflexivity.
  - subst s. reflexivity.
  - contradiction.
  - apply leb_refl_finite.
Qed.

(** The sum of two non-negative numbers is a non-negative number that is
    not below the first one. *)
Lemma add_nonneg (x y : spec_float) :
  nonneg_valid x -> nonneg_valid y ->
  nonneg_valid (add x y) /\ leb x (add x y) = true.
Proof.
  intros Hx Hy.
  destruct x as [sx|sx| |sx mx ex]; try contradiction;
    destruct y as [sy|sy| |sy my ey]; try contradiction;
    simpl in Hx, Hy;
    repeat match goal with
           | H : _ /\ _ |- _ => destruct H
           | H : ?s = false |- _ => subst s
           end.
  - split; [destruct sx, sy; exact I | destruct sx, sy; reflexivity].
  - split; [reflexivity | reflexivity].
  - split; [split; [reflexivity | assumption] | reflexivity].
  - split; [reflexivity | reflexivity].
  - split; [reflexivity | reflexivity].
  - split; [reflexivity | reflexivity].
  - split; [split; [reflexivity | assumption] | apply leb_refl_finite].
  - split; [reflexivity | reflexivity].
  - (* two positive numbers *)
    destruct (bounded_canonical mx ex ltac:(assumption)) as [Cx _].
    destruct (bounded_canonical my ey ltac:(assumption)) as [Cy _].
    destruct (canonical_bounds mx ex Cx) as (Ex & _ & _).
    destruct (canonical_bounds my ey Cy) as (Ey & _ & _).
    unfold add, SFadd. simpl cond_Zopp.
    pose proof (shl_align_spec mx ex (Z.min ex ey)) as Hax.
    pose proof (shl_align_spec my ey (Z.min ex ey)) as Hay.
    destruct (shl_align mx ex (Z.min ex ey)) as [mx' ex'].
    destruct (shl_align my ey (Z.min ex ey)) as [my' ey'].
    destruct Hax as [_ Hmx']. destruct Hay as [_ Hmy']. simpl fst.
    change (Zpos mx' + Zpos my') with (Zpos (mx' + my')). simpl binary_normalize.
    pose proof (binary_round_monotone (mx' + my') (Z.min ex ey) ltac:(lia)) as (Hv & Hge & _).
    split; [exact Hv|].
    apply Hge; [exact Cx|].
    rewrite Pos2Z.inj_add, Hmx'.
    replace (ex - Z.min ex (Z.min ex ey)) with (ex - Z.min ex ey) by lia.
    assert (Hs : Zval (Zpos mx) ex = Zval (Zpos mx * 2 ^ (ex - Z.min ex ey)) (Z.min ex ey)).
    { rewrite <- Zval_shift by lia. f_equal. lia. }
    rewrite Hs. unfold Zval.
    apply Z.mul_le_mono_nonneg_r; [apply Z.lt_le_incl, pow2_pos; lia | lia].
Qed.

(** *** The order of the comparisons *)

Ltac compare_cases :=
  repeat match goal with
         | H : context [Pos.compare_cont Eq ?a ?b] |- _ =>
             change (Pos.compare_cont Eq a b) with (Pos.compare a b) in H
         | |- context [Pos.compare_cont Eq ?a ?b] =>
             change (Pos.compare_cont Eq a b) with (Pos.compare a b)
         end;
  repeat match goal with
         | H : context [Z.compare ?a ?b] |- _ => destruct (Z.compare_spec a b); simpl in H
         | H : context [Pos.compare ?a ?b] |- _ => destruct (Pos.compare_spec a b); simpl in H
         | |- context [Z.compare ?a ?b] => destruct (Z.compare_spec a b); simpl
         | |- context [Pos.compare ?a ?b] => destruct (Pos.compare_spec a b); simpl
         end;
  try reflexivity; try discriminate; try lia.

Lemma leb_trans (x y z : num) : leb x y = true -> leb y z = true -> leb x z = true.
Proof.
  unfold leb, SFleb, SFcompare.
  destruct x as [sx|sx| |sx mx ex], y as [sy|sy| |sy my ey], z as [sz|sz| |sz mz ez];
    try discriminate; try reflexivity;
    try (destruct sx); try (destruct sy); try (destruct sz);
    try discriminate; try reflexivity; intros Hxy Hyz; compare_cases.
Qed.

Lemma leb_ltb_trans (x y z : num) : leb x y = true -> ltb y z = true -> ltb x z = true.
Proof.
  unfold leb, ltb, SFleb, SFltb, SFcompare.
  destruct x as [sx|sx| |sx mx ex], y as [sy|sy| |sy my ey], z as [sz|sz| |sz mz ez];
    try discriminate; try reflexivity;
    try (destruct sx); try (destruct sy); try (destruct sz);
    try discriminate; try reflexivity; intros Hxy Hyz; compare_cases.
Qed.

(** A valid number that is not below [0] is a non-negative number. *)
Lemma nonneg_valid_of (x : num) :
  valid_binary prec emax x = true -> leb (of_Z 0) x = true -> nonneg_valid x.
Proof.
  replace (of_Z 0) with (S754_zero false) by reflexivity.
  destruct x as [s|s| |s m e]; simpl; intros Hv Hle.
  - exact I.
  - destruct s; [discriminate | reflexivity].
  - discriminate.
  - destruct s; [discriminate | split; [reflexivity | exact Hv]].
Qed.

End BinaryRounding.

(** ** execProb: the checks before the draw *)

Section ExecProbChecks.

Lemma hasOwn_el_false (element : ProbInfo) :
  negb (hasOwn_el element) = true <-> el element = None.
Proof. unfold hasOwn_el. destruct (el element); simpl; split; congruence. Qed.

Lemma hasOwn_prob_false (element : ProbInfo) :
  negb (hasOwn_prob element) = true <-> prob element = None.
Proof. unfold hasOwn_prob. destruct (prob element); simpl; split; congruence. Qed.

Lemma all_own_el (arr : list ProbInfo) :
  (forall y, In y arr -> el y <> None) ->
  forall y, In y arr -> negb (hasOwn_el y) = false.
Proof.
  intros H y Hy. specialize (H y Hy). unfold hasOwn_el. destruct (el y); simpl; congruence.
Qed.

Lemma all_own_prob (arr : list ProbInfo) :
  (forall y, In y arr -> prob y <> None) ->
  forall y, In y arr -> negb (hasOwn_prob y) = false.
Proof.
  intros H y Hy. specialize (H y Hy). unfold hasOwn_prob. destruct (prob y); simpl; congruence.
Qed.

Lemma leb_0_of_nat (n : nat) : (0 <=? Z.of_nat n) = true.
Proof. apply Z.leb_le. lia. Qed.

Lemma number_default_rules (n : num) (al nal : string) :
  VerifyThis.number (VNum n) (NumberRules.mk None None al [] nal) = Normal tt.
Proof. reflexivity. Qed.

(** The draw of [execProb]: [Random.floatBetween(0, 100)] never throws;
    it scales the bounds to [0] and [1000], takes
    [Math.floor(random * 1001) + 0], divides by [10] and keeps one
    decimal. *)
Lemma floatBetween_0_100 (random : num) :
  Random.floatBetween random (of_Z 0) (of_Z 100) 1
  = Normal (toFixed_Number 1
              (div (add (floor (mul random (of_Z 1001))) (of_Z 0)) (of_Z 10))).
Proof.
  unfold Random.floatBetween, Random.intBetween.
  rewrite !number_default_rules.
  assert (Hd : VerifyThis.number (VNum (of_Z 1))
                 (NumberRules.mk (Some (of_Z 1)) None "Number of decimals" [] "number")
               = Normal tt) by (vm_compute; reflexivity).
  assert (H1 : eqb (of_Z 0) (of_Z 100) = false) by (vm_compute; reflexivity).
  assert (H2 : gtb (of_Z 0) (of_Z 100) = false) by (vm_compute; reflexivity).
  assert (H3 : mul (of_Z 0) (pow10 1) = of_Z 0) by (vm_compute; reflexivity).
  assert (H4 : mul (of_Z 100) (pow10 1) = of_Z 1000) by (vm_compute; reflexivity).
  assert (H5 : eqb (of_Z 0) (of_Z 1000) = false) by (vm_compute; reflexivity).
  assert (H6 : gtb (of_Z 0) (of_Z 1000) = false) by (vm_compute; reflexivity).
  assert (H7 : add (sub (of_Z 1000) (of_Z 0)) (of_Z 1) = of_Z 1001)
    by (vm_compute; reflexivity).
  assert (H8 : pow10 1 = of_Z 10) by (vm_compute; reflexivity).
  rewrite Hd, H1, H2, H3, H4, H5, H6, H7, H8.
  reflexivity.
Qed.

(** [execProb] on an array whose elements own both properties. *)
Lemma execProb_complete (random : num) (arr : list ProbInfo) :
  complete arr ->
  execProb random arr
  = (throw_if (gtb (checkPercent arr) (of_Z 100)) Error
       [Txt "The sum of the probabilities is more than 100"] ;;
     num <- Random.floatBetween random (of_Z 0) (of_Z 100) 1 ;;
     Normal (walk num (of_Z 0) arr)).
Proof.
  intros Hc. unfold execProb.
  rewrite (findIndex_none _ arr (all_own_el arr (fun y Hy => proj1 (Hc y Hy)))).
  rewrite (findIndex_none _ arr (all_own_prob arr (fun y Hy => proj2 (Hc y Hy)))).
  reflexivity.
Qed.

(** C5: when some element lacks [el] or [prob], [execProb] throws the
    ReferenceError of the property check, whatever the probabilities sum
    to and whatever the random source gives: it names the index of the
    first element without [el], or, when every element has [el], of the
    first element without [prob]. *)
Theorem execProb_missing_property (random : num) (arr : list ProbInfo) :
  (exists element, In element arr /\ (el element = None \/ prob element = None)) ->
  exists pre element post,
    arr = pre ++ element :: post
    /\ ((el element = None
         /\ (forall y, In y pre -> el y <> None)
         /\ execProb random arr = Throw (missing_el (List.length pre)))
        \/ ((forall y, In y arr -> el y <> None)
            /\ prob element = None
            /\ (forall y, In y pre -> prob y <> None)
            /\ execProb random arr = Throw (missing_prob (List.length pre)))).
Proof.
  intros (bad & Hin & Hbad).
  destruct (findIndex_split (fun element => negb (hasOwn_el element)) arr)
    as [Hel | (pre & x & post & Harr & Hpre & Hx)].
  - destruct (findIndex_split (fun element => negb (hasOwn_prob element)) arr)
      as [Hprob | (pre & x & post & Harr & Hpre & Hx)].
    + exfalso. destruct Hbad as [Hb | Hb].
      * apply hasOwn_el_false in Hb. rewrite (Hel bad Hin) in Hb. discriminate.
      * apply hasOwn_prob_false in Hb. rewrite (Hprob bad Hin) in Hb. discriminate.
    + exists pre, x, post. split; [exact Harr|]. right.
      assert (Hall : forall y, In y arr -> el y <> None).
      { intros y Hy Hnone. apply hasOwn_el_false in Hnone.
        rewrite (Hel y Hy) in Hnone. discriminate. }
      repeat split.
      * exact Hall.
      * apply hasOwn_prob_false, Hx.
      * intros y Hy Hnone. apply hasOwn_prob_false in Hnone.
        rewrite (Hpre y Hy) in Hnone. discriminate.
      * subst arr. unfold execProb. rewrite (findIndex_none _ _ Hel).
        rewrite (findIndex_first _ pre x post Hpre Hx).
        unfold throw_if, missing_prob, of_nat. simpl.
        rewrite leb_0_of_nat. reflexivity.
  - exists pre, x, post. split; [exact Harr|]. left. repeat split.
    + apply hasOwn_el_false, Hx.
    + intros y Hy Hnone. apply hasOwn_el_false in Hnone.
      rewrite (Hpre y Hy) in Hnone. discriminate.
    + subst arr. unfold execProb.
      rewrite (findIndex_first _ pre x post Hpre Hx).
      unfold throw_if, missing_el, of_nat. simpl.
      rewrite leb_0_of_nat. reflexivity.
Qed.

(** [execProb([{prob: 10}])] names index 0 and the property [el]. *)
Lemma execProb_missing_property_witness :
  execProb (of_ratio 1 2) [mkProbInfo None (Some (of_Z 10))] = Throw (missing_el 0).
Proof.
  destruct (execProb_missing_property (of_ratio 1 2) [mkProbInfo None (Some (of_Z 10))])
    as (pre & element & post & Harr & Hcase).
  - exists (mkProbInfo None (Some (of_Z 10))). split; [left; reflexivity | left; reflexivity].
  - destruct pre as [|p pre].
    + destruct Hcase as [(_ & _ & Hthrow) | (Hall & _)].
      * exact Hthrow.
      * exfalso. apply (Hall (mkProbInfo None (Some (of_Z 10)))); [left|]; reflexivity.
    + exfalso. destruct pre; discriminate Harr.
Defined.

End ExecProbChecks.

(** ** execProb: the cumulative walk *)

Section Walk.

Lemma cumulative_running (arr : list ProbInfo) (i : nat) :
  cumulative arr i = running (of_Z 0) (firstn (S i) arr).
Proof. reflexivity. Qed.

Lemma walk_first_from (r : num) (arr : list ProbInfo) :
  forall (c : num) (i : nat) (element : ProbInfo),
    nth_error arr i = Some element ->
    (forall j, (j < i)%nat -> leb r (running c (firstn (S j) arr)) = false) ->
    leb r (running c (firstn (S i) arr)) = true ->
    walk r c arr = item_of element.
Proof.
  induction arr as [|a rest IH]; intros c i element Hnth Hbefore Hat.
  - destruct i; discriminate Hnth.
  - destruct i as [|i]; simpl in Hnth.
    + injection Hnth as <-. simpl in Hat. simpl. rewrite Hat. reflexivity.
    + pose proof (Hbefore 0%nat ltac:(lia)) as H0. simpl in H0.
      simpl. rewrite H0.
      apply (IH (add c (percent_of a)) i element Hnth).
      * intros j Hj. apply (Hbefore (S j)). lia.
      * exact Hat.
Qed.

Lemma walk_none_from (r : num) (arr : list ProbInfo) :
  forall (c : num),
    (forall j, (j < List.length arr)%nat -> leb r (running c (firstn (S j) arr)) = false) ->
    walk r c arr = VUndefined.
Proof.
  induction arr as [|a rest IH]; intros c Hall.
  - reflexivity.
  - pose proof (Hall 0%nat ltac:(simpl; lia)) as H0. simpl in H0.
    simpl. rewrite H0.
    apply IH. intros j Hj. apply (Hall (S j)). simpl. lia.
Qed.

(** [execProb] once the checks have passed and the draw is [r]. *)
Lemma execProb_walk (random r : num) (arr : list ProbInfo) :
  complete arr ->
  gtb (checkPercent arr) (of_Z 100) = false ->
  Random.floatBetween random (of_Z 0) (of_Z 100) 1 = Normal r ->
  execProb random arr = Normal (walk r (of_Z 0) arr).
Proof.
  intros Hc Hsum Hdraw.
  rewrite (execProb_complete random arr Hc), Hsum, Hdraw. reflexivity.
Qed.

Lemma complete_A60_B40 : complete A60_B40.
Proof. intros e [<- | [<- | []]]; split; discriminate. Qed.

(** C2: once the array has passed the checks (both properties on every
    element, a sum of at most 100), [execProb] returns the element of the
    first index whose cumulative total is at least the draw [r], the
    totals being accumulated in the order of the array, and [undefined]
    when no total reaches [r]; on [[{A, 60}, {B, 40}]] it returns "A" for
    every draw in [[0, 60]] and "B" for every draw in [(60, 100)]. *)
Theorem execProb_first_reaching :
  (forall (arr : list ProbInfo) (random r : num),
      complete arr ->
      leb (checkPercent arr) (of_Z 100) = true ->
      Random.floatBetween random (of_Z 0) (of_Z 100) 1 = Normal r ->
      (forall (i : nat) (element : ProbInfo),
          nth_error arr i = Some element ->
          (forall j, (j < i)%nat -> leb r (cumulative arr j) = false) ->
          leb r (cumulative arr i) = true ->
          execProb random arr = Normal (item_of element))
      /\ ((forall j, (j < List.length arr)%nat -> leb r (cumulative arr j) = false) ->
          execProb random arr = Normal VUndefined))
  /\ (forall (random r : num),
         Random.floatBetween random (of_Z 0) (of_Z 100) 1 = Normal r ->
         (leb (of_Z 0) r = true -> leb r (of_Z 60) = true ->
          execProb random A60_B40 = Normal (VStr "A"))
         /\ (ltb (of_Z 60) r = true -> ltb r (of_Z 100) = true ->
             execProb random A60_B40 = Normal (VStr "B"))).
Proof.
  assert (General : forall (arr : list ProbInfo) (random r : num),
      complete arr ->
      leb (checkPercent arr) (of_Z 100) = true ->
      Random.floatBetween random (of_Z 0) (of_Z 100) 1 = Normal r ->
      (forall (i : nat) (element : ProbInfo),
          nth_error arr i = Some element ->
          (forall j, (j < i)%nat -> leb r (cumulative arr j) = false) ->
          leb r (cumulative arr i) = true ->
          execProb random arr = Normal (item_of element))
      /\ ((forall j, (j < List.length arr)%nat -> leb r (cumulative arr j) = false) ->
          execProb random arr = Normal VUndefined)).
  { intros arr random r Hc Hsum Hdraw.
    pose proof (execProb_walk random r arr Hc (leb_not_gtb _ _ Hsum) Hdraw) as Hexec.
    split.
    - intros i element Hnth Hbefore Hat. rewrite Hexec. f_equal.
      apply (walk_first_from r arr (of_Z 0) i element Hnth Hbefore Hat).
    - intros Hall. rewrite Hexec. f_equal.
      apply (walk_none_from r arr (of_Z 0) Hall). }
  split; [exact General|].
  intros random r Hdraw.
  assert (Hsum : leb (checkPercent A60_B40) (of_Z 100) = true) by (vm_compute; reflexivity).
  assert (H0 : cumulative A60_B40 0 = of_Z 60) by (vm_compute; reflexivity).
  assert (H1 : cumulative A60_B40 1 = of_Z 100) by (vm_compute; reflexivity).
  destruct (General A60_B40 random r complete_A60_B40 Hsum Hdraw) as [Hfirst _].
  split.
  - intros _ Hle.
    apply (Hfirst 0%nat (mkProbInfo (Some (VStr "A")) (Some (of_Z 60))) eq_refl).
    + intros j Hj. lia.
    + rewrite H0. exact Hle.
  - intros Hgt Hlt.
    apply (Hfirst 1%nat (mkProbInfo (Some (VStr "B")) (Some (of_Z 40))) eq_refl).
    + intros j Hj. assert (j = 0%nat) as -> by lia.
      rewrite H0. apply ltb_not_leb, Hgt.
    + rewrite H1. apply ltb_leb, Hlt.
Qed.

Lemma execProb_first_reaching_witness :
  execProb (of_ratio 1 3) A60_B40 = Normal (VStr "A")
  /\ execProb (of_ratio 2 3) A60_B40 = Normal (VStr "B").
Proof.
  split.
  - apply (proj1 (proj2 execProb_first_reaching (of_ratio 1 3) (of_ratio 333 10)
                    ltac:(vm_compute; reflexivity)));
      vm_compute; reflexivity.
  - apply (proj2 (proj2 execProb_first_reaching (of_ratio 2 3) (of_ratio 667 10)
                    ltac:(vm_compute; reflexivity)));
      vm_compute; reflexivity.
Defined.

(** The sum check alone decides whether [execProb] throws its Error. *)
Lemma execProb_sum_check (random : num) (arr : list ProbInfo) :
  complete arr ->
  (execProb random arr = Throw sum_more_than_100
   <-> gtb (checkPercent arr) (of_Z 100) = true).
Proof.
  intros Hc. rewrite (execProb_complete random arr Hc), floatBetween_0_100.
  destruct (gtb (checkPercent arr) (of_Z 100)); simpl; split; intros H;
    try reflexivity; discriminate H.
Qed.

End Walk.

(** ** execProb: the sum check and the gap below 100 *)

Section Gap.

Lemma probs_nonneg_cons (a : ProbInfo) (rest : list ProbInfo) :
  probs_nonneg (a :: rest) -> nonneg_valid (percent_of a) /\ probs_nonneg rest.
Proof.
  intros H. split.
  - destruct (H a (or_introl eq_refl)) as (p & Hp & Hv & Hle).
    unfold percent_of. rewrite Hp. apply nonneg_valid_of; assumption.
  - intros e He. apply H. right. exact He.
Qed.

Lemma probs_nonneg_app (l1 l2 : list ProbInfo) :
  probs_nonneg (l1 ++ l2) -> probs_nonneg l1 /\ probs_nonneg l2.
Proof.
  intros H. split; intros e He; apply H; apply in_or_app; [left | right]; exact He.
Qed.

(** The running total never decreases along non-negative probabilities. *)
Lemma running_nonneg (arr : list ProbInfo) :
  forall c, nonneg_valid c -> probs_nonneg arr ->
            nonneg_valid (running c arr) /\ leb c (running c arr) = true.
Proof.
  induction arr as [|a rest IH]; intros c Hc Harr; simpl.
  - split; [exact Hc | apply leb_refl_nonneg, Hc].
  - destruct (probs_nonneg_cons a rest Harr) as [Ha Hrest].
    destruct (add_nonneg c (percent_of a) Hc Ha) as [Hsum Hle].
    destruct (IH (add c (percent_of a)) Hsum Hrest) as [Hv Hle'].
    split; [exact Hv|]. apply (leb_trans _ _ _ Hle Hle').
Qed.

Lemma running_app (c : num) (l1 l2 : list ProbInfo) :
  running c (l1 ++ l2) = running (running c l1) l2.
Proof. apply fold_left_app. Qed.

(** Every cumulative total is at most the last one, the sum. *)
Lemma cumulative_le_sum (arr : list ProbInfo) (j : nat) :
  probs_nonneg arr -> leb (cumulative arr j) (checkPercent arr) = true.
Proof.
  intros Harr. unfold cumulative, checkPercent. fold (running (of_Z 0) (firstn (S j) arr)).
  fold (running (of_Z 0) arr).
  rewrite <- (firstn_skipn (S j) arr) at 2. rewrite running_app.
  rewrite <- (firstn_skipn (S j) arr) in Harr.
  destruct (probs_nonneg_app _ _ Harr) as [Hpre Hpost].
  assert (H0 : nonneg_valid (of_Z 0)) by exact I.
  destruct (running_nonneg _ _ H0 Hpre) as [Hv _].
  apply (running_nonneg _ _ Hv Hpost).
Qed.

(** C4, as stated, fails: with the probabilities 80 and -50 the sum is 30,
    below 100, and the draw 50 lies beyond it, the last cumulative total;
    yet [execProb] returns ["A"], whose cumulative total 80 reaches the
    draw, and not the no-selection outcome. *)
Lemma execProb_negative_weight_selects :
  (forall element, In element A80_Bminus50 -> el element <> None /\ prob element <> None)
  /\ checkPercent A80_Bminus50 = of_Z 30
  /\ ltb (checkPercent A80_Bminus50) (of_Z 100) = true
  /\ Random.floatBetween (of_ratio 1 2) (of_Z 0) (of_Z 100) 1 = Normal (of_Z 50)
  /\ ltb (checkPercent A80_Bminus50) (of_Z 50) = true
  /\ execProb (of_ratio 1 2) A80_Bminus50 = Normal (VStr "A")
  /\ execProb (of_ratio 1 2) A80_Bminus50 <> Normal VUndefined.
Proof.
  split.
  { intros e [<- | [<- | []]]; split; discriminate. }
  assert (Hrun : execProb (of_ratio 1 2) A80_Bminus50 = Normal (VStr "A"))
    by (vm_compute; reflexivity).
  repeat split; try (vm_compute; reflexivity).
  rewrite Hrun. discriminate.
Qed.

(** C4, amended: on an array whose elements own both properties,
    [execProb] throws the Error of the sum check exactly when the sum of
    the probabilities, added in the order of the array, is more than 100;
    when the probabilities are numbers from 0 on, their sum is below 100
    and the draw is above the sum, the last cumulative total, [execProb]
    returns [undefined], the no-selection outcome, and does not throw. *)
Theorem execProb_sum_check_and_gap :
  (forall (random : num) (arr : list ProbInfo),
      complete arr ->
      (execProb random arr = Throw sum_more_than_100
       <-> gtb (checkPercent arr) (of_Z 100) = true))
  /\ (forall (random r : num) (arr : list ProbInfo),
         complete arr ->
         probs_nonneg arr ->
         ltb (checkPercent arr) (of_Z 100) = true ->
         Random.floatBetween random (of_Z 0) (of_Z 100) 1 = Normal r ->
         ltb (checkPercent arr) r = true ->
         execProb random arr = Normal VUndefined).
Proof.
  split.
  - intros random arr Hc. apply execProb_sum_check, Hc.
  - intros random r arr Hc Hnn Hsum Hdraw Hgap.
    rewrite (execProb_walk random r arr Hc (leb_not_gtb _ _ (ltb_leb _ _ Hsum)) Hdraw).
    f_equal. apply walk_none_from. intros j _.
    change (running (of_Z 0) (firstn (S j) arr)) with (cumulative arr j).
    apply ltb_not_leb.
    apply (leb_ltb_trans _ _ _ (cumulative_le_sum arr j Hnn) Hgap).
Qed.

Lemma execProb_sum_check_and_gap_witness :
  execProb (of_ratio 1 2) [mkProbInfo (Some (VStr "A")) (Some (of_Z 150))]
  = Throw sum_more_than_100
  /\ execProb (of_ratio 9 10) [mkProbInfo (Some (VStr "A")) (Some (of_Z 50))]
     = Normal VUndefined.
Proof.
  split.
  - apply (proj1 execProb_sum_check_and_gap).
    + intros e [<- | []]; split; discriminate.
    + vm_compute. reflexivity.
  - apply (proj2 execProb_sum_check_and_gap (of_ratio 9 10) (of_Z 90)).
    + intros e [<- | []]; split; discriminate.
    + intros e [<- | []]. exists (of_Z 50). repeat split; vm_compute; reflexivity.
    + vm_compute. reflexivity.
    + vm_compute. reflexivity.
    + vm_compute. reflexivity.
Defined.

End Gap.

(** ** The draw of execProb *)

Section Draw.

Lemma of_Z_1001 : of_Z 1001 = S754_finite false m1001 (-43).
Proof. vm_compute. reflexivity. Qed.

Lemma of_Z_1 : of_Z 1 = S754_finite false 4503599627370496 (-52).
Proof. vm_compute. reflexivity. Qed.

(** A canonical positive number below [1] has an exponent of at most
    [-53], and at [-53] a mantissa of at most [2^53 - 1]. *)
Lemma below_one_exponent (mu : positive) (eu : Z) :
  canonical_mantissa prec emax mu eu = true ->
  ltb (S754_finite false mu eu) (of_Z 1) = true ->
  eu <= -53.
Proof.
  intros Hc Hlt. rewrite of_Z_1 in Hlt. unfold ltb, SFltb in Hlt.
  rewrite compare_canonical in Hlt; [| exact Hc | reflexivity].
  destruct (canonical_bounds mu eu Hc) as (E & Hhi & Hlo).
  destruct (Z.le_gt_cases eu (-53)) as [Hle | Hgt]; [exact Hle|].
  exfalso.
  assert (Hge : Zval 4503599627370496 (-52) <= Zval (Zpos mu) eu).
  { assert (Hs : Zval (Zpos mu) eu = Zval (Zpos mu * 2 ^ (eu + 52)) (-52)).
    { rewrite <- Zval_shift by lia. f_equal. lia. }
    rewrite Hs. unfold Zval. apply Z.mul_le_mono_nonneg_r; [apply Z.lt_le_incl, pow2_pos; lia|].
    assert (0 < 2 ^ (eu + 52)) by (apply pow2_pos; lia).
    specialize (Hlo ltac:(lia)). change (2 ^ 52) with 4503599627370496 in Hlo. nia. }
  destruct (Z.compare_spec (Zval (Zpos mu) eu) (Zval 4503599627370496 (-52)));
    try discriminate; lia.
Qed.

(** The product of [1001] and a positive number below [1], other than the
    largest one, is a non-negative number below [1001]. *)
Lemma mul_1001_below (mu : positive) (eu : Z) :
  bounded prec emax mu eu = true ->
  ltb (S754_finite false mu eu) (of_Z 1) = true ->
  S754_finite false mu eu <> below_1 ->
  nonneg_valid (mul (S754_finite false mu eu) (of_Z 1001))
  /\ leb (mul (S754_finite false mu eu) (of_Z 1001)) below_1001 = true.
Proof.
  intros Hb Hlt Hne.
  destruct (bounded_canonical mu eu Hb) as [Hc _].
  destruct (canonical_bounds mu eu Hc) as (E & Hhi & Hlo).
  pose proof (below_one_exponent mu eu Hc Hlt) as Heu.
  rewrite of_Z_1001. unfold mul, SFmul. simpl xorb.
  pose proof (digits2_bounds mu) as [Blo Bhi].
  pose proof (digits2_bounds (mu * m1001)) as [Plo Phi].
  set (du := Zpos (digits2_pos mu)) in *.
  set (d := Zpos (digits2_pos (mu * m1001))) in *.
  assert (Hd : du + 52 <= d).
  { destruct (Z.le_gt_cases (du + 52) d) as [H | H]; [exact H|]. exfalso.
    assert (2 ^ d <= 2 ^ (du - 1 + 52)) by (apply pow2_le; lia).
    rewrite pow2_add in H0 by lia.
    rewrite Pos2Z.inj_mul in Phi.
    change (2 ^ 52) with 4503599627370496 in H0.
    unfold m1001 in Phi. nia. }
  assert (Hpre : eu + -43 <= fexp prec emax (d + (eu + -43))).
  { rewrite fexp_unfold.
    unfold canonical_mantissa in Hc. rewrite fexp_unfold in Hc. apply Z.eqb_eq in Hc.
    fold du in Hc. lia. }
  destruct (binary_round_aux_monotone (mu * m1001) (eu + -43) ltac:(lia) Hpre)
    as (Hv & _ & Hle).
  split; [exact Hv|].
  apply Hle; [reflexivity|].
  assert (Hs : Zval (Zpos 8804889115230207) (-43)
               = Zval (Zpos 8804889115230207 * 2 ^ (- eu)) (eu + -43)).
  { rewrite <- Zval_shift by lia. f_equal. lia. }
  rewrite Hs. unfold Zval.
  apply Z.mul_le_mono_nonneg_r; [apply Z.lt_le_incl, pow2_pos; lia|].
  rewrite Pos2Z.inj_mul. unfold m1001.
  change (2 ^ 53) with 9007199254740992 in Hhi.
  destruct (Z.eq_dec eu (-53)) as [-> | Hne53].
  - change (2 ^ (- -53)) with 9007199254740992.
    assert (Zpos mu <> 9007199254740991).
    { intros Heq. apply Hne. unfold below_1. f_equal. lia. }
    lia.
  - assert (2 ^ 54 <= 2 ^ (- eu)) by (apply pow2_le; lia).
    change (2 ^ 54) with 18014398509481984 in H. lia.
Qed.

Lemma spec_float_eq_dec_below_1 (m : positive) (e : Z) :
  {S754_finite false m e = below_1} + {S754_finite false m e <> below_1}.
Proof.
  unfold below_1.
  destruct (Pos.eq_dec m 9007199254740991) as [-> | Hm];
    [destruct (Z.eq_dec e (-53)) as [-> | He]|].
  - left. reflexivity.
  - right. intros H. injection H as H. contradiction.
  - right. intros H. injection H as H _. contradiction.
Qed.

(** [Math.floor] of a non-negative number below [1001] is an integer
    from [0] to [1000]; adding [0] gives the same as for that integer. *)
Lemma floor_below_1001 (p : num) :
  nonneg_valid p -> leb p below_1001 = true ->
  exists k, 0 <= k <= 1000 /\ add (floor p) (of_Z 0) = add (of_Z k) (of_Z 0).
Proof.
  intros Hv Hle. destruct p as [s|s| |s m e]; simpl in Hv.
  - exists 0. split; [lia|]. destruct s; reflexivity.
  - subst s. discriminate Hle.
  - contradiction.
  - destruct Hv as [-> Hb].
    destruct (bounded_canonical m e Hb) as [Hc _].
    destruct (canonical_bounds m e Hc) as (E & Hhi & Hlo).
    unfold leb, SFleb, below_1001 in Hle.
    rewrite compare_canonical in Hle; [| exact Hc | reflexivity].
    assert (Hval : Zval (Zpos m) e <= Zval 8804889115230207 (-43)).
    { destruct (Z.compare_spec (Zval (Zpos m) e) (Zval 8804889115230207 (-43)));
        try discriminate; lia. }
    clear Hle.
    assert (Hlt : Zval (Zpos m) e < Zval 1001 0).
    { assert (Zval 8804889115230207 (-43) < Zval 1001 0); [|lia].
      assert (Hs : Zval 1001 0 = Zval (1001 * 2 ^ 43) (-43)).
      { rewrite <- Zval_shift by lia. reflexivity. }
      rewrite Hs. unfold Zval. apply Z.mul_lt_mono_pos_r; [apply pow2_pos; lia|].
      reflexivity. }
    assert (He : e < 0).
    { destruct (Z.le_gt_cases 0 e) as [H | H]; [|exact H]. exfalso.
      assert (Hs : Zval (Zpos m) e = Zval (Zpos m * 2 ^ e) 0).
      { rewrite <- Zval_shift by lia. reflexivity. }
      rewrite Hs in Hlt. unfold Zval in Hlt.
      apply Z.mul_lt_mono_pos_r in Hlt; [|apply pow2_pos; lia].
      assert (0 < 2 ^ e) by (apply pow2_pos; lia).
      specialize (Hlo ltac:(lia)). change (2 ^ 52) with 4503599627370496 in Hlo. nia. }
    exists (Zpos m / 2 ^ (- e)).
    assert (Hp : 0 < 2 ^ (- e)) by (apply pow2_pos; lia).
    split.
    + split; [apply Z.div_pos; lia|].
      assert (Zpos m / 2 ^ (- e) < 1001); [|lia].
      apply Z.div_lt_upper_bound; [exact Hp|].
      assert (Hs : Zval 1001 0 = Zval (1001 * 2 ^ (- e)) e).
      { rewrite <- Zval_shift by lia. f_equal. lia. }
      rewrite Hs in Hlt. unfold Zval in Hlt.
      apply Z.mul_lt_mono_pos_r in Hlt; [|apply pow2_pos; lia]. lia.
    + unfold floor. destruct (Z.leb_spec 0 e); [lia|]. reflexivity.
Qed.

Lemma same_num_eq (x y : num) : same_num x y = true -> x = y.
Proof.
  destruct x as [s|s| |s m e], y as [s'|s'| |s' m' e']; simpl; try discriminate.
  - intros H. apply Bool.eqb_prop in H. congruence.
  - intros H. apply Bool.eqb_prop in H. congruence.
  - reflexivity.
  - intros H. apply andb_true_iff in H. destruct H as [H He].
    apply andb_true_iff in H. destruct H as [Hs Hm].
    apply Bool.eqb_prop in Hs. apply Pos.eqb_eq in Hm. apply Z.eqb_eq in He. congruence.
Qed.

Lemma tenths_table : forallb tenth_ok (seq 0 1001) = true.
Proof. vm_compute. reflexivity. Qed.

Lemma tenth_of (k : Z) :
  0 <= k <= 1000 ->
  toFixed_Number 1 (div (add (of_Z k) (of_Z 0)) (of_Z 10)) = div (of_Z k) (of_Z 10)
  /\ leb (of_Z 0) (div (of_Z k) (of_Z 10)) = true
  /\ leb (div (of_Z k) (of_Z 10)) (of_Z 100) = true.
Proof.
  intros Hk.
  pose proof (proj1 (forallb_forall tenth_ok (seq 0 1001)) tenths_table (Z.to_nat k)) as H.
  assert (Hin : In (Z.to_nat k) (seq 0 1001)) by (apply in_seq; lia).
  specialize (H Hin). unfold tenth_ok, of_nat in H. rewrite Z2Nat.id in H by lia.
  apply andb_true_iff in H. destruct H as [H H3].
  apply andb_true_iff in H. destruct H as [H1 H2].
  apply same_num_eq in H1. auto.
Qed.

(** The draw for the largest number below [1]. *)
Lemma floor_mul_below_1 : floor (mul below_1 (of_Z 1001)) = of_Z 1000.
Proof. vm_compute. reflexivity. Qed.

(** C3, as stated, fails: for the output [1023/1024] of the random source,
    a binary64 number of [[0, 1)], [floatBetween(0, 100)] returns [100],
    which is not below [100]; and the draw keeps one decimal, not two: for
    the output nearest to [1/3] it is [33.3], while a call with
    [decimals = 2] returns [33.33]. *)
Lemma floatBetween_0_100_reaches_100 :
  (valid_binary prec emax (of_ratio 1023 1024) = true
   /\ leb (of_Z 0) (of_ratio 1023 1024) = true
   /\ ltb (of_ratio 1023 1024) (of_Z 1) = true
   /\ Random.floatBetween (of_ratio 1023 1024) (of_Z 0) (of_Z 100) 1 = Normal (of_Z 100)
   /\ ltb (of_Z 100) (of_Z 100) = false)
  /\ (Random.floatBetween (of_ratio 1 3) (of_Z 0) (of_Z 100) 1 = Normal (of_ratio 333 10)
      /\ Random.floatBetween (of_ratio 1 3) (of_Z 0) (of_Z 100) 2
         = Normal (of_ratio 3333 100)).
Proof. repeat split; vm_compute; reflexivity. Qed.

(** *** The draws that give 100 *)

Lemma least_for_100_eq : least_for_100 = S754_finite false 8998201053687305 (-53).
Proof. vm_compute. reflexivity. Qed.

Lemma of_Z_1000 : of_Z 1000 = S754_finite false 8796093022208000 (-43).
Proof. vm_compute. reflexivity. Qed.

(** Rounding the product of a positive number below [1] and [1001]. *)
Lemma mul_1001_round (mu : positive) (eu : Z) :
  bounded prec emax mu eu = true ->
  ltb (S754_finite false mu eu) (of_Z 1) = true ->
  eu <= -53
  /\ nonneg_valid (mul (S754_finite false mu eu) (of_Z 1001))
  /\ (forall m0 e0, canonical_mantissa prec emax m0 e0 = true ->
                    Zval (Zpos m0) e0 <= Zval (Zpos mu * Zpos m1001) (eu + -43) ->
                    leb (S754_finite false m0 e0)
                        (mul (S754_finite false mu eu) (of_Z 1001)) = true)
  /\ (forall m0 e0, bounded prec emax m0 e0 = true ->
                    Zval (Zpos mu * Zpos m1001) (eu + -43) <= Zval (Zpos m0) e0 ->
                    leb (mul (S754_finite false mu eu) (of_Z 1001))
                        (S754_finite false m0 e0) = true).
Proof.
  intros Hb Hlt.
  destruct (bounded_canonical mu eu Hb) as [Hc _].
  destruct (canonical_bounds mu eu Hc) as (E & Hhi & Hlo).
  pose proof (below_one_exponent mu eu Hc Hlt) as Heu.
  split; [exact Heu|].
  rewrite of_Z_1001. unfold mul, SFmul. simpl xorb.
  pose proof (digits2_bounds mu) as [Blo Bhi].
  pose proof (digits2_bounds (mu * m1001)) as [Plo Phi].
  set (du := Zpos (digits2_pos mu)) in *.
  set (d := Zpos (digits2_pos (mu * m1001))) in *.
  assert (Hd : du + 52 <= d).
  { destruct (Z.le_gt_cases (du + 52) d) as [H | H]; [exact H|]. exfalso.
    assert (2 ^ d <= 2 ^ (du - 1 + 52)) by (apply pow2_le; lia).
    rewrite pow2_add in H0 by lia.
    rewrite Pos2Z.inj_mul in Phi.
    change (2 ^ 52) with 4503599627370496 in H0.
    unfold m1001 in Phi. nia. }
  assert (Hpre : eu + -43 <= fexp prec emax (d + (eu + -43))).
  { rewrite fexp_unfold.
    unfold canonical_mantissa in Hc. rewrite fexp_unfold in Hc. apply Z.eqb_eq in Hc.
    fold du in Hc. lia. }
  pose proof (binary_round_aux_monotone (mu * m1001) (eu + -43) ltac:(lia) Hpre) as Hmono.
  cbv zeta in Hmono. rewrite Pos2Z.inj_mul in Hmono. exact Hmono.
Qed.

(** Among the finite numbers, [x < y] fails only if [y <= x]. *)
Lemma not_ltb_leb_finite (sx : bool) (mx : positive) (ex : Z)
    (sy : bool) (my : positive) (ey : Z) :
  ltb (S754_finite sx mx ex) (S754_finite sy my ey) = false ->
  leb (S754_finite sy my ey) (S754_finite sx mx ex) = true.
Proof.
  unfold ltb, leb, SFltb, SFleb.
  rewrite (SFcompare_antisym (S754_finite sx mx ex) (S754_finite sy my ey)).
  destruct (SFcompare (S754_finite sx mx ex) (S754_finite sy my ey)) as [[]|] eqn:Hc;
    simpl; try congruence.
  discriminate Hc.
Qed.

(** From the least number for [100] on, the product with [1001] is at
    least [1000]. *)
Lemma mul_1001_at_least_1000 (mu : positive) (eu : Z) :
  bounded prec emax mu eu = true ->
  ltb (S754_finite false mu eu) (of_Z 1) = true ->
  leb least_for_100 (S754_finite false mu eu) = true ->
  leb (of_Z 1000) (mul (S754_finite false mu eu) (of_Z 1001)) = true.
Proof.
  intros Hb Hlt Hge.
  destruct (bounded_canonical mu eu Hb) as [Hc _].
  destruct (canonical_bounds mu eu Hc) as (E & Hhi & Hlo).
  destruct (mul_1001_round mu eu Hb Hlt) as (Heu & _ & Hlow & _).
  rewrite least_for_100_eq in Hge. unfold leb, SFleb in Hge.
  rewrite compare_canonical in Hge; [| reflexivity | exact Hc].
  assert (Hval : Zval 8998201053687305 (-53) <= Zval (Zpos mu) eu).
  { destruct (Z.compare_spec (Zval 8998201053687305 (-53)) (Zval (Zpos mu) eu));
      try discriminate; lia. }
  clear Hge.
  assert (He : eu = -53).
  { destruct (Z.eq_dec eu (-53)) as [H | H]; [exact H|]. exfalso.
    assert (Hs : Zval 8998201053687305 (-53)
                 = Zval (8998201053687305 * 2 ^ (-53 - eu)) eu).
    { rewrite <- Zval_shift by lia. f_equal. lia. }
    rewrite Hs in Hval. unfold Zval in Hval.
    apply Z.mul_le_mono_pos_r in Hval; [|apply pow2_pos; lia].
    assert (2 ^ 1 <= 2 ^ (-53 - eu)) by (apply pow2_le; lia).
    change (2 ^ 1) with 2 in *. change (2 ^ 53) with 9007199254740992 in Hhi. nia. }
  subst eu. unfold Zval in Hval.
  apply Z.mul_le_mono_pos_r in Hval; [|apply pow2_pos; lia].
  rewrite of_Z_1000. apply Hlow; [reflexivity|].
  assert (Hs : Zval 8796093022208000 (-43)
               = Zval (8796093022208000 * 2 ^ 53) (-53 + -43)).
  { rewrite <- Zval_shift by lia. reflexivity. }
  rewrite Hs. unfold Zval.
  apply Z.mul_le_mono_nonneg_r; [apply Z.lt_le_incl, pow2_pos; lia|].
  unfold m1001. change (2 ^ 53) with 9007199254740992. lia.
Qed.

(** Below the number just under the least one for [100], the product
    with [1001] is below [1000]. *)
Lemma mul_1001_below_1000 (mu : positive) (eu : Z) :
  bounded prec emax mu eu = true ->
  ltb (S754_finite false mu eu) (of_Z 1) = true ->
  ltb (S754_finite false mu eu) least_for_100 = true ->
  S754_finite false mu eu <> below_least_for_100 ->
  nonneg_valid (mul (S754_finite false mu eu) (of_Z 1001))
  /\ leb (mul (S754_finite false mu eu) (of_Z 1001)) below_1000 = true.
Proof.
  intros Hb Hlt Hbelow Hne.
  destruct (bounded_canonical mu eu Hb) as [Hc _].
  destruct (canonical_bounds mu eu Hc) as (E & Hhi & Hlo).
  destruct (mul_1001_round mu eu Hb Hlt) as (Heu & Hv & _ & Hup).
  split; [exact Hv|].
  rewrite least_for_100_eq in Hbelow. unfold ltb, SFltb in Hbelow.
  rewrite compare_canonical in Hbelow; [| exact Hc | reflexivity].
  assert (Hval : Zval (Zpos mu) eu < Zval 8998201053687305 (-53)).
  { destruct (Z.compare_spec (Zval (Zpos mu) eu) (Zval 8998201053687305 (-53)));
      try discriminate; lia. }
  clear Hbelow.
  apply Hup; [reflexivity|].
  assert (Hs : Zval (Zpos 8796093022207999) (-43)
               = Zval (Zpos 8796093022207999 * 2 ^ (- eu)) (eu + -43)).
  { rewrite <- Zval_shift by lia. f_equal. lia. }
  rewrite Hs. unfold Zval.
  apply Z.mul_le_mono_nonneg_r; [apply Z.lt_le_incl, pow2_pos; lia|].
  unfold m1001. change (2 ^ 53) with 9007199254740992 in Hhi.
  destruct (Z.eq_dec eu (-53)) as [-> | Hne53].
  - change (2 ^ (- -53)) with 9007199254740992.
    unfold Zval in Hval. apply Z.mul_lt_mono_pos_r in Hval; [|apply pow2_pos; lia].
    assert (Zpos mu <> 8998201053687304).
    { intros Heq. apply Hne. unfold below_least_for_100. f_equal. lia. }
    lia.
  - assert (2 ^ 54 <= 2 ^ (- eu)) by (apply pow2_le; lia).
    change (2 ^ 54) with 18014398509481984 in H. nia.
Qed.

Lemma spec_float_eq_dec_below_least (m : positive) (e : Z) :
  {S754_finite false m e = below_least_for_100}
  + {S754_finite false m e <> below_least_for_100}.
Proof.
  unfold below_least_for_100.
  destruct (Pos.eq_dec m 8998201053687304) as [-> | Hm];
    [destruct (Z.eq_dec e (-53)) as [-> | He]|].
  - left. reflexivity.
  - right. intros H. injection H as H. contradiction.
  - right. intros H. injection H as H _. contradiction.
Qed.

(** The draw for the number just below the least one for [100]. *)
Lemma floor_mul_below_least : floor (mul below_least_for_100 (of_Z 1001)) = of_Z 999.
Proof. vm_compute. reflexivity. Qed.

(** [Math.floor] of a number from [1000] to below [1001] is [1000], and
    of a non-negative number below [1000] an integer up to [999]. *)
Lemma floor_at_least_1000 (p : num) :
  nonneg_valid p -> leb (of_Z 1000) p = true -> leb p below_1001 = true ->
  add (floor p) (of_Z 0) = add (of_Z 1000) (of_Z 0).
Proof.
  intros Hv Hge Hle. rewrite of_Z_1000 in Hge.
  destruct p as [s|s| |s m e]; simpl in Hv.
  - destruct s; discriminate Hge.
  - subst s. discriminate Hle.
  - contradiction.
  - destruct Hv as [-> Hb].
    destruct (bounded_canonical m e Hb) as [Hc _].
    destruct (canonical_bounds m e Hc) as (E & Hhi & Hlo).
    unfold leb, SFleb, below_1001 in Hle, Hge.
    rewrite compare_canonical in Hle; [| exact Hc | reflexivity].
    rewrite compare_canonical in Hge; [| reflexivity | exact Hc].
    assert (Hup : Zval (Zpos m) e <= Zval 8804889115230207 (-43)).
    { destruct (Z.compare_spec (Zval (Zpos m) e) (Zval 8804889115230207 (-43)));
        try discriminate; lia. }
    assert (Hlow : Zval 8796093022208000 (-43) <= Zval (Zpos m) e).
    { destruct (Z.compare_spec (Zval 8796093022208000 (-43)) (Zval (Zpos m) e));
        try discriminate; lia. }
    clear Hle Hge.
    assert (Hlt : Zval (Zpos m) e < Zval 1001 0).
    { assert (Zval 8804889115230207 (-43) < Zval 1001 0); [|lia].
      assert (Hs : Zval 1001 0 = Zval (1001 * 2 ^ 43) (-43)).
      { rewrite <- Zval_shift by lia. reflexivity. }
      rewrite Hs. unfold Zval. apply Z.mul_lt_mono_pos_r; [apply pow2_pos; lia|].
      reflexivity. }
    assert (Hge : Zval 1000 0 <= Zval (Zpos m) e).
    { assert (Hs : Zval 1000 0 = Zval 8796093022208000 (-43)) by reflexivity.
      rewrite Hs. exact Hlow. }
    assert (He : e < 0).
    { destruct (Z.le_gt_cases 0 e) as [H | H]; [|exact H]. exfalso.
      assert (Hs : Zval (Zpos m) e = Zval (Zpos m * 2 ^ e) 0).
      { rewrite <- Zval_shift by lia. reflexivity. }
      rewrite Hs in Hlt. unfold Zval in Hlt.
      apply Z.mul_lt_mono_pos_r in Hlt; [|apply pow2_pos; lia].
      assert (0 < 2 ^ e) by (apply pow2_pos; lia).
      specialize (Hlo ltac:(lia)). change (2 ^ 52) with 4503599627370496 in Hlo. nia. }
    assert (Hp : 0 < 2 ^ (- e)) by (apply pow2_pos; lia).
    assert (Hs1 : Zval 1001 0 = Zval (1001 * 2 ^ (- e)) e).
    { rewrite <- Zval_shift by lia. f_equal. lia. }
    assert (Hs0 : Zval 1000 0 = Zval (1000 * 2 ^ (- e)) e).
    { rewrite <- Zval_shift by lia. f_equal. lia. }
    rewrite Hs1 in Hlt. rewrite Hs0 in Hge. unfold Zval in Hlt, Hge.
    apply Z.mul_lt_mono_pos_r in Hlt; [|apply pow2_pos; lia].
    apply Z.mul_le_mono_pos_r in Hge; [|apply pow2_pos; lia].
    assert (Hk : Zpos m / 2 ^ (- e) = 1000).
    { symmetry. apply (Z.div_unique_pos _ _ _ (Zpos m - 1000 * 2 ^ (- e))); lia. }
    unfold floor. destruct (Z.leb_spec 0 e); [lia|].
    simpl cond_Zopp. rewrite Hk. reflexivity.
Qed.

Lemma floor_below_1000 (p : num) :
  nonneg_valid p -> leb p below_1000 = true ->
  exists k, 0 <= k <= 999 /\ add (floor p) (of_Z 0) = add (of_Z k) (of_Z 0).
Proof.
  intros Hv Hle. destruct p as [s|s| |s m e]; simpl in Hv.
  - exists 0. split; [lia|]. destruct s; reflexivity.
  - subst s. discriminate Hle.
  - contradiction.
  - destruct Hv as [-> Hb].
    destruct (bounded_canonical m e Hb) as [Hc _].
    destruct (canonical_bounds m e Hc) as (E & Hhi & Hlo).
    unfold leb, SFleb, below_1000 in Hle.
    rewrite compare_canonical in Hle; [| exact Hc | reflexivity].
    assert (Hval : Zval (Zpos m) e <= Zval 8796093022207999 (-43)).
    { destruct (Z.compare_spec (Zval (Zpos m) e) (Zval 8796093022207999 (-43)));
        try discriminate; lia. }
    clear Hle.
    assert (Hlt : Zval (Zpos m) e < Zval 1000 0).
    { assert (Zval 8796093022207999 (-43) < Zval 1000 0); [|lia].
      assert (Hs : Zval 1000 0 = Zval (1000 * 2 ^ 43) (-43)).
      { rewrite <- Zval_shift by lia. reflexivity. }
      rewrite Hs. unfold Zval. apply Z.mul_lt_mono_pos_r; [apply pow2_pos; lia|].
      reflexivity. }
    assert (He : e < 0).
    { destruct (Z.le_gt_cases 0 e) as [H | H]; [|exact H]. exfalso.
      assert (Hs : Zval (Zpos m) e = Zval (Zpos m * 2 ^ e) 0).
      { rewrite <- Zval_shift by lia. reflexivity. }
      rewrite Hs in Hlt. unfold Zval in Hlt.
      apply Z.mul_lt_mono_pos_r in Hlt; [|apply pow2_pos; lia].
      assert (0 < 2 ^ e) by (apply pow2_pos; lia).
      specialize (Hlo ltac:(lia)). change (2 ^ 52) with 4503599627370496 in Hlo. nia. }
    exists (Zpos m / 2 ^ (- e)).
    assert (Hp : 0 < 2 ^ (- e)) by (apply pow2_pos; lia).
    split.
    + split; [apply Z.div_pos; lia|].
      assert (Zpos m / 2 ^ (- e) < 1000); [|lia].
      apply Z.div_lt_upper_bound; [exact Hp|].
      assert (Hs : Zval 1000 0 = Zval (1000 * 2 ^ (- e)) e).
      { rewrite <- Zval_shift by lia. f_equal. lia. }
      rewrite Hs in Hlt. unfold Zval in Hlt.
      apply Z.mul_lt_mono_pos_r in Hlt; [|apply pow2_pos; lia]. lia.
    + unfold floor. destruct (Z.leb_spec 0 e); [lia|]. reflexivity.
Qed.

Lemma tenths_below_100_table : forallb tenth_below_100 (seq 0 1000) = true.
Proof. vm_compute. reflexivity. Qed.

Lemma tenth_below_100_of (k : Z) :
  0 <= k < 1000 -> ltb (div (of_Z k) (of_Z 10)) (of_Z 100) = true.
Proof.
  intros Hk.
  pose proof (proj1 (forallb_forall tenth_below_100 (seq 0 1000)) tenths_below_100_table
                (Z.to_nat k)) as H.
  assert (Hin : In (Z.to_nat k) (seq 0 1000)) by (apply in_seq; lia).
  specialize (H Hin). unfold tenth_below_100, of_nat in H.
  rewrite Z2Nat.id in H by lia. exact H.
Qed.

Lemma tenth_of_1000 : div (of_Z 1000) (of_Z 10) = of_Z 100.
Proof. vm_compute. reflexivity. Qed.

(** The integer [k] that the draw makes of the result of the random
    source: [1000] from the least number for [100] on, less below it. *)
Lemma draw_integer (random : num) :
  valid_binary prec emax random = true ->
  leb (of_Z 0) random = true ->
  ltb random (of_Z 1) = true ->
  exists k,
    0 <= k <= 1000
    /\ add (floor (mul random (of_Z 1001))) (of_Z 0) = add (of_Z k) (of_Z 0)
    /\ (k = 1000 <-> leb least_for_100 random = true).
Proof.
  intros Hv H0 H1.
  destruct random as [s|s| |s m e].
  - exists 0. split; [lia|]. split; [destruct s; vm_compute; reflexivity|].
    split; [lia | destruct s; discriminate].
  - destruct s; discriminate.
  - discriminate.
  - destruct s; [discriminate H0|]. simpl in Hv.
    destruct (ltb (S754_finite false m e) least_for_100) eqn:Hcmp.
    + (* below the least number for 100 *)
      assert (Hnot : leb least_for_100 (S754_finite false m e) = false)
        by (apply ltb_not_leb, Hcmp).
      assert (Hk : exists k, 0 <= k <= 999
                   /\ add (floor (mul (S754_finite false m e) (of_Z 1001))) (of_Z 0)
                      = add (of_Z k) (of_Z 0)).
      { destruct (spec_float_eq_dec_below_least m e) as [Heq | Hne].
        - injection Heq as -> ->. fold below_least_for_100.
          rewrite floor_mul_below_least. exists 999. split; [lia | reflexivity].
        - destruct (mul_1001_below_1000 m e Hv H1 Hcmp Hne) as [Hnv Hle].
          apply (floor_below_1000 _ Hnv Hle). }
      destruct Hk as (k & Hk & Heq). exists k. split; [lia|]. split; [exact Heq|].
      rewrite Hnot. split; [lia | discriminate].
    + (* from the least number for 100 on *)
      assert (Hge : leb least_for_100 (S754_finite false m e) = true).
      { rewrite least_for_100_eq in Hcmp |- *. apply not_ltb_leb_finite, Hcmp. }
      exists 1000. split; [lia|]. split; [|split; [intros _; exact Hge | reflexivity]].
      destruct (spec_float_eq_dec_below_1 m e) as [Heq | Hne].
      * injection Heq as -> ->. fold below_1. rewrite floor_mul_below_1. reflexivity.
      * destruct (mul_1001_below m e Hv H1 Hne) as [Hnv Hle].
        apply (floor_at_least_1000 _ Hnv (mul_1001_at_least_1000 m e Hv H1 Hge) Hle).
Qed.

(** C3, amended: for every output of the random source, a binary64 number
    of [[0, 1)], the draw [floatBetween(0, 100)] of [execProb] is the
    binary64 quotient [k / 10] of an integer [k] from [0] to [1000]: it has
    one decimal and lies in the closed interval [[0, 100]]; it is [100]
    exactly when the output is at least the binary64 number nearest to
    [1000/1001], and it is below [100] for every smaller output. *)
Theorem floatBetween_0_100_range (random : num) :
  valid_binary prec emax random = true ->
  leb (of_Z 0) random = true ->
  ltb random (of_Z 1) = true ->
  exists k : Z,
    0 <= k <= 1000
    /\ Random.floatBetween random (of_Z 0) (of_Z 100) 1 = Normal (div (of_Z k) (of_Z 10))
    /\ leb (of_Z 0) (div (of_Z k) (of_Z 10)) = true
    /\ leb (div (of_Z k) (of_Z 10)) (of_Z 100) = true
    /\ (k = 1000 <-> leb least_for_100 random = true)
    /\ (k = 1000 -> div (of_Z k) (of_Z 10) = of_Z 100)
    /\ (k < 1000 -> ltb (div (of_Z k) (of_Z 10)) (of_Z 100) = true).
Proof.
  intros Hv H0 H1. rewrite floatBetween_0_100.
  destruct (draw_integer random Hv H0 H1) as (k & Hk & Heq & Hiff).
  exists k. rewrite Heq.
  destruct (tenth_of k Hk) as (Ht & Hlo & Hhi). rewrite Ht.
  split; [exact Hk|]. split; [reflexivity|]. split; [exact Hlo|]. split; [exact Hhi|].
  split; [exact Hiff|]. split.
  - intros ->. apply tenth_of_1000.
  - intros Hlt. apply tenth_below_100_of. lia.
Qed.

Lemma floatBetween_0_100_range_witness :
  exists k : Z,
    0 <= k <= 1000
    /\ Random.floatBetween (of_ratio 1 3) (of_Z 0) (of_Z 100) 1
       = Normal (div (of_Z k) (of_Z 10))
    /\ leb (of_Z 0) (div (of_Z k) (of_Z 10)) = true
    /\ leb (div (of_Z k) (of_Z 10)) (of_Z 100) = true
    /\ (k = 1000 <-> leb least_for_100 (of_ratio 1 3) = true)
    /\ (k = 1000 -> div (of_Z k) (of_Z 10) = of_Z 100)
    /\ (k < 1000 -> ltb (div (of_Z k) (of_Z 10)) (of_Z 100) = true).
Proof.
  apply (floatBetween_0_100_range (of_ratio 1 3)); vm_compute; reflexivity.
Defined.

End Draw.

(** * Properties of the utilities *)

(** ** Numbers that are integers *)

Section Integers.

(** Two canonical positive numbers of the same value are the same. *)
Lemma canonical_eq (m1 : positive) (e1 : Z) (m2 : positive) (e2 : Z) :
  canonical_mantissa prec emax m1 e1 = true ->
  canonical_mantissa prec emax m2 e2 = true ->
  Zval (Zpos m1) e1 = Zval (Zpos m2) e2 ->
  m1 = m2 /\ e1 = e2.
Proof.
  intros C1 C2 Hval.
  pose proof (compare_canonical m1 e1 m2 e2 C1 C2) as Hcmp.
  rewrite Hval, Z.compare_refl in Hcmp. unfold SFcompare in Hcmp.
  destruct (Z.compare_spec e1 e2) as [He | He | He]; try discriminate.
  split; [|exact He].
  injection Hcmp as Hcmp. apply Pos.compare_eq. exact Hcmp.
Qed.

(** A mantissa whose exact value is that of a canonical number in range
    rounds to this number. *)
Lemma binary_round_exact (mx : positive) (ex : Z) (m0 : positive) (e0 : Z) :
  -1200 <= ex ->
  bounded prec emax m0 e0 = true ->
  Zval (Zpos mx) ex = Zval (Zpos m0) e0 ->
  binary_round prec emax false mx ex = S754_finite false m0 e0.
Proof.
  intros Hex Hb Hval.
  destruct (bounded_canonical m0 e0 Hb) as [Hc _].
  destruct (binary_round_monotone mx ex Hex) as (Hv & Hge & Hle).
  specialize (Hge m0 e0 Hc ltac:(lia)). specialize (Hle m0 e0 Hb ltac:(lia)).
  destruct (binary_round prec emax false mx ex) as [s|s| |s m e]; simpl in Hv.
  - discriminate Hge.
  - subst s. discriminate Hle.
  - contradiction.
  - destruct Hv as [-> Hb'].
    destruct (bounded_canonical m e Hb') as [Hc' _].
    unfold leb, SFleb in Hge, Hle.
    rewrite compare_canonical in Hge, Hle by assumption.
    assert (Heq : Zval (Zpos m) e = Zval (Zpos m0) e0).
    { destruct (Z.compare_spec (Zval (Zpos m0) e0) (Zval (Zpos m) e));
        destruct (Z.compare_spec (Zval (Zpos m) e) (Zval (Zpos m0) e0));
        try discriminate; lia. }
    destruct (canonical_eq m e m0 e0 Hc' Hc Heq) as [-> ->]. reflexivity.
Qed.

(** Rounding is symmetric in the sign. *)
Lemma binary_round_opp (mx : positive) (ex : Z) :
  binary_round prec emax true mx ex = SFopp (binary_round prec emax false mx ex).
Proof.
  unfold binary_round.
  destruct (shl_align mx ex (fexp prec emax (Zpos (digits2_pos mx) + ex))) as [mz ez].
  unfold binary_round_aux.
  destruct (shr_fexp prec emax (Zpos mz) ez loc_Exact) as [mrs e'].
  destruct (shr_fexp prec emax (round_nearest_even (shr_m mrs) (loc_of_shr_record mrs)) e'
              loc_Exact) as [mrs' e''].
  destruct (shr_m mrs'); [reflexivity | | reflexivity].
  destruct (e'' <=? emax - prec); reflexivity.
Qed.

(** A positive integer below [2^53] is a binary64 number: [of_Z] gives the
    canonical number of that value, with an exponent from [-52] to [0]. *)
Lemma of_Z_pos_exact (k : Z) :
  0 < k < 2 ^ 53 ->
  exists m e,
    of_Z k = S754_finite false m e
    /\ bounded prec emax m e = true
    /\ -52 <= e <= 0
    /\ Zpos m = k * 2 ^ (- e).
Proof.
  intros [Hlo Hhi]. destruct k as [|p|p]; try lia.
  pose proof (digits2_bounds p) as [Blo Bhi].
  set (d := Zpos (digits2_pos p)) in *.
  assert (Hd : 1 <= d <= 53).
  { split; [unfold d; lia|].
    destruct (Z.le_gt_cases d 53) as [H | H]; [exact H|].
    assert (2 ^ 53 <= 2 ^ (d - 1)) by (apply pow2_le; lia). lia. }
  assert (Hp : 0 < 2 ^ (53 - d)) by (apply pow2_pos; lia).
  assert (Hm0 : 0 < Zpos p * 2 ^ (53 - d)) by lia.
  set (m0 := Z.to_pos (Zpos p * 2 ^ (53 - d))).
  assert (Hid : Zpos m0 = Zpos p * 2 ^ (53 - d)) by (unfold m0; rewrite Z2Pos.id; lia).
  assert (Hrange : 2 ^ 52 <= Zpos m0 < 2 ^ 53).
  { rewrite Hid.
    assert (H52 : 2 ^ 52 = 2 ^ (d - 1) * 2 ^ (53 - d)).
    { rewrite <- pow2_add by lia. f_equal. lia. }
    assert (H53 : 2 ^ 53 = 2 ^ d * 2 ^ (53 - d)).
    { rewrite <- pow2_add by lia. f_equal. lia. }
    rewrite H52, H53. nia. }
  assert (Hc : canonical_mantissa prec emax m0 (d - 53) = true).
  { apply canonical_of_bounds; lia. }
  assert (Hb : bounded prec emax m0 (d - 53) = true).
  { unfold bounded. rewrite Hc. apply Z.leb_le. change (emax - prec) with 971. lia. }
  exists m0, (d - 53). split; [|split; [exact Hb | split; [lia|]]].
  - unfold of_Z. simpl binary_normalize.
    apply binary_round_exact; [lia | exact Hb|].
    rewrite Hid.
    assert (Hs : Zval (Zpos p) 0 = Zval (Zpos p * 2 ^ (53 - d)) (d - 53)).
    { rewrite <- Zval_shift by lia. f_equal. lia. }
    exact Hs.
  - rewrite Hid. f_equal. f_equal. lia.
Qed.

Lemma of_Z_0 : of_Z 0 = S754_zero false.
Proof. reflexivity. Qed.

(** The value of the number of an integer. *)
Lemma of_Z_pos_value (k : Z) (m : positive) (e : Z) :
  -52 <= e <= 0 -> Zpos m = k * 2 ^ (- e) -> Zval (Zpos m) e = Zval k 0.
Proof.
  intros He Hm. rewrite Hm.
  assert (Hs : Zval k 0 = Zval (k * 2 ^ (- e)) e).
  { rewrite <- Zval_shift by lia. f_equal. lia. }
  symmetry. exact Hs.
Qed.

(** Integers below [2^53] compare as their numbers do. *)
Lemma of_Z_compare (a b : Z) :
  0 <= a < 2 ^ 53 -> 0 <= b < 2 ^ 53 ->
  SFcompare (of_Z a) (of_Z b) = Some (a ?= b).
Proof.
  intros Ha Hb.
  assert (Hval : forall k, Zval k 0 = k * 2 ^ 1200) by reflexivity.
  destruct (Z.eq_dec a 0) as [-> | Ha0]; destruct (Z.eq_dec b 0) as [-> | Hb0].
  - reflexivity.
  - destruct (of_Z_pos_exact b ltac:(lia)) as (m & e & -> & _).
    rewrite of_Z_0. destruct b; try lia. reflexivity.
  - destruct (of_Z_pos_exact a ltac:(lia)) as (m & e & -> & _).
    rewrite of_Z_0. destruct a; try lia. reflexivity.
  - destruct (of_Z_pos_exact a ltac:(lia)) as (ma & ea & -> & Hba & Hea & Hma).
    destruct (of_Z_pos_exact b ltac:(lia)) as (mb & eb & -> & Hbb & Heb & Hmb).
    rewrite compare_canonical by (apply bounded_canonical; assumption).
    rewrite (of_Z_pos_value a ma ea Hea Hma), (of_Z_pos_value b mb eb Heb Hmb).
    rewrite !Hval. f_equal.
    symmetry. apply Zmult_compare_compat_r. apply Z.lt_gt, pow2_pos. lia.
Qed.

Lemma of_Z_ltb (a b : Z) :
  0 <= a < 2 ^ 53 -> 0 <= b < 2 ^ 53 -> ltb (of_Z a) (of_Z b) = (a <? b).
Proof.
  intros Ha Hb. unfold ltb, SFltb. rewrite (of_Z_compare a b Ha Hb).
  unfold Z.ltb. destruct (a ?= b); reflexivity.
Qed.

Lemma of_Z_leb (a b : Z) :
  0 <= a < 2 ^ 53 -> 0 <= b < 2 ^ 53 -> leb (of_Z a) (of_Z b) = (a <=? b).
Proof.
  intros Ha Hb. unfold leb, SFleb. rewrite (of_Z_compare a b Ha Hb).
  unfold Z.leb. destruct (a ?= b); reflexivity.
Qed.

Lemma of_Z_eqb (a b : Z) :
  0 <= a < 2 ^ 53 -> 0 <= b < 2 ^ 53 -> eqb (of_Z a) (of_Z b) = (a =? b).
Proof.
  intros Ha Hb. unfold eqb, SFeqb. rewrite (of_Z_compare a b Ha Hb).
  unfold Z.eqb. destruct (Z.compare_spec a b) as [-> | H | H].
  - destruct b; try reflexivity; simpl; rewrite Pos.eqb_refl; reflexivity.
  - destruct a, b; try reflexivity; try lia; simpl;
      destruct (Pos.eqb_spec p p0); try reflexivity; subst; lia.
  - destruct a, b; try reflexivity; try lia; simpl;
      destruct (Pos.eqb_spec p p0); try reflexivity; subst; lia.
Qed.

(** A length, however large, is below a small bound exactly when the
    integer is. *)
Lemma of_nat_ltb (n : nat) (c : Z) :
  0 < c < 2 ^ 53 -> ltb (of_nat n) (of_Z c) = (Z.of_nat n <? c).
Proof.
  intros Hc. unfold of_nat.
  destruct (Z.ltb_spec (Z.of_nat n) c) as [Hlt | Hge].
  - rewrite of_Z_ltb by lia. apply Z.ltb_lt. exact Hlt.
  - destruct (of_Z_pos_exact c Hc) as (m & e & Hof & Hb & He & Hm).
    change (ltb (of_Z (Z.of_nat n)) (of_Z c)) with (gtb (of_Z c) (of_Z (Z.of_nat n))).
    apply leb_not_gtb. rewrite Hof.
    destruct (Z.of_nat n) as [|p|p] eqn:Hn; try lia.
    unfold of_Z. simpl binary_normalize.
    destruct (binary_round_monotone p 0 ltac:(lia)) as (_ & Hmono & _).
    apply Hmono; [apply (bounded_canonical m e Hb)|].
    rewrite (of_Z_pos_value c m e He Hm). unfold Zval.
    apply Z.mul_le_mono_nonneg_r; [apply Z.lt_le_incl, pow2_pos; lia | lia].
Qed.

(** Sums of integers below [2^53] are exact. *)
Lemma add_of_Z (a b : Z) :
  0 <= a -> 0 <= b -> a + b < 2 ^ 53 -> add (of_Z a) (of_Z b) = of_Z (a + b).
Proof.
  intros Ha Hb Hsum.
  destruct (Z.eq_dec a 0) as [-> | Ha0].
  { rewrite Z.add_0_l. destruct (Z.eq_dec b 0) as [-> | Hb0]; [reflexivity|].
    destruct (of_Z_pos_exact b ltac:(lia)) as (m & e & -> & _). reflexivity. }
  destruct (Z.eq_dec b 0) as [-> | Hb0].
  { rewrite Z.add_0_r.
    destruct (of_Z_pos_exact a ltac:(lia)) as (m & e & -> & _). reflexivity. }
  destruct (of_Z_pos_exact a ltac:(lia)) as (ma & ea & -> & Hba & Hea & Hma).
  destruct (of_Z_pos_exact b ltac:(lia)) as (mb & eb & -> & Hbb & Heb & Hmb).
  destruct (of_Z_pos_exact (a + b) ltac:(lia)) as (ms & es & -> & Hbs & Hes & Hms).
  unfold add, SFadd. simpl cond_Zopp.
  pose proof (shl_align_spec ma ea (Z.min ea eb)) as Hax.
  pose proof (shl_align_spec mb eb (Z.min ea eb)) as Hay.
  destruct (shl_align ma ea (Z.min ea eb)) as [ma' ea'].
  destruct (shl_align mb eb (Z.min ea eb)) as [mb' eb'].
  destruct Hax as [_ Hma']. destruct Hay as [_ Hmb']. simpl fst.
  change (Zpos ma' + Zpos mb') with (Zpos (ma' + mb')). simpl binary_normalize.
  apply binary_round_exact; [lia | exact Hbs|].
  rewrite (of_Z_pos_value (a + b) ms es Hes Hms).
  rewrite Pos2Z.inj_add, Hma', Hmb'.
  replace (ea - Z.min ea (Z.min ea eb)) with (ea - Z.min ea eb) by lia.
  replace (eb - Z.min eb (Z.min ea eb)) with (eb - Z.min ea eb) by lia.
  set (e := Z.min ea eb).
  assert (Hxa : Zval (Zpos ma * 2 ^ (ea - e)) e = Zval a 0).
  { rewrite <- (of_Z_pos_value a ma ea Hea Hma).
    rewrite <- Zval_shift by lia. f_equal. lia. }
  assert (Hxb : Zval (Zpos mb * 2 ^ (eb - e)) e = Zval b 0).
  { rewrite <- (of_Z_pos_value b mb eb Heb Hmb).
    rewrite <- Zval_shift by lia. f_equal. lia. }
  unfold Zval in *. lia.
Qed.

(** Remainders of integers below [2^53] are exact. *)
Lemma remainder_of_Z (a b : Z) :
  0 <= a < 2 ^ 53 -> 0 < b < 2 ^ 53 ->
  remainder (of_Z a) (of_Z b) = of_Z (a mod b).
Proof.
  intros Ha Hb.
  destruct (of_Z_pos_exact b Hb) as (mb & eb & Hofb & Hbb & Heb & Hmb).
  destruct (Z.eq_dec a 0) as [-> | Ha0].
  { rewrite Z.mod_0_l by lia. rewrite Hofb. reflexivity. }
  destruct (of_Z_pos_exact a ltac:(lia)) as (ma & ea & -> & Hba & Hea & Hma).
  rewrite Hofb. cbv beta iota zeta delta [remainder cond_Zopp].
  set (e := Z.min ea eb).
  assert (Hp : 0 < 2 ^ (- e)) by (apply pow2_pos; lia).
  assert (HX : Zpos ma * 2 ^ (ea - e) = a * 2 ^ (- e)).
  { rewrite Hma. rewrite <- Z.mul_assoc. rewrite <- pow2_add by lia. f_equal. f_equal. lia. }
  assert (HY : Zpos mb * 2 ^ (eb - e) = b * 2 ^ (- e)).
  { rewrite Hmb. rewrite <- Z.mul_assoc. rewrite <- pow2_add by lia. f_equal. f_equal. lia. }
  rewrite HX, HY. rewrite Zmult_mod_distr_r.
  pose proof (Z.mod_pos_bound a b ltac:(lia)) as Hmod.
  destruct (Z.eq_dec (a mod b) 0) as [Hz | Hnz].
  { rewrite Hz. reflexivity. }
  destruct (of_Z_pos_exact (a mod b) ltac:(lia)) as (mr & er & -> & Hbr & Her & Hmr).
  destruct (a mod b * 2 ^ (- e)) as [|p|p] eqn:HR; try lia.
  simpl binary_normalize.
  apply binary_round_exact; [lia | exact Hbr|].
  rewrite (of_Z_pos_value (a mod b) mr er Her Hmr). rewrite <- HR.
  assert (Hs : Zval (a mod b) 0 = Zval (a mod b * 2 ^ (- e)) e).
  { rewrite <- Zval_shift by lia. f_equal. lia. }
  symmetry. exact Hs.
Qed.

Lemma of_Z_neg (p : positive) : of_Z (Zneg p) = SFopp (of_Z (Zpos p)).
Proof. unfold of_Z. simpl binary_normalize. apply binary_round_opp. Qed.

(** The remainder of a negative integer keeps its sign; an exact division
    leaves [-0]. *)
Lemma remainder_of_Z_neg (a b : Z) :
  0 < a < 2 ^ 53 -> 0 < b < 2 ^ 53 ->
  remainder (of_Z (- a)) (of_Z b)
  = if a mod b =? 0 then S754_zero true else SFopp (of_Z (a mod b)).
Proof.
  intros Ha Hb.
  destruct (of_Z_pos_exact b Hb) as (mb & eb & Hofb & Hbb & Heb & Hmb).
  destruct a as [|pa|pa]; try lia. change (- Zpos pa) with (Zneg pa).
  rewrite of_Z_neg.
  destruct (of_Z_pos_exact (Zpos pa) Ha) as (ma & ea & -> & Hba & Hea & Hma).
  rewrite Hofb. simpl SFopp. cbv beta iota zeta delta [remainder cond_Zopp].
  set (e := Z.min ea eb).
  assert (Hp : 0 < 2 ^ (- e)) by (apply pow2_pos; lia).
  assert (HX : Zpos ma * 2 ^ (ea - e) = Zpos pa * 2 ^ (- e)).
  { rewrite Hma. rewrite <- Z.mul_assoc. rewrite <- pow2_add by lia. f_equal. f_equal. lia. }
  assert (HY : Zpos mb * 2 ^ (eb - e) = b * 2 ^ (- e)).
  { rewrite Hmb. rewrite <- Z.mul_assoc. rewrite <- pow2_add by lia. f_equal. f_equal. lia. }
  rewrite HX, HY. rewrite Zmult_mod_distr_r.
  pose proof (Z.mod_pos_bound (Zpos pa) b ltac:(lia)) as Hmod.
  destruct (Z.eqb_spec (Zpos pa mod b) 0) as [Hz | Hnz].
  { rewrite Hz. reflexivity. }
  destruct (of_Z_pos_exact (Zpos pa mod b) ltac:(lia)) as (mr & er & -> & Hbr & Her & Hmr).
  destruct (Zpos pa mod b * 2 ^ (- e)) as [|p|p] eqn:HR; try lia.
  simpl Z.opp. simpl binary_normalize. rewrite binary_round_opp. f_equal.
  apply binary_round_exact; [lia | exact Hbr|].
  rewrite (of_Z_pos_value (Zpos pa mod b) mr er Her Hmr). rewrite <- HR.
  assert (Hs : Zval (Zpos pa mod b) 0 = Zval (Zpos pa mod b * 2 ^ (- e)) e).
  { rewrite <- Zval_shift by lia. f_equal. lia. }
  symmetry. exact Hs.
Qed.

End Integers.


(** ** Integers of either sign *)

Section SignedIntegers.

(** The number of a non-zero integer of magnitude below [2^53]. *)
Lemma of_Z_exact (k : Z) :
  k <> 0 -> - 2 ^ 53 < k < 2 ^ 53 ->
  exists m e,
    of_Z k = S754_finite (k <? 0) m e
    /\ bounded prec emax m e = true
    /\ -52 <= e <= 0
    /\ cond_Zopp (k <? 0) (Zpos m) = k * 2 ^ (- e).
Proof.
  intros Hnz Hk. destruct k as [|p|p]; [contradiction | |].
  - destruct (of_Z_pos_exact (Zpos p) ltac:(lia)) as (m & e & Hof & Hb & He & Hm).
    exists m, e. auto.
  - destruct (of_Z_pos_exact (Zpos p) ltac:(lia)) as (m & e & Hof & Hb & He & Hm).
    exists m, e. rewrite of_Z_neg, Hof. repeat split; try assumption; try lia.
    simpl cond_Zopp. change (Zneg p) with (- Zpos p). rewrite Z.mul_opp_l, <- Hm.
    reflexivity.
Qed.

(** Normalising an integer that is written at a lower exponent. *)
Lemma binary_normalize_integer (k e : Z) :
  -1200 <= e <= 0 -> - 2 ^ 53 < k < 2 ^ 53 ->
  binary_normalize prec emax (k * 2 ^ (- e)) e false = of_Z k.
Proof.
  intros He Hk.
  assert (Hp : 0 < 2 ^ (- e)) by (apply pow2_pos; lia).
  assert (Hexact : forall a q, 0 < a < 2 ^ 53 -> Zpos q = a * 2 ^ (- e) ->
            binary_round prec emax false q e = of_Z a).
  { intros a q Ha Hq.
    destruct (of_Z_pos_exact a Ha) as (m & ea & -> & Hb & Hea & Hm).
    apply binary_round_exact; [lia | exact Hb|].
    rewrite (of_Z_pos_value a m ea Hea Hm), Hq.
    assert (Hs : Zval a 0 = Zval (a * 2 ^ (- e)) e).
    { rewrite <- Zval_shift by lia. f_equal. lia. }
    symmetry. exact Hs. }
  destruct k as [|p|p].
  - reflexivity.
  - destruct (Zpos p * 2 ^ (- e)) as [|q|q] eqn:HR; try nia.
    simpl binary_normalize. apply Hexact; [lia | exact (eq_sym HR)].
  - destruct (Zneg p * 2 ^ (- e)) as [|q|q] eqn:HR; try nia.
    simpl binary_normalize. rewrite binary_round_opp, of_Z_neg. f_equal.
    apply Hexact; [lia|].
    change (Zneg q) with (- Zpos q) in HR. change (Zneg p) with (- Zpos p) in HR. nia.
Qed.

(** Sums and differences of integers are exact while they stay below
    [2^53] in magnitude. *)
Lemma add_of_Z_signed (a b : Z) :
  - 2 ^ 53 < a < 2 ^ 53 -> - 2 ^ 53 < b < 2 ^ 53 -> - 2 ^ 53 < a + b < 2 ^ 53 ->
  add (of_Z a) (of_Z b) = of_Z (a + b).
Proof.
  intros Ha Hb Hsum.
  destruct (Z.eq_dec a 0) as [-> | Ha0].
  { rewrite Z.add_0_l. destruct (Z.eq_dec b 0) as [-> | Hb0]; [reflexivity|].
    destruct (of_Z_exact b Hb0 Hb) as (m & e & -> & _). reflexivity. }
  destruct (Z.eq_dec b 0) as [-> | Hb0].
  { rewrite Z.add_0_r. destruct (of_Z_exact a Ha0 Ha) as (m & e & -> & _). reflexivity. }
  destruct (of_Z_exact a Ha0 Ha) as (ma & ea & -> & Hba & Hea & Hma).
  destruct (of_Z_exact b Hb0 Hb) as (mb & eb & -> & Hbb & Heb & Hmb).
  unfold add, SFadd.
  pose proof (shl_align_spec ma ea (Z.min ea eb)) as Hax.
  pose proof (shl_align_spec mb eb (Z.min ea eb)) as Hay.
  destruct (shl_align ma ea (Z.min ea eb)) as [ma' ea'].
  destruct (shl_align mb eb (Z.min ea eb)) as [mb' eb'].
  destruct Hax as [_ Hma']. destruct Hay as [_ Hmb']. cbn [fst].
  replace (ea - Z.min ea (Z.min ea eb)) with (ea - Z.min ea eb) in Hma' by lia.
  replace (eb - Z.min eb (Z.min ea eb)) with (eb - Z.min ea eb) in Hmb' by lia.
  set (e := Z.min ea eb) in *.
  assert (Hp : 0 < 2 ^ (- e)) by (apply pow2_pos; unfold e; lia).
  assert (Hpa : 2 ^ (- e) = 2 ^ (- ea) * 2 ^ (ea - e)).
  { rewrite <- pow2_add by (unfold e; lia). f_equal. lia. }
  assert (Hpb : 2 ^ (- e) = 2 ^ (- eb) * 2 ^ (eb - e)).
  { rewrite <- pow2_add by (unfold e; lia). f_equal. lia. }
  assert (HX : cond_Zopp (a <? 0) (Zpos ma') = a * 2 ^ (- e)).
  { rewrite Hpa, Z.mul_assoc, <- Hma, Hma'. destruct (a <? 0); unfold cond_Zopp; ring. }
  assert (HY : cond_Zopp (b <? 0) (Zpos mb') = b * 2 ^ (- e)).
  { rewrite Hpb, Z.mul_assoc, <- Hmb, Hmb'. destruct (b <? 0); unfold cond_Zopp; ring. }
  rewrite HX, HY, <- Z.mul_add_distr_r.
  apply binary_normalize_integer; [unfold e; lia | exact Hsum].
Qed.

Lemma sub_of_Z_signed (a b : Z) :
  - 2 ^ 53 < a < 2 ^ 53 -> - 2 ^ 53 < b < 2 ^ 53 -> - 2 ^ 53 < a - b < 2 ^ 53 ->
  sub (of_Z a) (of_Z b) = of_Z (a - b).
Proof.
  intros Ha Hb Hdiff.
  destruct (Z.eq_dec b 0) as [-> | Hb0].
  { rewrite Z.sub_0_r. destruct (Z.eq_dec a 0) as [-> | Ha0]; [reflexivity|].
    destruct (of_Z_exact a Ha0 Ha) as (m & e & -> & _). reflexivity. }
  destruct (Z.eq_dec a 0) as [-> | Ha0].
  { rewrite Z.sub_0_l.
    destruct b as [|p|p]; [contradiction | |];
      destruct (of_Z_pos_exact (Zpos p) ltac:(lia)) as (m & e & Hof & _).
    - change (- Zpos p) with (Zneg p). rewrite of_Z_neg, Hof. reflexivity.
    - change (- Zneg p) with (Zpos p). rewrite of_Z_neg, Hof. reflexivity. }
  destruct (of_Z_exact a Ha0 Ha) as (ma & ea & -> & Hba & Hea & Hma).
  destruct (of_Z_exact b Hb0 Hb) as (mb & eb & -> & Hbb & Heb & Hmb).
  unfold sub, SFsub.
  pose proof (shl_align_spec ma ea (Z.min ea eb)) as Hax.
  pose proof (shl_align_spec mb eb (Z.min ea eb)) as Hay.
  destruct (shl_align ma ea (Z.min ea eb)) as [ma' ea'].
  destruct (shl_align mb eb (Z.min ea eb)) as [mb' eb'].
  destruct Hax as [_ Hma']. destruct Hay as [_ Hmb']. cbn [fst].
  replace (ea - Z.min ea (Z.min ea eb)) with (ea - Z.min ea eb) in Hma' by lia.
  replace (eb - Z.min eb (Z.min ea eb)) with (eb - Z.min ea eb) in Hmb' by lia.
  set (e := Z.min ea eb) in *.
  assert (Hp : 0 < 2 ^ (- e)) by (apply pow2_pos; unfold e; lia).
  assert (Hpa : 2 ^ (- e) = 2 ^ (- ea) * 2 ^ (ea - e)).
  { rewrite <- pow2_add by (unfold e; lia). f_equal. lia. }
  assert (Hpb : 2 ^ (- e) = 2 ^ (- eb) * 2 ^ (eb - e)).
  { rewrite <- pow2_add by (unfold e; lia). f_equal. lia. }
  assert (HX : cond_Zopp (a <? 0) (Zpos ma') = a * 2 ^ (- e)).
  { rewrite Hpa, Z.mul_assoc, <- Hma, Hma'. destruct (a <? 0); unfold cond_Zopp; ring. }
  assert (HY : cond_Zopp (b <? 0) (Zpos mb') = b * 2 ^ (- e)).
  { rewrite Hpb, Z.mul_assoc, <- Hmb, Hmb'. destruct (b <? 0); unfold cond_Zopp; ring. }
  rewrite HX, HY, <- Z.mul_sub_distr_r.
  apply binary_normalize_integer; [unfold e; lia | exact Hdiff].
Qed.

(** Integers of magnitude below [2^53] compare as their numbers do. *)
Lemma of_Z_compare_signed (a b : Z) :
  - 2 ^ 53 < a < 2 ^ 53 -> - 2 ^ 53 < b < 2 ^ 53 ->
  SFcompare (of_Z a) (of_Z b) = Some (a ?= b).
Proof.
  intros Ha Hb.
  destruct (Z.le_gt_cases 0 a) as [Ha0 | Ha0]; destruct (Z.le_gt_cases 0 b) as [Hb0 | Hb0].
  - apply of_Z_compare; lia.
  - destruct (of_Z_exact b ltac:(lia) Hb) as (mb & eb & -> & _).
    replace (b <? 0) with true by (symmetry; apply Z.ltb_lt; lia).
    replace (a ?= b) with Gt by (symmetry; apply Z.compare_gt_iff; lia).
    destruct (Z.eq_dec a 0) as [-> | Hnz]; [reflexivity|].
    destruct (of_Z_exact a Hnz Ha) as (ma & ea & -> & _).
    replace (a <? 0) with false by (symmetry; apply Z.ltb_ge; lia). reflexivity.
  - destruct (of_Z_exact a ltac:(lia) Ha) as (ma & ea & -> & _).
    replace (a <? 0) with true by (symmetry; apply Z.ltb_lt; lia).
    replace (a ?= b) with Lt by (symmetry; apply Z.compare_lt_iff; lia).
    destruct (Z.eq_dec b 0) as [-> | Hnz]; [reflexivity|].
    destruct (of_Z_exact b Hnz Hb) as (mb & eb & -> & _).
    replace (b <? 0) with false by (symmetry; apply Z.ltb_ge; lia). reflexivity.
  - pose proof (of_Z_compare (- b) (- a) ltac:(lia) ltac:(lia)) as Hpos.
    destruct a as [|pa|pa]; try lia. destruct b as [|pb|pb]; try lia.
    rewrite !of_Z_neg. change (- Zneg pb) with (Zpos pb) in Hpos.
    change (- Zneg pa) with (Zpos pa) in Hpos.
    destruct (of_Z_pos_exact (Zpos pa) ltac:(lia)) as (ma & ea & Hofa & _).
    destruct (of_Z_pos_exact (Zpos pb) ltac:(lia)) as (mb & eb & Hofb & _).
    rewrite Hofa, Hofb in Hpos |- *. simpl SFopp.
    assert (Hflip : SFcompare (S754_finite true ma ea) (S754_finite true mb eb)
                    = SFcompare (S754_finite false mb eb) (S754_finite false ma ea)).
    { unfold SFcompare. f_equal.
      change (Pos.compare_cont Eq ma mb) with (Pos.compare ma mb).
      change (Pos.compare_cont Eq mb ma) with (Pos.compare mb ma).
      rewrite (Z.compare_antisym ea eb), (Pos.compare_antisym ma mb).
      destruct (ea ?= eb); simpl; try reflexivity. }
    rewrite Hflip, Hpos. f_equal.
    change (Zneg pa) with (- Zpos pa). change (Zneg pb) with (- Zpos pb).
    rewrite Z.compare_opp. reflexivity.
Qed.

Lemma of_Z_ltb_signed (a b : Z) :
  - 2 ^ 53 < a < 2 ^ 53 -> - 2 ^ 53 < b < 2 ^ 53 -> ltb (of_Z a) (of_Z b) = (a <? b).
Proof.
  intros Ha Hb. unfold ltb, SFltb. rewrite (of_Z_compare_signed a b Ha Hb).
  unfold Z.ltb. destruct (a ?= b); reflexivity.
Qed.

Lemma of_Z_eqb_signed (a b : Z) :
  - 2 ^ 53 < a < 2 ^ 53 -> - 2 ^ 53 < b < 2 ^ 53 -> eqb (of_Z a) (of_Z b) = (a =? b).
Proof.
  intros Ha Hb. unfold eqb, SFeqb. rewrite (of_Z_compare_signed a b Ha Hb).
  destruct (Z.compare_spec a b) as [-> | H | H].
  - symmetry. apply Z.eqb_refl.
  - symmetry. apply Z.eqb_neq. lia.
  - symmetry. apply Z.eqb_neq. lia.
Qed.

End SignedIntegers.


(** ** The length rules of the validators *)

Section LengthRules.

Lemma ltb_leb_trans (x y z : num) : ltb x y = true -> leb y z = true -> ltb x z = true.
Proof.
  unfold leb, ltb, SFleb, SFltb, SFcompare.
  destruct x as [sx|sx| |sx mx ex], y as [sy|sy| |sy my ey], z as [sz|sz| |sz mz ez];
    try discriminate; try reflexivity;
    try (destruct sx); try (destruct sy); try (destruct sz);
    try discriminate; try reflexivity; intros Hxy Hyz;
    repeat match goal with
           | H : context [Pos.compare_cont Eq ?a ?b] |- _ =>
               change (Pos.compare_cont Eq a b) with (Pos.compare a b) in H
           | |- context [Pos.compare_cont Eq ?a ?b] =>
               change (Pos.compare_cont Eq a b) with (Pos.compare a b)
           end;
    repeat match goal with
           | H : context [Z.compare ?a ?b] |- _ => destruct (Z.compare_spec a b); simpl in H
           | H : context [Pos.compare ?a ?b] |- _ => destruct (Pos.compare_spec a b); simpl in H
           | |- context [Z.compare ?a ?b] => destruct (Z.compare_spec a b); simpl
           | |- context [Pos.compare ?a ?b] => destruct (Pos.compare_spec a b); simpl
           end;
    try reflexivity; try discriminate; try lia.
Qed.

(** The number of an integer, however large, is not below the number of
    a smaller integer that is below [2^53]. *)
Lemma of_Z_leb_large (c n : Z) :
  0 < c < 2 ^ 53 -> c <= n -> leb (of_Z c) (of_Z n) = true.
Proof.
  intros Hc Hn.
  destruct (of_Z_pos_exact c Hc) as (m & e & Hof & Hb & He & Hm).
  rewrite Hof. destruct n as [|p|p]; try lia.
  unfold of_Z. simpl binary_normalize.
  destruct (binary_round_monotone p 0 ltac:(lia)) as (_ & Hmono & _).
  apply Hmono; [apply (bounded_canonical m e Hb)|].
  rewrite (of_Z_pos_value c m e He Hm). unfold Zval.
  apply Z.mul_le_mono_nonneg_r; [apply Z.lt_le_incl, pow2_pos; lia | lia].
Qed.

(** A length, however large, is above a small bound exactly when the
    integer is. *)
Lemma of_nat_gtb (n : nat) (c : Z) :
  0 < c < 2 ^ 53 - 1 -> gtb (of_nat n) (of_Z c) = (c <? Z.of_nat n).
Proof.
  intros Hc. unfold of_nat.
  change (gtb (of_Z (Z.of_nat n)) (of_Z c)) with (ltb (of_Z c) (of_Z (Z.of_nat n))).
  destruct (Z.ltb_spec c (Z.of_nat n)) as [Hlt | Hge].
  - apply (ltb_leb_trans _ (of_Z (c + 1))).
    + rewrite of_Z_ltb by lia. apply Z.ltb_lt. lia.
    + apply of_Z_leb_large; lia.
  - rewrite of_Z_ltb by lia. apply Z.ltb_ge. exact Hge.
Qed.

Lemma truthy_of_Z (c : Z) : 0 < c < 2 ^ 53 -> truthy (of_Z c) = true.
Proof.
  intros Hc. destruct (of_Z_pos_exact c Hc) as (m & e & -> & _). reflexivity.
Qed.

(** [VerifyThis.array] with a minimum [a] and a maximum [b] of elements,
    positive integers, and no rule on the types: the array is rejected
    as empty, as shorter than [a] or as longer than [b], in this order,
    and accepted otherwise; the lengths are compared as integers. *)
Theorem array_length_rules (elems : list value) (a b : Z) :
  0 < a < 2 ^ 53 -> 0 < b < 2 ^ 53 - 1 ->
  let length := Z.of_nat (List.length elems) in
  VerifyThis.array (VArray elems) (ArrayRules.mk false (Some (of_Z a)) (Some (of_Z b)) [])
  = if length <? 1 then Throw (mkError Error [Txt "Array is empty"])
    else if length <? a then
      Throw (mkError Error [Txt "Array has less than "; Num (of_Z a); Txt " elements"])
    else if b <? length then
      Throw (mkError Error [Txt "Array has more than "; Num (of_Z b); Txt " elements"])
    else Normal tt.
Proof.
  intros Ha Hb. cbv zeta. unfold VerifyThis.array. cbv beta iota zeta.
  unfold check_rule.
  rewrite (truthy_of_Z a Ha), (truthy_of_Z b ltac:(lia)).
  rewrite (of_nat_ltb _ a Ha), (of_nat_gtb _ b Hb).
  destruct (Z.of_nat (List.length elems) <? 1); [reflexivity|].
  destruct (Z.of_nat (List.length elems) <? a); [reflexivity|].
  destruct (b <? Z.of_nat (List.length elems)); reflexivity.
Qed.

Lemma array_length_rules_witness :
  VerifyThis.array (VArray [VNull; VNull; VNull])
    (ArrayRules.mk false (Some (of_Z 2)) (Some (of_Z 2)) [])
  = Throw (mkError Error [Txt "Array has more than "; Num (of_Z 2); Txt " elements"]).
Proof.
  apply (array_length_rules [VNull; VNull; VNull] 2 2); split; reflexivity.
Defined.

(** [VerifyThis.string] on a primitive string with a minimum [a] of
    characters, a positive integer, and no maximum: the string is
    rejected as empty (unless [canEmpty]), then as shorter than [a], and
    accepted otherwise. *)
Theorem string_minChars_rule
    (s : string) (canEmpty : bool) (a : Z) (alias : string) (allowedChars : list string) :
  0 < a < 2 ^ 53 ->
  VerifyThis.string (VStr s) (StringRules.mk canEmpty (Some (of_Z a)) None alias allowedChars)
  = if negb canEmpty && String.eqb s ""
    then Throw (mkError Error [Txt alias; Txt " is empty"])
    else if Z.of_nat (String.length s) <? a
    then Throw (mkError Error
                  [Txt alias; Txt " has less than "; Num (of_Z a); Txt " characters"])
    else Normal tt.
Proof.
  intros Ha. unfold VerifyThis.string. cbv beta iota zeta.
  unfold check_rule, rule_is.
  rewrite (truthy_of_Z a Ha), (of_nat_ltb _ a Ha).
  replace (match s with "" => true | String _ _ => false end) with (String.eqb s "")
    by (destruct s; reflexivity).
  destruct (negb canEmpty && String.eqb s ""); [reflexivity|].
  destruct (Z.of_nat (String.length s) <? a); reflexivity.
Qed.

Lemma string_minChars_rule_witness :
  VerifyThis.string (VStr "a") (StringRules.mk false (Some (of_Z 2)) None "Word" [])
  = Throw (mkError Error [Txt "Word"; Txt " has less than "; Num (of_Z 2); Txt " characters"]).
Proof.
  apply (string_minChars_rule "a" false 2 "Word" []). split; reflexivity.
Defined.

End LengthRules.


(** ** StringFun and VerifyThis.email *)

Section StringFunProperties.

(** A [String] object passes the default rules, the empty one included:
    an object is never falsy. *)
Lemma string_object_default (s : string) :
  VerifyThis.string (VStringObj s) StringRules.default = Normal tt.
Proof. reflexivity. Qed.

Lemma join_chars (l : list ascii) :
  join "" (map (fun c => String c EmptyString) l) = string_of_list_ascii l.
Proof.
  unfold join. induction l as [|c [|c' rest] IH].
  - reflexivity.
  - reflexivity.
  - change (map (fun c0 => String c0 "") (c :: c' :: rest))
      with (String c "" :: map (fun c0 => String c0 "") (c' :: rest)).
    change (map (fun c0 => String c0 "") (c' :: rest))
      with (String c' "" :: map (fun c0 => String c0 "") rest) in *.
    simpl concat at 1. simpl in IH. simpl. rewrite IH. reflexivity.
Qed.

Lemma length_string_of_list (l : list ascii) :
  String.length (string_of_list_ascii l) = List.length l.
Proof. induction l as [|c l IH]; simpl; [reflexivity | rewrite IH; reflexivity]. Qed.

Lemma length_list_of_string (s : string) :
  List.length (list_ascii_of_string s) = String.length s.
Proof. induction s as [|c s IH]; simpl; [reflexivity | rewrite IH; reflexivity]. Qed.

(** [reverse()] on any string. *)
Lemma reverse_eq (this : string) :
  StringFun.reverse this
  = Normal (VStr (string_of_list_ascii (rev (list_ascii_of_string this)))).
Proof.
  unfold StringFun.reverse. rewrite string_object_default. simpl.
  unfold split_chars. rewrite <- map_rev, join_chars. reflexivity.
Qed.

(** [reverse()] accepts every string, the empty one and those of one
    character included, since the misspelt rule [miChars] is read by
    nothing; it returns the characters in reverse order, so it keeps the
    length, and reversing its result gives the string back. *)
Theorem reverse_involutive (this : string) :
  exists r,
    StringFun.reverse this = Normal (VStr r)
    /\ list_ascii_of_string r = rev (list_ascii_of_string this)
    /\ String.length r = String.length this
    /\ StringFun.reverse r = Normal (VStr this).
Proof.
  exists (string_of_list_ascii (rev (list_ascii_of_string this))).
  split; [apply reverse_eq|]. split; [apply list_ascii_of_string_of_list_ascii|]. split.
  - rewrite length_string_of_list, length_rev. apply length_list_of_string.
  - rewrite reverse_eq.
    rewrite list_ascii_of_string_of_list_ascii, rev_involutive.
    rewrite string_of_list_ascii_of_string. reflexivity.
Qed.

(** [isPalindrome()] never answers [true]: a string of fewer than three
    characters is rejected, and for every other string, a palindrome or
    not, the comparison of the [String] object with the primitive string
    that [reverse] returns is [false]. *)
Theorem isPalindrome_never_true (this : string) :
  StringFun.isPalindrome this
  = if Z.of_nat (String.length this) <? 3
    then Throw (mkError Error
                  [Txt "String"; Txt " has less than "; Num (of_Z 3); Txt " characters"])
    else Normal (VBool false).
Proof.
  unfold StringFun.isPalindrome, VerifyThis.string.
  cbv beta iota zeta. unfold check_rule, rule_is.
  replace (truthy (of_Z 3)) with true by reflexivity.
  rewrite (of_nat_ltb (String.length this) 3) by lia.
  rewrite reverse_eq.
  destruct (Z.of_nat (String.length this) <? 3); reflexivity.
Qed.

(** [VerifyThis.email] accepts nothing: what the string check lets
    through, every non-empty primitive string among it, ends in the
    ReferenceError of the unbound name [email]. *)
Theorem email_never_accepts (str : value) :
  exists e,
    email str = Throw e
    /\ (forall s, str = VStr s -> s <> "" ->
        e = mkError ReferenceError [Txt "email is not defined"]).
Proof.
  unfold email.
  destruct (VerifyThis.string str StringRules.default) as [[]|e] eqn:Hs.
  - eexists. split; [reflexivity|]. intros; reflexivity.
  - exists e. split; [reflexivity|]. intros s -> Hne.
    destruct s; [contradiction | discriminate Hs].
Qed.

End StringFunProperties.


(** ** ArrayFun *)

Section ArrayFunProperties.

Lemma array_default (this : list value) :
  VerifyThis.array (VArray this) ArrayRules.default
  = match this with
    | [] => Throw (mkError Error [Txt "Array is empty"])
    | _ :: _ => Normal tt
    end.
Proof.
  destruct this as [|x rest]; [reflexivity|].
  unfold VerifyThis.array. cbv beta iota zeta.
  replace (Z.of_nat (List.length (x :: rest)) <? 1) with false.
  - reflexivity.
  - symmetry. apply Z.ltb_ge. simpl List.length. lia.
Qed.

Lemma nth_last_element {B : Type} (l : list B) (d : B) :
  nth (Nat.pred (List.length l)) l d = List.last l d.
Proof.
  induction l as [|x [|y rest] IH]; try reflexivity.
  exact IH.
Qed.

(** [last()] throws on an empty array and returns the last element of any
    other. *)
Theorem last_of_array (this : list value) :
  ArrayFun.last this
  = match this with
    | [] => Throw (mkError Error [Txt "Array is empty"])
    | _ :: _ => Normal (List.last this VUndefined)
    end.
Proof.
  unfold ArrayFun.last. rewrite array_default.
  destruct this as [|x rest]; [reflexivity|].
  cbv beta iota delta [bind]. unfold at_index.
  destruct (Z.ltb_spec (Z.of_nat (List.length (x :: rest)) - 1) 0) as [H | H].
  - simpl List.length in H. lia.
  - rewrite <- (nth_last_element (x :: rest) VUndefined).
    f_equal. f_equal. lia.
Qed.

Lemma splice_all (l : list value) : splice l 0 (Z.of_nat (List.length l)) = [].
Proof.
  unfold splice. cbv zeta.
  assert (Hlen : 0 <= Z.of_nat (List.length l)) by lia.
  replace (0 <? 0) with false by reflexivity.
  rewrite (Z.min_l 0) by lia. rewrite Z.max_l by lia.
  rewrite Z.min_l by lia.
  replace (Z.to_nat (0 + Z.of_nat (List.length l))) with (List.length l) by lia.
  rewrite skipn_all. reflexivity.
Qed.

(** [clean()] leaves no element in an array that had some, and throws on
    an array that is empty already. *)
Theorem clean_empties (this : list value) :
  ArrayFun.clean this
  = match this with
    | [] => Throw (mkError Error [Txt "Array is empty"])
    | _ :: _ => Normal []
    end.
Proof.
  unfold ArrayFun.clean. rewrite array_default, splice_all.
  destruct this; reflexivity.
Qed.

(** *** removeElement *)

(** The elements that [arrayOf: ["string", "number"]] accepts. *)
Lemma strings_and_numbers_pass (this : list value) :
  (forall x, In x this -> (exists s, x = VStr s) \/ (exists n, x = VNum n)) ->
  this <> [] ->
  VerifyThis.array (VArray this) (ArrayRules.mk false None None ["string"; "number"])
  = Normal tt.
Proof.
  intros Hall Hne. unfold VerifyThis.array. cbv beta iota zeta.
  destruct this as [|x rest]; [contradiction|].
  replace (negb false && (Z.of_nat (List.length (x :: rest)) <? 1)) with false.
  2:{ simpl negb. simpl andb. symmetry. apply Z.ltb_ge. simpl List.length. lia. }
  rewrite findIndex_none.
  - reflexivity.
  - intros y Hy. destruct (Hall y Hy) as [[s ->] | [n ->]]; reflexivity.
Qed.

Lemma num_eqb_refl (n : num) : n <> NaN -> eqb n n = true.
Proof.
  intros Hn. destruct n as [s|s| |s m e]; try reflexivity.
  - destruct s; reflexivity.
  - exfalso. apply Hn. reflexivity.
  - unfold eqb, SFeqb, SFcompare. rewrite Z.compare_refl.
    change (Pos.compare_cont Eq m m) with (Pos.compare m m).
    rewrite Pos.compare_refl. destruct s; reflexivity.
Qed.

Lemma splice_one (pre : list value) (x : value) (post : list value) :
  splice (pre ++ x :: post) (Z.of_nat (List.length pre)) 1 = pre ++ post.
Proof.
  unfold splice. cbv zeta. rewrite length_app. simpl List.length.
  destruct (Z.ltb_spec (Z.of_nat (List.length pre)) 0) as [H | _]; [lia|].
  rewrite Z.min_l by lia. rewrite (Z.max_l 1 0) by lia. rewrite Z.min_l by lia.
  rewrite Nat2Z.id.
  replace (Z.to_nat (Z.of_nat (List.length pre) + 1)) with (List.length pre + 1)%nat by lia.
  rewrite firstn_app, Nat.sub_diag, firstn_all. simpl firstn. rewrite app_nil_r.
  rewrite skipn_app, skipn_all2 by lia.
  replace (List.length pre + 1 - List.length pre)%nat with 1%nat by lia.
  reflexivity.
Qed.

Lemma splice_last (this : list value) :
  this <> [] -> splice this (-1) 1 = removelast this.
Proof.
  intros Hne. unfold splice. cbv zeta.
  assert (Hlen : 1 <= Z.of_nat (List.length this)).
  { destruct this; [contradiction | simpl List.length; lia]. }
  replace (-1 <? 0) with true by reflexivity.
  rewrite Z.max_l by lia. rewrite (Z.max_l 1 0) by lia. rewrite Z.min_l by lia.
  replace (Z.to_nat (Z.of_nat (List.length this) + -1 + 1)) with (List.length this) by lia.
  rewrite skipn_all, app_nil_r.
  replace (Z.to_nat (Z.of_nat (List.length this) + -1))
    with (Nat.pred (List.length this)) by lia.
  symmetry. apply removelast_firstn_len.
Qed.

(** [removeElement(el)], for a string or a number other than [NaN] that
    the array holds, removes its first occurrence and nothing else. *)
Theorem removeElement_first_occurrence
    (pre : list value) (el : value) (post : list value) :
  (forall x, In x (pre ++ el :: post) ->
             (exists s, x = VStr s) \/ (exists n, x = VNum n)) ->
  el <> VNum NaN ->
  (forall x, In x pre -> strict_equals x el = false) ->
  ArrayFun.removeElement (pre ++ el :: post) el = Normal (pre ++ post).
Proof.
  intros Hall Hel Hpre. unfold ArrayFun.removeElement.
  rewrite strings_and_numbers_pass; [|exact Hall | destruct pre; discriminate].
  assert (Hself : strict_equals el el = true).
  { destruct (Hall el ltac:(apply in_elt)) as [[s ->] | [n ->]]; simpl.
    - apply String.eqb_refl.
    - apply num_eqb_refl. intros ->. apply Hel. reflexivity. }
  assert (Hincl : includes (pre ++ el :: post) el = true).
  { unfold includes. apply existsb_exists. exists el. split; [apply in_elt|].
    destruct (Hall el ltac:(apply in_elt)) as [[s ->] | [n ->]]; simpl.
    - apply String.eqb_refl.
    - unfold sameValueZero. destruct n; try reflexivity; exact Hself. }
  rewrite Hincl. cbv beta iota delta [bind].
  unfold indexOf. rewrite findIndex_first by assumption.
  rewrite splice_one. reflexivity.
Qed.

Lemma removeElement_first_occurrence_witness :
  ArrayFun.removeElement
    ([VNum (of_Z 1); VStr "a"] ++ VNum (of_Z 2) :: [VNum (of_Z 2); VStr "b"])
    (VNum (of_Z 2))
  = Normal ([VNum (of_Z 1); VStr "a"] ++ [VNum (of_Z 2); VStr "b"]).
Proof.
  apply removeElement_first_occurrence.
  - intros x [<- | [<- | [<- | [<- | [<- | []]]]]]; eauto.
  - discriminate.
  - intros x [<- | [<- | []]]; reflexivity.
Defined.

(** [removeElement(NaN)] on an array that holds [NaN] removes the last
    element, whatever it is: [includes] finds [NaN], [indexOf] does not,
    and [splice(-1, 1)] counts from the end. *)
Theorem removeElement_NaN_removes_last (this : list value) :
  (forall x, In x this -> (exists s, x = VStr s) \/ (exists n, x = VNum n)) ->
  In (VNum NaN) this ->
  ArrayFun.removeElement this (VNum NaN) = Normal (removelast this).
Proof.
  intros Hall Hin. unfold ArrayFun.removeElement.
  assert (Hne : this <> []) by (intros ->; exact Hin).
  rewrite strings_and_numbers_pass by assumption.
  assert (Hincl : includes this (VNum NaN) = true).
  { unfold includes. apply existsb_exists. exists (VNum NaN). split; [exact Hin | reflexivity]. }
  rewrite Hincl. cbv beta iota delta [bind].
  unfold indexOf. rewrite findIndex_none.
  - rewrite splice_last by exact Hne. reflexivity.
  - intros y Hy. destruct (Hall y Hy) as [[s ->] | [n ->]]; simpl; [reflexivity|].
    unfold eqb, SFeqb. destruct n as [s|s| |s m e]; try reflexivity; destruct s; reflexivity.
Qed.

Lemma removeElement_NaN_removes_last_witness :
  ArrayFun.removeElement [VNum (of_Z 1); VNum NaN; VNum (of_Z 2)] (VNum NaN)
  = Normal (removelast [VNum (of_Z 1); VNum NaN; VNum (of_Z 2)]).
Proof.
  apply removeElement_NaN_removes_last.
  - intros x [<- | [<- | [<- | []]]]; eauto.
  - right. left. reflexivity.
Defined.

(** *** removeDuplicates *)

(** [removeDuplicates()] returns for no array: fewer than two elements
    are rejected, and every other array ends in the ReferenceError of the
    unbound name [arr]. *)
Theorem removeDuplicates_never_returns (this : list value) :
  exists e,
    ArrayFun.removeDuplicates this = Throw e
    /\ ((2 <= List.length this)%nat ->
        e = mkError ReferenceError [Txt "arr is not defined"]).
Proof.
  unfold ArrayFun.removeDuplicates.
  destruct (VerifyThis.array (VArray this) (ArrayRules.mk false (Some (of_Z 2)) None []))
    as [[]|e] eqn:Hv.
  - eexists. split; [reflexivity | intros; reflexivity].
  - exists e. split; [reflexivity|]. intros Hlen. exfalso.
    unfold VerifyThis.array in Hv. cbv beta iota zeta in Hv.
    replace (negb false && (Z.of_nat (List.length this) <? 1)) with false in Hv.
    2:{ simpl negb. simpl andb. symmetry. apply Z.ltb_ge. lia. }
    unfold check_rule in Hv.
    rewrite (of_nat_ltb (List.length this) 2) in Hv by lia.
    replace (Z.of_nat (List.length this) <? 2) with false in Hv
      by (symmetry; apply Z.ltb_ge; lia).
    discriminate Hv.
Qed.


(** *** evenAndOdd *)

(** What the two tests of [evenAndOdd] make of an integer. *)
Lemma remainder_2_is_1 (k : Z) :
  - 2 ^ 53 < k < 2 ^ 53 ->
  eqb (remainder (of_Z k) (of_Z 2)) (of_Z 1) = (0 <? k) && Z.odd k.
Proof.
  intros Hk.
  assert (H2 : 0 < 2 < 2 ^ 53) by (split; reflexivity).
  assert (H1 : 0 <= 1 < 2 ^ 53) by (split; [lia | reflexivity]).
  pose proof (Z.mod_pos_bound k 2 ltac:(lia)) as Hmod.
  destruct (Z.ltb_spec 0 k) as [Hpos | Hneg].
  - rewrite remainder_of_Z by lia. rewrite of_Z_eqb by lia.
    rewrite Zodd_mod. simpl andb. reflexivity.
  - simpl andb. destruct (Z.eq_dec k 0) as [-> | Hnz]; [reflexivity|].
    replace k with (- (- k)) by lia.
    pose proof (Z.mod_pos_bound (- k) 2 ltac:(lia)) as Hmod'.
    rewrite remainder_of_Z_neg by lia.
    destruct (Z.eqb_spec (- k mod 2) 0) as [Hz | Hz]; [reflexivity|].
    replace (- k mod 2) with 1 by lia. reflexivity.
Qed.

Lemma remainder_2_is_0 (k : Z) :
  - 2 ^ 53 < k < 2 ^ 53 ->
  eqb (remainder (of_Z k) (of_Z 2)) (of_Z 0) = Z.even k.
Proof.
  intros Hk.
  assert (H2 : 0 < 2 < 2 ^ 53) by (split; reflexivity).
  assert (H0 : 0 <= 0 < 2 ^ 53) by (split; [lia | reflexivity]).
  pose proof (Z.mod_pos_bound k 2 ltac:(lia)) as Hmod.
  destruct (Z.le_gt_cases 0 k) as [Hpos | Hneg].
  - rewrite remainder_of_Z by lia. rewrite of_Z_eqb by lia.
    rewrite Zeven_mod. reflexivity.
  - replace k with (- (- k)) at 1 by lia.
    pose proof (Z.mod_pos_bound (- k) 2 ltac:(lia)) as Hmod'.
    rewrite remainder_of_Z_neg by lia.
    rewrite <- (Z.even_opp k). rewrite (Zeven_mod (- k)).
    destruct (Z.eqb_spec (- k mod 2) 0) as [Hz | Hz]; [reflexivity|].
    replace (- k mod 2) with 1 by lia. reflexivity.
Qed.

Lemma filter_map_numbers (test : value -> bool) (p : Z -> bool) (ks : list Z) :
  (forall k, In k ks -> test (VNum (of_Z k)) = p k) ->
  filter test (map (fun k => VNum (of_Z k)) ks)
  = map (fun k => VNum (of_Z k)) (filter p ks).
Proof.
  induction ks as [|k rest IH]; intros Hall; [reflexivity|].
  simpl. rewrite (Hall k (or_introl eq_refl)).
  rewrite IH by (intros j Hj; apply Hall; right; exact Hj).
  destruct (p k); reflexivity.
Qed.

(** The rules of the methods on arrays of numbers: at least two
    elements, all of them numbers. *)
Lemma two_numbers_pass (xs : list num) :
  (2 <= List.length xs)%nat ->
  VerifyThis.array (VArray (map VNum xs))
    (ArrayRules.mk false (Some (of_Z 2)) None ["number"]) = Normal tt.
Proof.
  intros Hlen. unfold VerifyThis.array. cbv beta iota zeta.
  rewrite length_map.
  replace (Z.of_nat (List.length xs) <? 1) with false
    by (symmetry; apply Z.ltb_ge; lia).
  rewrite findIndex_none.
  2:{ intros y Hy. apply in_map_iff in Hy. destruct Hy as (x & <- & _). reflexivity. }
  unfold check_rule. rewrite (of_nat_ltb (List.length xs) 2) by (split; reflexivity).
  replace (Z.of_nat (List.length xs) <? 2) with false
    by (symmetry; apply Z.ltb_ge; lia).
  reflexivity.
Qed.

(** [evenAndOdd()] on integers has the two names the wrong way round, and
    loses the negative odd integers: [even] holds the positive odd
    integers, [odd] the even ones (zero and the negative ones too), each in
    the order of the array. *)
Theorem evenAndOdd_swapped (ks : list Z) :
  (2 <= List.length ks)%nat ->
  (forall k, In k ks -> - 2 ^ 53 < k < 2 ^ 53) ->
  ArrayFun.evenAndOdd (map (fun k => VNum (of_Z k)) ks)
  = Normal (ArrayFun.mkEvenOdd
              (map (fun k => VNum (of_Z k)) (filter (fun k => (0 <? k) && Z.odd k) ks))
              (map (fun k => VNum (of_Z k)) (filter Z.even ks))).
Proof.
  intros Hlen Hrange. unfold ArrayFun.evenAndOdd.
  rewrite <- (map_map of_Z VNum ks) at 1.
  rewrite two_numbers_pass by (rewrite length_map; exact Hlen).
  cbv beta iota delta [bind].
  rewrite (filter_map_numbers _ (fun k => (0 <? k) && Z.odd k)).
  2:{ intros k Hk. apply remainder_2_is_1, Hrange, Hk. }
  rewrite (filter_map_numbers _ Z.even).
  2:{ intros k Hk. apply remainder_2_is_0, Hrange, Hk. }
  reflexivity.
Qed.

Lemma evenAndOdd_swapped_witness :
  ArrayFun.evenAndOdd (map (fun k => VNum (of_Z k)) [1; 2; -3; 4; 0])
  = Normal (ArrayFun.mkEvenOdd
              (map (fun k => VNum (of_Z k))
                 (filter (fun k => (0 <? k) && Z.odd k) [1; 2; -3; 4; 0]))
              (map (fun k => VNum (of_Z k)) (filter Z.even [1; 2; -3; 4; 0]))).
Proof.
  apply evenAndOdd_swapped.
  - simpl. lia.
  - intros k [<- | [<- | [<- | [<- | [<- | []]]]]]; split; reflexivity.
Defined.

(** *** minAndMax *)

Lemma compare_defined (x y : num) :
  x <> NaN -> y <> NaN -> exists c, SFcompare x y = Some c.
Proof.
  intros Hx Hy.
  destruct x as [sx|sx| |sx mx ex]; try (exfalso; apply Hx; reflexivity);
    destruct y as [sy|sy| |sy my ey]; try (exfalso; apply Hy; reflexivity);
    simpl; eauto.
Qed.

Lemma leb_total (x y : num) :
  x <> NaN -> y <> NaN -> ltb x y = false -> leb y x = true.
Proof.
  intros Hx Hy. unfold ltb, leb, SFltb, SFleb. rewrite (SFcompare_antisym x y).
  destruct (compare_defined x y Hx Hy) as [c ->]. destruct c; simpl; congruence.
Qed.

Lemma leb_refl (x : num) : x <> NaN -> leb x x = true.
Proof.
  intros Hx. pose proof (num_eqb_refl x Hx) as H.
  unfold eqb, leb, SFeqb, SFleb in *. destruct (SFcompare x x) as [[]|]; congruence.
Qed.

(** One step of [Math.max] and of [Math.min] on numbers other than
    [NaN]. *)
Lemma max_step_spec (highest x : num) :
  highest <> NaN -> x <> NaN ->
  let r := max_step highest x in
  r <> NaN /\ (r = highest \/ r = x) /\ leb highest r = true /\ leb x r = true.
Proof.
  intros Hh Hx r.
  assert (Hgen : let r' := if gtb x highest then x else highest in
                 r' <> NaN /\ (r' = highest \/ r' = x)
                 /\ leb highest r' = true /\ leb x r' = true).
  { destruct (gtb x highest) eqn:Hgt; cbv zeta;
      assert (Hlt : ltb highest x = gtb x highest) by reflexivity;
      rewrite Hgt in Hlt.
    - repeat split; [exact Hx | right; reflexivity | apply ltb_leb, Hlt
                     | apply leb_refl, Hx].
    - repeat split; [exact Hh | left; reflexivity | apply leb_refl, Hh
                     | apply leb_total; assumption]. }
  unfold r, max_step.
  destruct highest as [sh|sh| |sh mh eh]; try (exfalso; apply Hh; reflexivity);
    destruct x as [sx|sx| |sx mx ex]; try (exfalso; apply Hx; reflexivity);
    try exact Hgen; try (destruct sh; exact Hgen); try (destruct sx; exact Hgen).
  destruct sh, sx; try exact Hgen.
  split; [discriminate|]. split; [right; reflexivity|]. split; reflexivity.
Qed.

Lemma min_step_spec (lowest x : num) :
  lowest <> NaN -> x <> NaN ->
  let r := min_step lowest x in
  r <> NaN /\ (r = lowest \/ r = x) /\ leb r lowest = true /\ leb r x = true.
Proof.
  intros Hl Hx r.
  assert (Hgen : let r' := if ltb x lowest then x else lowest in
                 r' <> NaN /\ (r' = lowest \/ r' = x)
                 /\ leb r' lowest = true /\ leb r' x = true).
  { destruct (ltb x lowest) eqn:Hlt; cbv zeta.
    - repeat split; [exact Hx | right; reflexivity | apply ltb_leb, Hlt
                     | apply leb_refl, Hx].
    - repeat split; [exact Hl | left; reflexivity | apply leb_refl, Hl
                     | apply leb_total; assumption]. }
  unfold r, min_step.
  destruct lowest as [sl|sl| |sl ml el]; try (exfalso; apply Hl; reflexivity);
    destruct x as [sx|sx| |sx mx ex]; try (exfalso; apply Hx; reflexivity);
    try exact Hgen; try (destruct sl; exact Hgen); try (destruct sx; exact Hgen).
  destruct sl, sx; try exact Hgen.
  split; [discriminate|]. split; [right; reflexivity|]. split; reflexivity.
Qed.

Lemma fold_max_spec (xs : list num) :
  forall highest,
    highest <> NaN -> (forall x, In x xs -> x <> NaN) ->
    let r := fold_left max_step xs highest in
    r <> NaN /\ In r (highest :: xs) /\ leb highest r = true
    /\ (forall x, In x xs -> leb x r = true).
Proof.
  induction xs as [|a rest IH]; intros highest Hh Hall; cbv zeta.
  - simpl. repeat split; [exact Hh | left; reflexivity | apply leb_refl, Hh | intros x []].
  - destruct (max_step_spec highest a Hh (Hall a (or_introl eq_refl)))
      as (Hn & Hor & Hle1 & Hle2).
    destruct (IH (max_step highest a) Hn (fun x Hx => Hall x (or_intror Hx)))
      as (Hrn & Hin & Hle & Hrest).
    simpl fold_left. repeat split.
    + exact Hrn.
    + destruct Hin as [Heq | Hin]; [|right; right; exact Hin].
      rewrite <- Heq. destruct Hor as [-> | ->]; [left | right; left]; reflexivity.
    + apply (leb_trans _ _ _ Hle1 Hle).
    + intros x [<- | Hx]; [apply (leb_trans _ _ _ Hle2 Hle) | apply Hrest, Hx].
Qed.

Lemma fold_min_spec (xs : list num) :
  forall lowest,
    lowest <> NaN -> (forall x, In x xs -> x <> NaN) ->
    let r := fold_left min_step xs lowest in
    r <> NaN /\ In r (lowest :: xs) /\ leb r lowest = true
    /\ (forall x, In x xs -> leb r x = true).
Proof.
  induction xs as [|a rest IH]; intros lowest Hl Hall; cbv zeta.
  - simpl. repeat split; [exact Hl | left; reflexivity | apply leb_refl, Hl | intros x []].
  - destruct (min_step_spec lowest a Hl (Hall a (or_introl eq_refl)))
      as (Hn & Hor & Hle1 & Hle2).
    destruct (IH (min_step lowest a) Hn (fun x Hx => Hall x (or_intror Hx)))
      as (Hrn & Hin & Hle & Hrest).
    simpl fold_left. repeat split.
    + exact Hrn.
    + destruct Hin as [Heq | Hin]; [|right; right; exact Hin].
      rewrite <- Heq. destruct Hor as [-> | ->]; [left | right; left]; reflexivity.
    + apply (leb_trans _ _ _ Hle Hle1).
    + intros x [<- | Hx]; [apply (leb_trans _ _ _ Hle Hle2) | apply Hrest, Hx].
Qed.

(** Only [-Infinity] is not above [-Infinity], only [+Infinity] not below
    [+Infinity]. *)
Lemma leb_neg_infinity (x : num) :
  x <> NaN -> leb x (S754_infinity true) = true -> x = S754_infinity true.
Proof.
  intros Hx H.
  destruct x as [s|s| |s m e];
    [ destruct s; discriminate H
    | destruct s; [reflexivity | discriminate H]
    | exfalso; apply Hx; reflexivity
    | destruct s; discriminate H ].
Qed.

Lemma leb_pos_infinity (x : num) :
  x <> NaN -> leb (S754_infinity false) x = true -> x = S754_infinity false.
Proof.
  intros Hx H.
  destruct x as [s|s| |s m e];
    [ destruct s; discriminate H
    | destruct s; [discriminate H | reflexivity]
    | exfalso; apply Hx; reflexivity
    | destruct s; discriminate H ].
Qed.

Lemma numbers_pass (xs : list num) :
  xs <> [] ->
  VerifyThis.array (VArray (map VNum xs)) (ArrayRules.mk false None None ["number"])
  = Normal tt.
Proof.
  intros Hne. unfold VerifyThis.array. cbv beta iota zeta.
  rewrite length_map.
  replace (Z.of_nat (List.length xs) <? 1) with false.
  2:{ symmetry. apply Z.ltb_ge. destruct xs; [contradiction | simpl List.length; lia]. }
  rewrite findIndex_none; [reflexivity|].
  intros y Hy. apply in_map_iff in Hy. destruct Hy as (x & <- & _). reflexivity.
Qed.

Lemma the_numbers (xs : list num) : map the_number (map VNum xs) = xs.
Proof. rewrite map_map. apply map_id. Qed.

(** [minAndMax()] on numbers other than [NaN], a single one included
    (the misspelt rule [minElementes] is read by nothing) and no more of
    them than a call takes arguments: [max] and [min] are elements of the
    array, and every element lies between them. *)
Theorem minAndMax_bounds (max_arguments : nat) (xs : list num) :
  xs <> [] ->
  (forall x, In x xs -> x <> NaN) ->
  (List.length xs <= max_arguments)%nat ->
  exists hi lo,
    ArrayFun.minAndMax max_arguments (map VNum xs) = Normal (ArrayFun.mkMinMax hi lo)
    /\ In hi xs /\ In lo xs
    /\ (forall x, In x xs -> leb lo x = true /\ leb x hi = true).
Proof.
  intros Hne Hall Hlen. unfold ArrayFun.minAndMax.
  rewrite numbers_pass by exact Hne.
  rewrite the_numbers. unfold Math_max, Math_min.
  rewrite (proj2 (Nat.leb_le _ _) Hlen). cbv beta iota delta [bind].
  destruct (fold_max_spec xs (S754_infinity true) ltac:(discriminate) Hall)
    as (_ & Hin_hi & _ & Hhi).
  destruct (fold_min_spec xs (S754_infinity false) ltac:(discriminate) Hall)
    as (_ & Hin_lo & _ & Hlo).
  eexists. eexists. split; [reflexivity|].
  destruct xs as [|x0 rest]; [contradiction|].
  split; [|split].
  - destruct Hin_hi as [Heq | Hin]; [|exact Hin].
    left. pose proof (Hhi x0 (or_introl eq_refl)) as H0. rewrite <- Heq in H0 |- *.
    apply leb_neg_infinity; [apply Hall; left; reflexivity | exact H0].
  - destruct Hin_lo as [Heq | Hin]; [|exact Hin].
    left. pose proof (Hlo x0 (or_introl eq_refl)) as H0. rewrite <- Heq in H0 |- *.
    apply leb_pos_infinity; [apply Hall; left; reflexivity | exact H0].
  - intros x Hx. split; [apply Hlo, Hx | apply Hhi, Hx].
Qed.

Lemma minAndMax_bounds_witness :
  exists hi lo,
    ArrayFun.minAndMax 1000 (map VNum [of_Z 7]) = Normal (ArrayFun.mkMinMax hi lo)
    /\ In hi [of_Z 7] /\ In lo [of_Z 7]
    /\ (forall x, In x [of_Z 7] -> leb lo x = true /\ leb x hi = true).
Proof.
  apply minAndMax_bounds.
  - discriminate.
  - intros x [<- | []]. discriminate.
  - simpl. lia.
Defined.


End ArrayFunProperties.


(** ** Calculate and CheckNum *)

Section CalculateProperties.

Lemma is_integerb_true (x : num) (k : Z) : is_integerb x k = true -> is_integer x k.
Proof.
  destruct x as [s|s| |s m e]; simpl; try discriminate; intros H.
  - apply Z.eqb_eq, H.
  - apply Z.eqb_eq, H.
Qed.

(** A loop that has ended keeps its result when it is given more fuel. *)
Lemma factorial_loop_more (fuel : nat) :
  forall (n i f r : num) (k : nat),
    Calculate.factorial_loop fuel n i f = Some r ->
    Calculate.factorial_loop (fuel + k) n i f = Some r.
Proof.
  induction fuel as [|fuel IH]; intros n i f r k H; [discriminate H|].
  simpl in H |- *. destruct (leb i n); [apply IH, H | exact H].
Qed.

Lemma fibonacci_loop_more (fuel : nat) :
  forall (n i : num) (arr r : list (num * num)) (k : nat),
    Calculate.fibonacci_loop fuel n i arr = Some r ->
    Calculate.fibonacci_loop (fuel + k) n i arr = Some r.
Proof.
  induction fuel as [|fuel IH]; intros n i arr r k H; [discriminate H|].
  simpl in H |- *. destruct (leb i n); [apply IH, H | exact H].
Qed.

Lemma factorial_table : forallb factorial_ok (seq 1 22) = true.
Proof. vm_compute. reflexivity. Qed.

Lemma fibonacci_table : forallb fibonacci_ok (seq 0 79) = true.
Proof. vm_compute. reflexivity. Qed.

(** The loop of [factorialOf] on an integer from 1 to 22. *)
Lemma factorial_loop_exact (n fuel : nat) :
  (1 <= n <= 22)%nat -> (n < fuel)%nat ->
  exists r,
    Calculate.factorial_loop fuel (of_nat n) (of_Z 1) (of_Z 1) = Some r
    /\ r = of_Z (factorial n)
    /\ is_integer r (factorial n).
Proof.
  intros Hn Hfuel.
  pose proof (proj1 (forallb_forall factorial_ok (seq 1 22)) factorial_table n) as H.
  specialize (H ltac:(apply in_seq; lia)). unfold factorial_ok in H.
  destruct (Calculate.factorialOf (S n) (VNum (of_nat n))) as [[r|e]|] eqn:Hrun;
    try discriminate H.
  apply andb_true_iff in H. destruct H as [Hsame Hint].
  apply same_num_eq in Hsame. apply is_integerb_true in Hint.
  exists r. split; [|split; assumption].
  unfold Calculate.factorialOf in Hrun.
  destruct (VerifyThis.number (VNum (of_nat n))
              (NumberRules.mk (Some (of_Z 1)) None "Number" [] "number")) as [[]|e];
    [|discriminate Hrun].
  destruct (Calculate.factorial_loop (S n) (the_number (VNum (of_nat n))) (of_Z 1) (of_Z 1))
    as [r'|] eqn:Hloop; [|discriminate Hrun].
  injection Hrun as <-.
  replace fuel with (S n + (fuel - S n))%nat by lia.
  apply (factorial_loop_more _ _ _ _ _ _ Hloop).
Qed.

(** [factorialOf(n)] for the integers from 1 to 22 is the number of [n!],
    and this number is [n!] exactly. *)
Theorem factorialOf_exact (n fuel : nat) :
  (1 <= n <= 22)%nat -> (n < fuel)%nat ->
  exists r,
    Calculate.factorialOf fuel (VNum (of_nat n)) = Some (Normal r)
    /\ r = of_Z (factorial n)
    /\ is_integer r (factorial n).
Proof.
  intros Hn Hfuel.
  destruct (factorial_loop_exact n fuel Hn Hfuel) as (r & Hloop & Hr & Hint).
  exists r. split; [|split; assumption].
  unfold Calculate.factorialOf, VerifyThis.number. cbv beta iota zeta.
  assert (Hb : 0 <= Z.of_nat n < 2 ^ 53).
  { split; [lia|]. apply (Z.le_lt_trans _ 22); [lia | reflexivity]. }
  unfold of_nat. rewrite (of_Z_ltb _ 1 Hb) by (split; [lia | reflexivity]).
  replace (Z.of_nat n <? 1) with false by (symmetry; apply Z.ltb_ge; lia).
  rewrite andb_false_r. cbv beta iota delta [throw_if bind check_rule the_number].
  fold (of_nat n). rewrite Hloop. reflexivity.
Qed.

Lemma factorialOf_exact_witness :
  exists r,
    Calculate.factorialOf 30 (VNum (of_nat 5)) = Some (Normal r)
    /\ r = of_Z (factorial 5)
    /\ is_integer r (factorial 5).
Proof. apply factorialOf_exact; lia. Defined.

(** [fibonacciOf(n)] for the integers from 0 to 78 is the number of the
    [n]-th Fibonacci number, and this number is that integer exactly. *)
Theorem fibonacciOf_exact (n fuel : nat) :
  (n <= 78)%nat -> (n < fuel)%nat ->
  exists r,
    Calculate.fibonacciOf fuel (VNum (of_nat n)) = Some (Normal (VNum r))
    /\ r = of_Z (fibonacci n)
    /\ is_integer r (fibonacci n).
Proof.
  intros Hn Hfuel.
  pose proof (proj1 (forallb_forall fibonacci_ok (seq 0 79)) fibonacci_table n) as H.
  specialize (H ltac:(apply in_seq; lia)). unfold fibonacci_ok in H.
  destruct (Calculate.fibonacciOf (S n) (VNum (of_nat n))) as [[v|e]|] eqn:Hrun;
    try discriminate H.
  destruct v as [| | |r| | | |]; try discriminate H.
  apply andb_true_iff in H. destruct H as [Hsame Hint].
  apply same_num_eq in Hsame. apply is_integerb_true in Hint.
  exists r. split; [|split; assumption].
  unfold Calculate.fibonacciOf in Hrun |- *.
  destruct (VerifyThis.number (VNum (of_nat n))
              (NumberRules.mk (Some (of_Z 0)) None "Number" [] "number")) as [[]|e];
    [|discriminate Hrun].
  destruct (Calculate.fibonacci_loop (S n) (the_number (VNum (of_nat n))) (of_Z 2)
              [(of_Z 0, of_Z 0); (of_Z 1, of_Z 1)])
    as [arr|] eqn:Hloop; [|discriminate Hrun].
  replace fuel with (S n + (fuel - S n))%nat by lia.
  rewrite (fibonacci_loop_more _ _ _ _ _ _ Hloop). exact Hrun.
Qed.

Lemma fibonacciOf_exact_witness :
  exists r,
    Calculate.fibonacciOf 30 (VNum (of_nat 10)) = Some (Normal (VNum r))
    /\ r = of_Z (fibonacci 10)
    /\ is_integer r (fibonacci 10).
Proof. apply fibonacciOf_exact; lia. Defined.


(** *** isPrime *)

Lemma min_rule_passes (n c : Z) (al nal : string) :
  0 < c < 2 ^ 53 -> c <= n < 2 ^ 53 ->
  VerifyThis.number (VNum (of_Z n)) (NumberRules.mk (Some (of_Z c)) None al [] nal)
  = Normal tt.
Proof.
  intros Hc Hn. unfold VerifyThis.number. cbv beta iota zeta.
  rewrite of_Z_ltb by lia.
  replace (n <? c) with false by (symmetry; apply Z.ltb_ge; lia).
  rewrite andb_false_r. reflexivity.
Qed.

(** The loop of [isPrime] from the divisor [i] on, when no divisor below
    [i] has been found: it ends within [n - i + 1] rounds, with [true]
    exactly when no integer from 2 to [n - 1] divides [n]. *)
Lemma isPrime_loop_spec (n : Z) :
  2 <= n < 2 ^ 53 ->
  forall (fuel : nat) (i : Z),
    2 <= i <= n ->
    (Z.to_nat (n - i) < fuel)%nat ->
    (forall j, 2 <= j < i -> n mod j <> 0) ->
    exists b,
      CheckNum.isPrime_loop fuel (of_Z n) (of_Z i) = Some b
      /\ (b = true <-> forall j, 2 <= j < n -> n mod j <> 0).
Proof.
  intros Hn. induction fuel as [|fuel IH]; intros i Hi Hfuel Hbelow; [lia|].
  simpl CheckNum.isPrime_loop.
  rewrite of_Z_ltb by lia.
  destruct (Z.ltb_spec i n) as [Hlt | Hge].
  - rewrite remainder_of_Z by lia.
    pose proof (Z.mod_pos_bound n i ltac:(lia)) as Hmod.
    rewrite of_Z_eqb by (split; [lia | first [lia | reflexivity]]).
    destruct (Z.eqb_spec (n mod i) 0) as [Hz | Hnz].
    + exists false. split; [reflexivity|]. split; [discriminate|].
      intros Hall. exfalso. apply (Hall i); [lia | exact Hz].
    + rewrite add_of_Z by lia.
      apply IH; [lia | lia|].
      intros j Hj. destruct (Z.eq_dec j i) as [-> | Hne]; [exact Hnz | apply Hbelow; lia].
  - exists true. split; [reflexivity|]. split; [|reflexivity].
    intros _ j Hj. apply Hbelow. lia.
Qed.

(** [isPrime(n)] for an integer [n] from 2 up to [2^53 - 1] ends, and
    answers [true] exactly when [n] is a prime number. *)
Theorem isPrime_correct (n : Z) (fuel : nat) :
  2 <= n < 2 ^ 53 ->
  (Z.to_nat n <= fuel)%nat ->
  exists b,
    CheckNum.isPrime fuel (VNum (of_Z n)) = Some (Normal b)
    /\ (b = true <-> Z.prime n).
Proof.
  intros Hn Hfuel. unfold CheckNum.isPrime.
  rewrite min_rule_passes by (try lia; split; reflexivity).
  simpl the_number.
  destruct (isPrime_loop_spec n Hn fuel 2 ltac:(lia) ltac:(lia) ltac:(intros; lia))
    as (b & Hrun & Hb).
  exists b. rewrite Hrun. split; [reflexivity|].
  rewrite Hb. unfold Z.prime. split.
  - intros Hall. split; [lia|]. intros j Hj Hdiv.
    apply (Hall j); [lia|]. apply Z.mod_divide; [lia | exact Hdiv].
  - intros [_ Hall] j Hj Hmod. apply (Hall j); [lia|].
    apply Z.mod_divide; [lia | exact Hmod].
Qed.

Lemma isPrime_correct_witness :
  exists b,
    CheckNum.isPrime 100 (VNum (of_Z 97)) = Some (Normal b)
    /\ (b = true <-> Z.prime 97).
Proof. apply isPrime_correct; [split; [lia | reflexivity] | lia]. Defined.

(** Numbers of at least [2^53] are even integers: [isPrime] answers
    [false] at the first divisor it tries. *)
Theorem isPrime_large_even (m : positive) (e : Z) (fuel : nat) :
  bounded prec emax m e = true ->
  1 <= e ->
  (1 <= fuel)%nat ->
  CheckNum.isPrime fuel (VNum (S754_finite false m e)) = Some (Normal false)
  /\ (2 | Zpos m * 2 ^ e) /\ 2 ^ 53 <= Zpos m * 2 ^ e.
Proof.
  intros Hb He Hfuel.
  destruct (bounded_canonical m e Hb) as [Hc _].
  destruct (canonical_bounds m e Hc) as (_ & Hhi & Hlo). specialize (Hlo ltac:(lia)).
  assert (H2 : of_Z 2 = S754_finite false 4503599627370496 (-51))
    by (vm_compute; reflexivity).
  assert (Hpe : 2 ^ e = 2 * 2 ^ (e - 1)).
  { replace e with (1 + (e - 1)) at 1 by lia. rewrite pow2_add by lia. reflexivity. }
  assert (Hp1 : 0 < 2 ^ (e - 1)) by (apply pow2_pos; lia).
  assert (Hgt : ltb (of_Z 2) (S754_finite false m e) = true).
  { rewrite H2. unfold ltb, SFltb. rewrite compare_canonical; [| reflexivity | exact Hc].
    assert (Hs : Zval (Zpos m) e = Zval (Zpos m * 2 ^ (e + 51)) (-51)).
    { rewrite <- Zval_shift by lia. f_equal. lia. }
    rewrite Hs. unfold Zval.
    assert (Hlt : 4503599627370496 * 2 ^ (-51 + 1200) < Zpos m * 2 ^ (e + 51) * 2 ^ (-51 + 1200)).
    { apply Z.mul_lt_mono_pos_r; [apply pow2_pos; lia|].
      assert (2 ^ 52 <= 2 ^ (e + 51)) by (apply pow2_le; lia).
      change (2 ^ 52) with 4503599627370496 in *. nia. }
    apply Z.compare_lt_iff in Hlt. rewrite Hlt. reflexivity. }
  split; [|split].
  - unfold CheckNum.isPrime, VerifyThis.number. cbv beta iota zeta.
    replace (ltb (S754_finite false m e) (of_Z 2)) with false.
    2:{ symmetry. apply (leb_not_gtb (of_Z 2)). apply ltb_leb, Hgt. }
    rewrite andb_false_r. cbv beta iota delta [throw_if bind check_rule the_number].
    destruct fuel as [|fuel]; [lia|]. cbn [CheckNum.isPrime_loop]. rewrite Hgt.
    replace (remainder (S754_finite false m e) (of_Z 2)) with (S754_zero false);
      [reflexivity|].
    rewrite H2. cbv beta iota zeta delta [remainder cond_Zopp].
    rewrite Z.min_r by lia.
    replace (2 ^ (-51 - -51)) with 1 by reflexivity. rewrite Z.mul_1_r.
    replace (e - -51) with (52 + (e - 1)) by lia. rewrite pow2_add by lia.
    change (2 ^ 52) with 4503599627370496.
    replace (Zpos m * (4503599627370496 * 2 ^ (e - 1)))
      with (Zpos m * 2 ^ (e - 1) * 4503599627370496) by ring.
    rewrite Z.mod_mul by lia. reflexivity.
  - exists (Zpos m * 2 ^ (e - 1)). rewrite Hpe. ring.
  - rewrite Hpe. change (2 ^ 53) with (2 ^ 52 * 2). nia.
Qed.

Lemma isPrime_large_even_witness :
  CheckNum.isPrime 1 (VNum (S754_finite false 4503599627370497 1)) = Some (Normal false)
  /\ (2 | Zpos 4503599627370497 * 2 ^ 1) /\ 2 ^ 53 <= Zpos 4503599627370497 * 2 ^ 1.
Proof. apply isPrime_large_even; [reflexivity | lia | lia]. Defined.

(** *** Below the minimum *)

(** An integer that is not positive is a number below [1]. *)
Lemma of_Z_below_1 (d : Z) : d <= 0 -> ltb (of_Z d) (of_Z 1) = true.
Proof.
  intros Hd. destruct d as [|p|p]; [reflexivity | lia |].
  rewrite of_Z_neg. unfold of_Z at 1. simpl binary_normalize.
  destruct (binary_round_monotone p 0 ltac:(lia)) as (Hv & Hge & _).
  specialize (Hge 4503599627370496%positive (-52) ltac:(reflexivity)).
  assert (Hle : Zval 4503599627370496 (-52) <= Zval (Zpos p) 0).
  { assert (Hs : Zval 4503599627370496 (-52) = Zval 1 0) by reflexivity.
    rewrite Hs. unfold Zval.
    apply Z.mul_le_mono_nonneg_r; [apply Z.lt_le_incl, pow2_pos; lia | lia]. }
  specialize (Hge Hle).
  destruct (binary_round prec emax false p 0) as [s|s| |s m e]; simpl in Hv.
  - discriminate Hge.
  - subst s. reflexivity.
  - contradiction.
  - destruct Hv as [-> _]. reflexivity.
Qed.

(** A number below the minimum that a method asks for gets the
    ReferenceError of the unbound name [minValue] of [VerifyThis.number],
    not a RangeError: [factorialOf] below 1 (so for 0 too), [fibonacciOf]
    below 0, [isPrime] below 2, and [floatBetween] with no decimals. *)
Theorem below_minimum_ReferenceError
    (x : num) (fuel : nat) (random lo hi : num) (decimals : Z) :
  (ltb x (of_Z 1) = true ->
   Calculate.factorialOf fuel (VNum x) = Some (Throw minValue_unbound))
  /\ (ltb x (of_Z 0) = true ->
      Calculate.fibonacciOf fuel (VNum x) = Some (Throw minValue_unbound))
  /\ (ltb x (of_Z 2) = true ->
      CheckNum.isPrime fuel (VNum x) = Some (Throw minValue_unbound))
  /\ (decimals <= 0 ->
      Random.floatBetween random lo hi decimals = Throw minValue_unbound).
Proof.
  split; [|split; [|split]]; intros Hlt.
  - unfold Calculate.factorialOf, VerifyThis.number. cbv beta iota zeta.
    rewrite Hlt. reflexivity.
  - unfold Calculate.fibonacciOf, VerifyThis.number. cbv beta iota zeta.
    rewrite Hlt. reflexivity.
  - unfold CheckNum.isPrime, VerifyThis.number. cbv beta iota zeta.
    rewrite Hlt. reflexivity.
  - unfold Random.floatBetween. rewrite !number_default_rules.
    unfold VerifyThis.number. cbv beta iota zeta.
    rewrite (of_Z_below_1 decimals Hlt). reflexivity.
Qed.

Lemma below_minimum_ReferenceError_witness :
  Calculate.factorialOf 5 (VNum (of_Z 0)) = Some (Throw minValue_unbound)
  /\ Random.floatBetween (of_ratio 1 3) (of_Z 0) (of_Z 100) 0 = Throw minValue_unbound.
Proof.
  split.
  - apply (proj1 (below_minimum_ReferenceError (of_Z 0) 5 NaN NaN NaN 0)). reflexivity.
  - apply (proj2 (proj2 (proj2
             (below_minimum_ReferenceError NaN 0 (of_ratio 1 3) (of_Z 0) (of_Z 100) 0)))).
    lia.
Defined.

End CalculateProperties.


(** ** execProb on probabilities that add up to 100 *)

Section ExecProbTotal.

(** The draw of [execProb] is a number of at most [100]. *)
Lemma draw_at_most_100 (random : num) :
  valid_binary prec emax random = true ->
  leb (of_Z 0) random = true ->
  ltb random (of_Z 1) = true ->
  exists r,
    Random.floatBetween random (of_Z 0) (of_Z 100) 1 = Normal r
    /\ leb r (of_Z 100) = true.
Proof.
  intros Hv H0 H1. rewrite floatBetween_0_100.
  assert (Hk : exists k, 0 <= k <= 1000
                         /\ add (floor (mul random (of_Z 1001))) (of_Z 0)
                            = add (of_Z k) (of_Z 0)).
  { destruct random as [s|s| |s m e].
    - exists 0. split; [lia|]. destruct s; vm_compute; reflexivity.
    - destruct s; discriminate.
    - discriminate.
    - destruct s; [discriminate H0|]. simpl in Hv.
      destruct (spec_float_eq_dec_below_1 m e) as [Heq | Hne].
      + injection Heq as -> ->. fold below_1. rewrite floor_mul_below_1.
        exists 1000. split; [lia | reflexivity].
      + destruct (mul_1001_below m e Hv H1 Hne) as [Hnv Hle].
        apply (floor_below_1001 _ Hnv Hle). }
  destruct Hk as (k & Hk & Heq). rewrite Heq.
  destruct (tenth_of k Hk) as (Ht & _ & Hhi). rewrite Ht.
  eexists. split; [reflexivity | exact Hhi].
Qed.

(** The walk returns an element as soon as the last running total
    reaches the draw. *)
Lemma walk_selects (r : num) (arr : list ProbInfo) :
  forall c,
    arr <> [] ->
    leb r (running c arr) = true ->
    exists element, In element arr /\ walk r c arr = item_of element.
Proof.
  induction arr as [|a rest IH]; intros c Hne Hlast; [contradiction|].
  simpl walk. destruct (leb r (add c (percent_of a))) eqn:Hhere.
  - exists a. split; [left; reflexivity | reflexivity].
  - destruct rest as [|b rest'].
    + simpl in Hlast. congruence.
    + destruct (IH (add c (percent_of a)) ltac:(discriminate) Hlast)
        as (element & Hin & Hwalk).
      exists element. split; [right; exact Hin | exact Hwalk].
Qed.

(** When the probabilities add up to 100, [execProb] returns the [el] of
    one of the elements, whatever the random source gives: the walk does
    not fall off the end of the array. *)
Theorem execProb_sum_100_selects (random : num) (arr : list ProbInfo) :
  complete arr ->
  eqb (checkPercent arr) (of_Z 100) = true ->
  valid_binary prec emax random = true ->
  leb (of_Z 0) random = true ->
  ltb random (of_Z 1) = true ->
  exists element, In element arr /\ execProb random arr = Normal (item_of element).
Proof.
  intros Hc Hsum Hv H0 H1.
  destruct (draw_at_most_100 random Hv H0 H1) as (r & Hdraw & Hr).
  rewrite (execProb_walk random r arr Hc (eqb_not_gtb _ _ Hsum) Hdraw).
  assert (Hne : arr <> []).
  { intros ->. discriminate Hsum. }
  assert (Hle : leb (of_Z 100) (checkPercent arr) = true).
  { unfold eqb, SFeqb in Hsum. unfold leb, SFleb.
    rewrite (SFcompare_antisym (checkPercent arr) (of_Z 100)).
    destruct (SFcompare (checkPercent arr) (of_Z 100)) as [[]|]; try discriminate Hsum.
    reflexivity. }
  destruct (walk_selects r arr (of_Z 0) Hne (leb_trans _ _ _ Hr Hle))
    as (element & Hin & Hwalk).
  exists element. split; [exact Hin|]. rewrite Hwalk. reflexivity.
Qed.

Lemma execProb_sum_100_selects_witness :
  exists element,
    In element A60_B40 /\ execProb (of_ratio 1 3) A60_B40 = Normal (item_of element).
Proof.
  apply execProb_sum_100_selects;
    [exact complete_A60_B40 | vm_compute; reflexivity ..].
Defined.

End ExecProbTotal.


(** ** Random.intBetween and ArrayFun.randElement *)

Section RandomProperties.

(** *** Rounding down *)

(** The round bit after a shift is the last digit that was shifted out. *)
Lemma round_bit_shr_1 (m k : Z) (rec : shr_record) :
  0 <= m -> 0 <= k -> shr_m rec = m / 2 ^ k ->
  shr_m (shr_1 rec) = m / 2 ^ (k + 1) /\ shr_r (shr_1 rec) = Z.odd (m / 2 ^ k).
Proof.
  intros Hm Hk Hq.
  assert (Hpos : 0 < 2 ^ k) by (apply pow2_pos; lia).
  assert (Hrec : 0 <= shr_m rec) by (rewrite Hq; apply Z.div_pos; lia).
  destruct (shr_1_m rec Hrec) as (Hm1 & _ & _).
  split.
  - rewrite Hm1, Hq. rewrite pow2_add by lia. rewrite Z.div_div by lia. reflexivity.
  - rewrite <- Hq. destruct rec as [q r s]. simpl in *.
    destruct q as [|p|p]; [reflexivity | | lia].
    destruct p; reflexivity.
Qed.

Lemma round_bit_iter_pos (m : Z) (p : positive) :
  0 <= m ->
  forall (k : Z) (rec : shr_record),
    0 <= k -> shr_m rec = m / 2 ^ k ->
    shr_m (iter_pos shr_1 p rec) = m / 2 ^ (k + Zpos p)
    /\ shr_r (iter_pos shr_1 p rec) = Z.odd (m / 2 ^ (k + Zpos p - 1)).
Proof.
  intros Hm. induction p as [p IH | p IH |]; intros k rec Hk Hrec; simpl iter_pos.
  - destruct (round_bit_shr_1 m k rec Hm Hk Hrec) as [H1 _].
    destruct (IH (k + 1) _ ltac:(lia) H1) as [H2 _].
    destruct (IH (k + 1 + Zpos p) _ ltac:(lia) H2) as [H3 H4].
    replace (k + Zpos p~1) with (k + 1 + Zpos p + Zpos p) by lia.
    split; [exact H3 | exact H4].
  - destruct (IH k _ Hk Hrec) as [H2 _].
    destruct (IH (k + Zpos p) _ ltac:(lia) H2) as [H3 H4].
    replace (k + Zpos p~0) with (k + Zpos p + Zpos p) by lia.
    split; [exact H3 | exact H4].
  - destruct (round_bit_shr_1 m k rec Hm Hk Hrec) as [H1 H2].
    replace (k + 1 - 1) with k by lia. split; assumption.
Qed.

(** [binary_round_aux] rounds down when the first digit that is shifted
    out is [0]: the exact value is below the middle of the two
    neighbours. *)
Lemma binary_round_aux_down (mx : positive) (ex : Z) :
  let e1 := fexp prec emax (Zpos (digits2_pos mx) + ex) in
  ex < e1 ->
  Z.odd (Zpos mx / 2 ^ (e1 - ex - 1)) = false ->
  binary_round_aux prec emax false (Zpos mx) ex loc_Exact
  = round_pack (Zpos mx / 2 ^ (e1 - ex)) e1.
Proof.
  intros e1 Hlt Hbit.
  pose proof (digits2_bounds mx) as [Blo Bhi].
  set (d := Zpos (digits2_pos mx)) in *.
  assert (He1 : e1 = Z.max (d + ex - 53) (-1074)) by (unfold e1; apply fexp_unfold).
  set (n := e1 - ex) in *.
  assert (Hn : 0 < n) by lia.
  assert (Hpn : 0 < 2 ^ n) by (apply pow2_pos; lia).
  assert (Hq_hi : Zpos mx / 2 ^ n < 2 ^ 53).
  { apply Z.div_lt_upper_bound; [lia|].
    assert (2 ^ d <= 2 ^ (n + 53)) by (apply pow2_le; lia).
    rewrite pow2_add in H by lia. lia. }
  assert (Hq0 : 0 <= Zpos mx / 2 ^ n) by (apply Z.div_pos; lia).
  unfold binary_round_aux, shr_fexp at 1. simpl shr_record_of_loc. simpl Zdigits2.
  fold d. fold e1. fold n.
  destruct n as [|p|p] eqn:Hnp; try lia.
  unfold shr at 1.
  destruct (round_bit_iter_pos (Zpos mx) p ltac:(lia) 0
              (Build_shr_record (Zpos mx) false false) ltac:(lia)
              ltac:(simpl; rewrite Z.div_1_r; reflexivity)) as [Hm Hr].
  rewrite Z.add_0_l in Hm, Hr. rewrite Hbit in Hr.
  destruct (iter_pos shr_1 p (Build_shr_record (Zpos mx) false false)) as [q r s].
  cbn [shr_m shr_r] in Hm, Hr. subst q r.
  assert (Hrne : forall q s,
            round_nearest_even (shr_m (Build_shr_record q false s))
              (loc_of_shr_record (Build_shr_record q false s)) = q)
    by (intros q0 []; reflexivity).
  rewrite Hrne.
  replace (ex + Zpos p) with e1 by lia.
  apply second_shift; lia.
Qed.

(** *** Products with a number below 1 *)

(** A canonical positive number below [1] is at most [1 - 2^-53]. *)
Lemma below_one_mantissa (mu : positive) (eu : Z) :
  canonical_mantissa prec emax mu eu = true ->
  ltb (S754_finite false mu eu) (of_Z 1) = true ->
  eu <= -53 /\ Zpos mu <= (2 ^ 53 - 1) * 2 ^ (- eu - 53).
Proof.
  intros Hc Hlt.
  pose proof (below_one_exponent mu eu Hc Hlt) as Heu.
  destruct (canonical_bounds mu eu Hc) as (E & Hhi & Hlo).
  split; [exact Heu|].
  assert (Hp : 1 <= 2 ^ (- eu - 53)).
  { change 1 with (2 ^ 0). apply pow2_le. lia. }
  change (2 ^ 53) with 9007199254740992 in *. nia.
Qed.

(** The product of a number of [[0, 1)] and a positive integer below
    [2^53] is a non-negative number below that integer. *)
Lemma mul_below_integer (mu : positive) (eu : Z) (n : Z) :
  bounded prec emax mu eu = true ->
  ltb (S754_finite false mu eu) (of_Z 1) = true ->
  1 <= n < 2 ^ 53 ->
  nonneg_valid (mul (S754_finite false mu eu) (of_Z n))
  /\ ltb (mul (S754_finite false mu eu) (of_Z n)) (of_Z n) = true.
Proof.
  intros Hb Hlt Hn.
  destruct (bounded_canonical mu eu Hb) as [Hc _].
  destruct (canonical_bounds mu eu Hc) as (E & Hhi & Hlo).
  destruct (below_one_mantissa mu eu Hc Hlt) as [Heu Hmu].
  destruct (of_Z_pos_exact n ltac:(lia)) as (mn & en & Hof & Hbn & Hen & Hmn).
  destruct (bounded_canonical mn en Hbn) as [Hcn _].
  destruct (canonical_bounds mn en Hcn) as (_ & Hnhi & Hnlo).
  specialize (Hnlo ltac:(lia)).
  rewrite Hof. unfold mul, SFmul. simpl xorb.
  pose proof (digits2_bounds mu) as [Blo Bhi].
  pose proof (digits2_bounds (mu * mn)) as [Plo Phi].
  set (du := Zpos (digits2_pos mu)) in *.
  set (d := Zpos (digits2_pos (mu * mn))) in *.
  assert (Hd : du + 52 <= d).
  { destruct (Z.le_gt_cases (du + 52) d) as [H | H]; [exact H|]. exfalso.
    assert (H0 : 2 ^ d <= 2 ^ (du - 1 + 52)) by (apply pow2_le; lia).
    rewrite pow2_add in H0 by lia.
    rewrite Pos2Z.inj_mul in Phi.
    change (2 ^ 52) with 4503599627370496 in *. nia. }
  assert (Hdu : eu = Z.max (du + eu - 53) (-1074)).
  { unfold canonical_mantissa in Hc. rewrite fexp_unfold in Hc. apply Z.eqb_eq in Hc.
    fold du in Hc. lia. }
  assert (Hpre : eu + en <= fexp prec emax (d + (eu + en))).
  { rewrite fexp_unfold. lia. }
  destruct (binary_round_aux_monotone (mu * mn) (eu + en) ltac:(lia) Hpre)
    as (Hv & _ & Hle).
  split; [exact Hv|].
  set (t := - eu - 53) in *.
  assert (Ht : 0 <= t) by (unfold t; lia).
  assert (Hpt : 1 <= 2 ^ t) by (change 1 with (2 ^ 0); apply pow2_le; lia).
  (* the exact product in units of [2^(eu + en)] *)
  assert (Hshift : forall m0 e0, eu + en <= e0 ->
            Zval (Zpos m0) e0 = Zval (Zpos m0 * 2 ^ (e0 - (eu + en))) (eu + en)).
  { intros m0 e0 He0. rewrite <- Zval_shift by lia. f_equal. lia. }
  assert (Hbelow : forall m0 e0,
            bounded prec emax m0 e0 = true ->
            eu + en <= e0 ->
            Zpos mu * Zpos mn <= Zpos m0 * 2 ^ (e0 - (eu + en)) ->
            Zval (Zpos m0) e0 < Zval (Zpos mn) en ->
            ltb (binary_round_aux prec emax false (Zpos (mu * mn)) (eu + en) loc_Exact)
                (S754_finite false mn en) = true).
  { intros m0 e0 Hb0 He0 Hprod Hless.
    apply (leb_ltb_trans _ (S754_finite false m0 e0)).
    - apply Hle; [exact Hb0|]. rewrite (Hshift m0 e0 He0). unfold Zval.
      apply Z.mul_le_mono_nonneg_r; [apply Z.lt_le_incl, pow2_pos; lia|].
      rewrite Pos2Z.inj_mul. exact Hprod.
    - unfold ltb, SFltb. rewrite compare_canonical;
        [| apply (bounded_canonical m0 e0 Hb0) | exact Hcn].
      apply Z.compare_lt_iff in Hless. rewrite Hless. reflexivity. }
  assert (H2t : 2 ^ (- eu) = 2 ^ 53 * 2 ^ t).
  { rewrite <- pow2_add by lia. f_equal. unfold t. lia. }
  destruct (Z.eq_dec (Zpos mn) (2 ^ 52)) as [Hpow | Hnpow].
  - (* the integer is a power of two: the number below it is one
       exponent lower *)
    apply (Hbelow 9007199254740991%positive (en - 1)).
    + unfold bounded. rewrite canonical_of_bounds;
        [apply Z.leb_le; change (emax - prec) with 971; lia | lia | reflexivity
        | intros _; discriminate].
    + lia.
    + replace (en - 1 - (eu + en)) with (52 + t) by (unfold t; lia).
      rewrite pow2_add by lia. rewrite Hpow.
      change (2 ^ 53) with 9007199254740992 in *.
      change (2 ^ 52) with 4503599627370496 in *. nia.
    + assert (Hs : Zval (Zpos mn) en = Zval (Zpos mn * 2 ^ 1) (en - 1)).
      { rewrite <- Zval_shift by lia. f_equal. lia. }
      rewrite Hs, Hpow. unfold Zval.
      apply Z.mul_lt_mono_pos_r; [apply pow2_pos; lia | reflexivity].
  - assert (Hpred : 0 < Zpos mn - 1) by lia.
    assert (Hpid : Zpos (Z.to_pos (Zpos mn - 1)) = Zpos mn - 1) by (apply Z2Pos.id; lia).
    assert (Hbp : bounded prec emax (Z.to_pos (Zpos mn - 1)) en = true).
    { unfold bounded. rewrite canonical_of_bounds; [apply Z.leb_le; change (emax - prec) with 971; lia | lia | lia |].
      intros _. rewrite Hpid. lia. }
    assert (Hless : Zval (Zpos (Z.to_pos (Zpos mn - 1))) en < Zval (Zpos mn) en).
    { rewrite Hpid. unfold Zval. apply Z.mul_lt_mono_pos_r; [apply pow2_pos; lia | lia]. }
    destruct (spec_float_eq_dec_below_1 mu eu) as [Heq | Hne].
    + (* the largest number below 1: the product is rounded down *)
      injection Heq as -> ->.
      assert (Hprod : Zpos (9007199254740991 * mn)
                      = 2 ^ 53 * (Zpos mn - 1) + (2 ^ 53 - Zpos mn)).
      { rewrite Pos2Z.inj_mul. change (2 ^ 53) with 9007199254740992. lia. }
      assert (Hd106 : d = 106).
      { unfold d. apply digits2_unique. rewrite Hprod.
        change (2 ^ (106 - 1)) with (2 ^ 53 * 2 ^ 52).
        change (2 ^ 106) with (2 ^ 53 * 2 ^ 53).
        change (2 ^ 53) with 9007199254740992 in *.
        change (2 ^ 52) with 4503599627370496 in *. nia. }
      assert (He1 : fexp prec emax (d + (-53 + en)) = en).
      { rewrite fexp_unfold, Hd106. lia. }
      pose proof (binary_round_aux_down (9007199254740991 * mn) (-53 + en)) as Hdown.
      cbv zeta in Hdown. fold d in Hdown. rewrite He1 in Hdown.
      replace (en - (-53 + en) - 1) with 52 in Hdown by lia.
      replace (en - (-53 + en)) with 53 in Hdown by lia.
      assert (Hq52 : Zpos (9007199254740991 * mn) / 2 ^ 52 = 2 * (Zpos mn - 1)).
      { symmetry. apply (Z.div_unique_pos _ _ _ (2 ^ 53 - Zpos mn)).
        - change (2 ^ 53) with 9007199254740992 in *.
          change (2 ^ 52) with 4503599627370496 in *. lia.
        - rewrite Hprod. change (2 ^ 53) with (2 ^ 52 * 2). ring. }
      assert (Hq53 : Zpos (9007199254740991 * mn) / 2 ^ 53 = Zpos mn - 1).
      { symmetry. apply (Z.div_unique_pos _ _ _ (2 ^ 53 - Zpos mn)).
        - change (2 ^ 53) with 9007199254740992 in *.
          change (2 ^ 52) with 4503599627370496 in *. lia.
        - rewrite Hprod. ring. }
      rewrite Hq52, Hq53 in Hdown.
      rewrite Hdown; [| lia | rewrite Z.odd_mul; reflexivity].
      unfold round_pack.
      destruct (Z.eqb_spec (Zpos mn - 1) 0) as [H0 | _]; [lia|].
      destruct (Z.eqb_spec (Zpos mn - 1) (2 ^ 53)) as [H0 | _]; [lia|].
      destruct (Z.leb_spec en (emax - prec)) as [_ | H0];
        [|change (emax - prec) with 971 in H0; lia].
      unfold ltb, SFltb. rewrite compare_canonical;
        [| apply (bounded_canonical _ _ Hbp) | exact Hcn].
      apply Z.compare_lt_iff in Hless. rewrite Hless. reflexivity.
    + (* any other number below 1 is at most [1 - 2^-52] *)
      apply (Hbelow (Z.to_pos (Zpos mn - 1)) en Hbp ltac:(lia)); [|exact Hless].
      rewrite Hpid. replace (en - (eu + en)) with (- eu) by lia. rewrite H2t.
      assert (Hmu' : Zpos mu <= (2 ^ 53 - 2) * 2 ^ t).
      { destruct (Z.eq_dec t 0) as [Ht0 | Ht0].
        - rewrite Ht0. change (2 ^ 0) with 1.
          assert (Zpos mu <> 2 ^ 53 - 1).
          { intros Hm. apply Hne. unfold below_1. f_equal; [|unfold t in Ht0; lia].
            change (2 ^ 53 - 1) with 9007199254740991 in Hm. lia. }
          lia.
        - assert (2 ^ 1 <= 2 ^ t) by (apply pow2_le; lia).
          change (2 ^ 1) with 2 in *.
          change (2 ^ 53) with 9007199254740992 in *. nia. }
      change (2 ^ 53) with 9007199254740992 in *.
      change (2 ^ 52) with 4503599627370496 in *.
      assert (Hk : Zpos mu * Zpos mn <= (9007199254740992 - 2) * 2 ^ t * Zpos mn) by nia.
      assert (Hk2 : (9007199254740992 - 2) * Zpos mn <= (Zpos mn - 1) * 9007199254740992)
        by lia.
      nia.
Qed.

End RandomProperties.


Section RandomRange.

(** [Math.floor] of a non-negative number below a positive integer [n]
    is an integer from [0] to [n - 1]; of [-0] it is [-0]. *)
Lemma floor_below_integer (p : num) (n : Z) :
  nonneg_valid p -> 1 <= n < 2 ^ 53 -> ltb p (of_Z n) = true ->
  exists k, 0 <= k < n /\ (floor p = of_Z k \/ (k = 0 /\ floor p = S754_zero true)).
Proof.
  intros Hv Hn Hlt. destruct p as [s|s| |s m e]; simpl in Hv.
  - exists 0. split; [lia|]. destruct s; [right | left]; auto.
  - subst s. destruct (of_Z_pos_exact n ltac:(lia)) as (mn & en & Hof & _).
    rewrite Hof in Hlt. discriminate Hlt.
  - contradiction.
  - destruct Hv as [-> Hb].
    destruct (bounded_canonical m e Hb) as [Hc _].
    destruct (canonical_bounds m e Hc) as (E & Hhi & Hlo).
    destruct (of_Z_pos_exact n ltac:(lia)) as (mn & en & Hof & Hbn & Hen & Hmn).
    destruct (bounded_canonical mn en Hbn) as [Hcn _].
    rewrite Hof in Hlt. unfold ltb, SFltb in Hlt.
    rewrite compare_canonical in Hlt by assumption.
    rewrite (of_Z_pos_value n mn en Hen Hmn) in Hlt.
    assert (Hval : Zval (Zpos m) e < Zval n 0).
    { destruct (Z.compare_spec (Zval (Zpos m) e) (Zval n 0)); try discriminate; lia. }
    clear Hlt.
    destruct (Z.leb_spec 0 e) as [He | He].
    + (* an integer already *)
      assert (Hp : 0 < 2 ^ e) by (apply pow2_pos; lia).
      assert (Hs : Zval (Zpos m) e = Zval (Zpos m * 2 ^ e) 0).
      { rewrite <- Zval_shift by lia. reflexivity. }
      assert (Hk : Zpos m * 2 ^ e < n).
      { rewrite Hs in Hval. unfold Zval in Hval.
        apply Z.mul_lt_mono_pos_r in Hval; [exact Hval | apply pow2_pos; lia]. }
      exists (Zpos m * 2 ^ e). split; [lia|]. left.
      destruct (of_Z_pos_exact (Zpos m * 2 ^ e) ltac:(lia))
        as (mk & ek & Hofk & Hbk & Hek & Hmk).
      rewrite Hofk. unfold floor.
      destruct (Z.leb_spec 0 e) as [_ | Hbad]; [|lia].
      destruct (bounded_canonical mk ek Hbk) as [Hck _].
      destruct (canonical_eq m e mk ek Hc Hck) as [-> ->]; [|reflexivity].
      rewrite (of_Z_pos_value _ mk ek Hek Hmk). exact Hs.
    + assert (Hp : 0 < 2 ^ (- e)) by (apply pow2_pos; lia).
      exists (Zpos m / 2 ^ (- e)). split.
      * split; [apply Z.div_pos; lia|].
        apply Z.div_lt_upper_bound; [exact Hp|].
        assert (Hs : Zval n 0 = Zval (n * 2 ^ (- e)) e).
        { rewrite <- Zval_shift by lia. f_equal. lia. }
        rewrite Hs in Hval. unfold Zval in Hval.
        apply Z.mul_lt_mono_pos_r in Hval; [|apply pow2_pos; lia]. lia.
      * left. unfold floor. destruct (Z.leb_spec 0 e) as [Hbad | _]; [lia|].
        reflexivity.
Qed.

(** [Math.floor(random * n)] for a positive integer [n] below [2^53] and a
    result of [Math.random()]: an integer from [0] to [n - 1], or [-0]. *)
Lemma floor_random_mul (random : num) (n : Z) :
  valid_binary prec emax random = true ->
  leb (of_Z 0) random = true ->
  ltb random (of_Z 1) = true ->
  1 <= n < 2 ^ 53 ->
  exists k, 0 <= k < n
            /\ (floor (mul random (of_Z n)) = of_Z k
                \/ (k = 0 /\ floor (mul random (of_Z n)) = S754_zero true)).
Proof.
  intros Hv H0 H1 Hn.
  destruct random as [s|s| |s m e].
  - destruct (of_Z_pos_exact n ltac:(lia)) as (mn & en & -> & _).
    exists 0. split; [lia|]. destruct s; [right | left]; auto.
  - destruct s; discriminate.
  - discriminate.
  - destruct s; [discriminate H0|]. simpl in Hv.
    destruct (mul_below_integer m e n Hv H1 Hn) as [Hnv Hlt].
    apply (floor_below_integer _ n Hnv Hn Hlt).
Qed.

(** [intBetween(min, max)] for integers [min < max] returns an integer
    from [min] to [max], both included, whatever [Math.random()] gives. *)
Theorem intBetween_range (random : num) (lo hi : Z) :
  valid_binary prec emax random = true ->
  leb (of_Z 0) random = true ->
  ltb random (of_Z 1) = true ->
  - 2 ^ 53 < lo -> lo < hi -> hi < 2 ^ 53 -> hi - lo < 2 ^ 53 - 1 ->
  exists k,
    lo <= k <= hi
    /\ Random.intBetween random (of_Z lo) (of_Z hi) = Normal (of_Z k).
Proof.
  intros Hv H0 H1 Hlo Hlt Hhi Hspan.
  unfold Random.intBetween. rewrite !number_default_rules.
  rewrite of_Z_eqb_signed by lia.
  replace (lo =? hi) with false by (symmetry; apply Z.eqb_neq; lia).
  unfold gtb. change (SFltb (of_Z hi) (of_Z lo)) with (ltb (of_Z hi) (of_Z lo)).
  rewrite of_Z_ltb_signed by lia.
  replace (hi <? lo) with false by (symmetry; apply Z.ltb_ge; lia).
  cbv beta iota delta [bind throw_if].
  rewrite sub_of_Z_signed by lia. rewrite add_of_Z by lia.
  destruct (floor_random_mul random (hi - lo + 1) Hv H0 H1 ltac:(lia))
    as (k & Hk & [Hfloor | [-> Hfloor]]); rewrite Hfloor.
  - exists (k + lo). split; [lia|]. rewrite add_of_Z_signed by lia. reflexivity.
  - exists lo. split; [lia|].
    destruct (Z.eq_dec lo 0) as [-> | Hnz]; [reflexivity|].
    destruct (of_Z_exact lo Hnz ltac:(lia)) as (m & e & -> & _). reflexivity.
Qed.

Lemma intBetween_range_witness :
  exists k,
    -3 <= k <= 6
    /\ Random.intBetween (of_ratio 1 3) (of_Z (-3)) (of_Z 6) = Normal (of_Z k).
Proof.
  apply intBetween_range; try lia; vm_compute; reflexivity.
Defined.

(** [intBetween] does not reject [NaN]: with [NaN] for a bound it
    returns [NaN]. *)
Theorem intBetween_NaN (random x : num) :
  Random.intBetween random NaN x = Normal NaN
  /\ Random.intBetween random x NaN = Normal NaN.
Proof.
  unfold Random.intBetween. rewrite !number_default_rules. split.
  - replace (eqb NaN x) with false by reflexivity.
    replace (gtb NaN x) with false by (destruct x; reflexivity).
    cbv beta iota delta [bind throw_if].
    replace (sub x NaN) with NaN by (destruct x; reflexivity).
    replace (add NaN (of_Z 1)) with NaN by reflexivity.
    replace (mul random NaN) with NaN by (destruct random; reflexivity).
    reflexivity.
  - replace (eqb x NaN) with false by (destruct x; reflexivity).
    replace (gtb x NaN) with false by reflexivity.
    cbv beta iota delta [bind throw_if].
    replace (sub NaN x) with NaN by reflexivity.
    replace (add NaN (of_Z 1)) with NaN by reflexivity.
    replace (mul random NaN) with NaN by (destruct random; reflexivity).
    replace (floor NaN) with NaN by reflexivity. reflexivity.
Qed.

(** *** randElement *)

Lemma at_number_of_Z (arr : list value) (k : Z) :
  0 <= k < 2 ^ 53 -> at_number arr (of_Z k) = at_index arr k.
Proof.
  intros Hk. destruct (Z.eq_dec k 0) as [-> | Hnz]; [reflexivity|].
  destruct (of_Z_pos_exact k ltac:(lia)) as (m & e & -> & _ & He & Hm).
  unfold at_number. destruct (Z.leb_spec 0 e) as [H0 | H0].
  - replace e with 0 in * by lia. f_equal. rewrite Hm.
    change (2 ^ (- 0)) with 1. change (2 ^ 0) with 1. lia.
  - assert (Hp : 0 < 2 ^ (- e)) by (apply pow2_pos; lia).
    rewrite Hm, Z.mod_mul, Z.div_mul by lia. reflexivity.
Qed.

(** [randElement()] on an array that is not empty returns one of its
    elements, whatever [Math.random()] gives. *)
Theorem randElement_in_array (random : num) (this : list value) :
  valid_binary prec emax random = true ->
  leb (of_Z 0) random = true ->
  ltb random (of_Z 1) = true ->
  this <> [] ->
  Z.of_nat (List.length this) < 2 ^ 53 ->
  exists x, In x this /\ ArrayFun.randElement random this = Normal x.
Proof.
  intros Hv H0 H1 Hne Hlen. unfold ArrayFun.randElement.
  rewrite array_default. destruct this as [|x0 rest]; [contradiction|].
  cbv beta iota delta [bind]. unfold of_nat.
  set (this := x0 :: rest) in *.
  assert (Hpos : 1 <= Z.of_nat (List.length this)) by (unfold this; simpl List.length; lia).
  destruct (floor_random_mul random _ Hv H0 H1 (conj Hpos Hlen))
    as (k & Hk & [Hfloor | [-> Hfloor]]); rewrite Hfloor.
  - rewrite at_number_of_Z by lia. unfold at_index.
    destruct (Z.ltb_spec k 0) as [Hbad | _]; [lia|].
    exists (nth (Z.to_nat k) this VUndefined). split; [|reflexivity].
    apply nth_In. lia.
  - exists x0. split; [left; reflexivity | reflexivity].
Qed.

Lemma randElement_in_array_witness :
  exists x,
    In x [VStr "a"; VStr "b"; VStr "c"]
    /\ ArrayFun.randElement (of_ratio 1 3) [VStr "a"; VStr "b"; VStr "c"] = Normal x.
Proof.
  apply randElement_in_array; try discriminate; vm_compute; reflexivity.
Defined.

End RandomRange.


(** ** Numbers that are not integers, and NaN *)

Section OtherNumbers.

(** [Math.max] and [Math.min] of numbers with a [NaN] among them. *)
Lemma fold_max_NaN (xs : list num) : fold_left max_step xs NaN = NaN.
Proof. induction xs as [|x rest IH]; [reflexivity | exact IH]. Qed.

Lemma fold_min_NaN (xs : list num) : fold_left min_step xs NaN = NaN.
Proof. induction xs as [|x rest IH]; [reflexivity | exact IH]. Qed.

Lemma max_step_NaN_r (highest : num) : max_step highest NaN = NaN.
Proof. destruct highest as [[]|[]| |[] m e]; reflexivity. Qed.

Lemma min_step_NaN_r (lowest : num) : min_step lowest NaN = NaN.
Proof. destruct lowest as [[]|[]| |[] m e]; reflexivity. Qed.

Lemma fold_max_with_NaN (xs : list num) :
  In NaN xs -> forall highest, fold_left max_step xs highest = NaN.
Proof.
  induction xs as [|x rest IH]; intros Hin highest; [contradiction|].
  simpl fold_left. destruct Hin as [-> | Hin].
  - rewrite max_step_NaN_r. apply fold_max_NaN.
  - apply IH, Hin.
Qed.

Lemma fold_min_with_NaN (xs : list num) :
  In NaN xs -> forall lowest, fold_left min_step xs lowest = NaN.
Proof.
  induction xs as [|x rest IH]; intros Hin lowest; [contradiction|].
  simpl fold_left. destruct Hin as [-> | Hin].
  - rewrite min_step_NaN_r. apply fold_min_NaN.
  - apply IH, Hin.
Qed.

(** [minAndMax()] on an array of numbers that holds [NaN], and no more
    numbers than a call takes arguments, answers [NaN] for both, whatever
    the other elements are; a longer array of numbers ends in the
    RangeError of the call. *)
Theorem minAndMax_NaN (max_arguments : nat) (xs : list num) :
  In NaN xs ->
  ((List.length xs <= max_arguments)%nat ->
   ArrayFun.minAndMax max_arguments (map VNum xs)
   = Normal (ArrayFun.mkMinMax NaN NaN))
  /\ ((max_arguments < List.length xs)%nat ->
      ArrayFun.minAndMax max_arguments (map VNum xs) = Throw too_many_arguments).
Proof.
  intros Hin. unfold ArrayFun.minAndMax.
  rewrite numbers_pass by (intros ->; exact Hin).
  rewrite the_numbers. unfold Math_max, Math_min. split; intros Hlen.
  - rewrite (proj2 (Nat.leb_le _ _) Hlen). cbv beta iota delta [bind].
    rewrite (fold_max_with_NaN xs Hin), (fold_min_with_NaN xs Hin). reflexivity.
  - rewrite (proj2 (Nat.leb_gt _ _) Hlen). reflexivity.
Qed.

Lemma minAndMax_NaN_witness :
  ArrayFun.minAndMax 1000 (map VNum [of_Z 1; NaN; of_Z 3])
  = Normal (ArrayFun.mkMinMax NaN NaN)
  /\ ArrayFun.minAndMax 2 (map VNum [of_Z 1; NaN; of_Z 3]) = Throw too_many_arguments.
Proof.
  split.
  - apply (proj1 (minAndMax_NaN 1000 [of_Z 1; NaN; of_Z 3]
                    (or_intror (or_introl eq_refl)))).
    simpl. lia.
  - apply (proj2 (minAndMax_NaN 2 [of_Z 1; NaN; of_Z 3]
                    (or_intror (or_introl eq_refl)))).
    simpl. lia.
Defined.

(** *** isPrime on a number that is not an integer *)

(** An integer against a positive number whose exponent is not
    positive. *)
Lemma of_Z_compare_finite (i : Z) (m : positive) (e : Z) :
  0 < i < 2 ^ 53 -> canonical_mantissa prec emax m e = true -> e <= 0 ->
  SFcompare (of_Z i) (S754_finite false m e) = Some (i * 2 ^ (- e) ?= Zpos m).
Proof.
  intros Hi Hc He.
  destruct (canonical_bounds m e Hc) as (E & _ & _).
  destruct (of_Z_pos_exact i Hi) as (mi & ei & -> & Hbi & Hei & Hmi).
  rewrite compare_canonical; [| apply (bounded_canonical mi ei Hbi) | exact Hc].
  rewrite (of_Z_pos_value i mi ei Hei Hmi).
  assert (Hs : Zval i 0 = Zval (i * 2 ^ (- e)) e).
  { rewrite <- Zval_shift by lia. f_equal. lia. }
  rewrite Hs. unfold Zval.
  rewrite <- Zmult_compare_compat_r by (apply Z.lt_gt, pow2_pos; lia).
  reflexivity.
Qed.

Lemma of_Z_ltb_finite (i : Z) (m : positive) (e : Z) :
  0 < i < 2 ^ 53 -> canonical_mantissa prec emax m e = true -> e <= 0 ->
  ltb (of_Z i) (S754_finite false m e) = (i * 2 ^ (- e) <? Zpos m).
Proof.
  intros Hi Hc He. unfold ltb, SFltb. rewrite (of_Z_compare_finite i m e Hi Hc He).
  unfold Z.ltb. destruct (i * 2 ^ (- e) ?= Zpos m); reflexivity.
Qed.

Lemma of_Z_leb_finite (i : Z) (m : positive) (e : Z) :
  0 < i < 2 ^ 53 -> canonical_mantissa prec emax m e = true -> e <= 0 ->
  leb (of_Z i) (S754_finite false m e) = (i * 2 ^ (- e) <=? Zpos m).
Proof.
  intros Hi Hc He. unfold leb, SFleb. rewrite (of_Z_compare_finite i m e Hi Hc He).
  unfold Z.leb. destruct (i * 2 ^ (- e) ?= Zpos m); reflexivity.
Qed.

(** The remainder of a number that is not an integer by an integer is
    not a zero. *)
Lemma remainder_non_integer (m : positive) (e : Z) (i : Z) :
  canonical_mantissa prec emax m e = true -> e < 0 ->
  Zpos m mod 2 ^ (- e) <> 0 ->
  0 < i < 2 ^ 53 ->
  eqb (remainder (S754_finite false m e) (of_Z i)) (of_Z 0) = false.
Proof.
  intros Hc He Hfrac Hi.
  destruct (canonical_bounds m e Hc) as (E & _ & _).
  destruct (of_Z_pos_exact i Hi) as (mi & ei & -> & Hbi & Hei & Hmi).
  cbv beta iota zeta delta [remainder cond_Zopp].
  set (e0 := Z.min e ei).
  assert (He0 : -1074 <= e0 <= e) by (unfold e0; lia).
  assert (Hp0 : 0 < 2 ^ (- e0)) by (apply pow2_pos; lia).
  assert (Hpe : 0 < 2 ^ (e - e0)) by (apply pow2_pos; lia).
  assert (HY : Zpos mi * 2 ^ (ei - e0) = i * 2 ^ (- e0)).
  { rewrite Hmi. rewrite <- Z.mul_assoc. rewrite <- pow2_add by lia. f_equal. f_equal. lia. }
  rewrite HY.
  set (r := (Zpos m * 2 ^ (e - e0)) mod (i * 2 ^ (- e0))).
  assert (Hr : 0 <= r < i * 2 ^ (- e0)) by (apply Z.mod_pos_bound; nia).
  assert (Hrnz : r <> 0).
  { intros Hz. apply Hfrac.
    assert (Hdiv : Zpos m * 2 ^ (e - e0)
                   = i * 2 ^ (- e0) * ((Zpos m * 2 ^ (e - e0)) / (i * 2 ^ (- e0)))).
    { pose proof (Z.div_mod (Zpos m * 2 ^ (e - e0)) (i * 2 ^ (- e0)) ltac:(nia)) as Hdm.
      fold r in Hdm. lia. }
    set (c := (Zpos m * 2 ^ (e - e0)) / (i * 2 ^ (- e0))) in *.
    assert (Hsplit : 2 ^ (- e0) = 2 ^ (- e) * 2 ^ (e - e0)).
    { rewrite <- pow2_add by lia. f_equal. lia. }
    rewrite Hsplit in Hdiv.
    assert (Hm : Zpos m = i * c * 2 ^ (- e)).
    { apply (Z.mul_cancel_r _ _ (2 ^ (e - e0))); [lia|]. rewrite Hdiv. ring. }
    rewrite Hm. apply Z.mod_mul. apply Z.neq_sym, Z.lt_neq, pow2_pos. lia. }
  destruct r as [|pr|pr] eqn:Hreq; [contradiction | | lia].
  simpl binary_normalize.
  destruct (binary_round_monotone pr e0 ltac:(lia)) as (Hv & Hge & _).
  specialize (Hge 1%positive (-1074) ltac:(reflexivity)).
  assert (Hle : Zval 1 (-1074) <= Zval (Zpos pr) e0).
  { assert (Hs : Zval (Zpos pr) e0 = Zval (Zpos pr * 2 ^ (e0 + 1074)) (-1074)).
    { rewrite <- Zval_shift by lia. f_equal. lia. }
    rewrite Hs. unfold Zval.
    apply Z.mul_le_mono_nonneg_r; [apply Z.lt_le_incl, pow2_pos; lia|].
    assert (0 < 2 ^ (e0 + 1074)) by (apply pow2_pos; lia). nia. }
  specialize (Hge Hle).
  destruct (binary_round prec emax false pr e0) as [s|s| |s m' e']; simpl in Hv.
  - discriminate Hge.
  - subst s. reflexivity.
  - contradiction.
  - destruct Hv as [-> _]. reflexivity.
Qed.

Lemma isPrime_loop_non_integer (m : positive) (e : Z) :
  bounded prec emax m e = true -> e < 0 ->
  Zpos m mod 2 ^ (- e) <> 0 ->
  forall (fuel : nat) (i : Z),
    2 <= i <= Zpos m / 2 ^ (- e) + 1 ->
    (Z.to_nat (Zpos m / 2 ^ (- e) + 1 - i) < fuel)%nat ->
    CheckNum.isPrime_loop fuel (S754_finite false m e) (of_Z i) = Some true.
Proof.
  intros Hb He Hfrac.
  destruct (bounded_canonical m e Hb) as [Hc _].
  destruct (canonical_bounds m e Hc) as (E & Hhi & _).
  assert (Hp : 0 < 2 ^ (- e)) by (apply pow2_pos; lia).
  assert (Hp2 : 2 <= 2 ^ (- e)).
  { change 2 with (2 ^ 1) at 1. apply pow2_le. lia. }
  pose proof (Z.div_mod (Zpos m) (2 ^ (- e)) ltac:(lia)) as Hdm.
  pose proof (Z.mod_pos_bound (Zpos m) (2 ^ (- e)) Hp) as Hmod.
  assert (H0 : 0 <= Zpos m / 2 ^ (- e)) by (apply Z.div_pos; lia).
  set (q := Zpos m / 2 ^ (- e)) in *. clearbody q.
  assert (Hq : q + 1 < 2 ^ 53).
  { assert (H1 : 2 * q <= 2 ^ (- e) * q) by (apply Z.mul_le_mono_nonneg_r; lia).
    change (2 ^ 53) with 9007199254740992 in *. lia. }
  induction fuel as [|fuel IH]; intros i Hi Hfuel; [lia|].
  cbn [CheckNum.isPrime_loop].
  rewrite of_Z_ltb_finite by (try assumption; lia).
  destruct (Z.ltb_spec (i * 2 ^ (- e)) (Zpos m)) as [Hlt | Hge]; [|reflexivity].
  rewrite remainder_non_integer by (try assumption; lia).
  rewrite add_of_Z by lia.
  assert (Hiq : i <= q).
  { destruct (Z.le_gt_cases i q) as [H | H]; [exact H|]. exfalso.
    assert (H1 : 2 ^ (- e) * (q + 1) <= 2 ^ (- e) * i)
      by (apply Z.mul_le_mono_nonneg_l; lia).
    lia. }
  apply IH; lia.
Qed.

(** [isPrime] answers [true] for every number from 2 on that is not an
    integer: no remainder of it is a zero. *)
Theorem isPrime_non_integer (m : positive) (e : Z) (fuel : nat) :
  bounded prec emax m e = true -> e < 0 ->
  Zpos m mod 2 ^ (- e) <> 0 ->
  leb (of_Z 2) (S754_finite false m e) = true ->
  (Z.to_nat (Zpos m / 2 ^ (- e)) <= fuel)%nat ->
  CheckNum.isPrime fuel (VNum (S754_finite false m e)) = Some (Normal true).
Proof.
  intros Hb He Hfrac Hge Hfuel.
  unfold CheckNum.isPrime, VerifyThis.number. cbv beta iota zeta.
  replace (ltb (S754_finite false m e) (of_Z 2)) with false
    by (symmetry; apply (leb_not_gtb (of_Z 2)), Hge).
  rewrite andb_false_r. cbv beta iota delta [throw_if bind check_rule the_number].
  assert (Hq : 2 <= Zpos m / 2 ^ (- e)).
  { destruct (bounded_canonical m e Hb) as [Hc _].
    assert (Hp : 0 < 2 ^ (- e)) by (apply pow2_pos; lia).
    apply Z.div_le_lower_bound; [exact Hp|].
    assert (Hlt : ltb (S754_finite false m e) (of_Z 2) = false)
      by (apply (leb_not_gtb (of_Z 2)), Hge).
    assert (H2 : of_Z 2 = S754_finite false 4503599627370496 (-51))
      by (vm_compute; reflexivity).
    rewrite H2 in Hlt. unfold ltb, SFltb in Hlt.
    rewrite compare_canonical in Hlt; [| exact Hc | reflexivity].
    destruct (canonical_bounds m e Hc) as (E & _ & _).
    assert (Hs1 : Zval 4503599627370496 (-51) = Zval 2 0) by reflexivity.
    assert (Hs2 : Zval 2 0 = Zval (2 * 2 ^ (- e)) e).
    { rewrite <- Zval_shift by lia. f_equal. lia. }
    rewrite Hs1, Hs2 in Hlt. unfold Zval in Hlt.
    rewrite <- Zmult_compare_compat_r in Hlt by (apply Z.lt_gt, pow2_pos; lia).
    destruct (Z.compare_spec (Zpos m) (2 * 2 ^ (- e))); try discriminate Hlt; lia. }
  rewrite (isPrime_loop_non_integer m e Hb He Hfrac fuel 2); [reflexivity | lia | lia].
Qed.

Lemma isPrime_non_integer_witness :
  CheckNum.isPrime 10 (VNum (S754_finite false 4785074604081152 (-49)))
  = Some (Normal true).
Proof.
  apply isPrime_non_integer; [reflexivity | lia | discriminate | reflexivity | ].
  vm_compute. lia.
Defined.

(** *** factorialOf and fibonacciOf on a number that is not an integer *)

(** The integer part of a positive number with a negative exponent
    against an integer. *)
Lemma floor_le (m : positive) (e : Z) (i : Z) :
  e < 0 -> (i * 2 ^ (- e) <=? Zpos m) = (i <=? Zpos m / 2 ^ (- e)).
Proof.
  intros He.
  assert (Hp : 0 < 2 ^ (- e)) by (apply pow2_pos; lia).
  pose proof (Z.div_mod (Zpos m) (2 ^ (- e)) ltac:(lia)) as Hdm.
  pose proof (Z.mod_pos_bound (Zpos m) (2 ^ (- e)) Hp) as Hmod.
  destruct (Z.leb_spec i (Zpos m / 2 ^ (- e))) as [H | H].
  - apply Z.leb_le.
    assert (H1 : i * 2 ^ (- e) <= Zpos m / 2 ^ (- e) * 2 ^ (- e))
      by (apply Z.mul_le_mono_nonneg_r; lia).
    lia.
  - apply Z.leb_gt.
    assert (H1 : (Zpos m / 2 ^ (- e) + 1) * 2 ^ (- e) <= i * 2 ^ (- e))
      by (apply Z.mul_le_mono_nonneg_r; lia).
    lia.
Qed.

(** The loop of [factorialOf] on a number reads only its integer part. *)
Lemma factorial_loop_floor (m : positive) (e : Z) :
  bounded prec emax m e = true -> e < 0 ->
  forall (fuel : nat) (i : Z) (f : num),
    1 <= i <= Zpos m / 2 ^ (- e) + 1 ->
    Calculate.factorial_loop fuel (S754_finite false m e) (of_Z i) f
    = Calculate.factorial_loop fuel (of_Z (Zpos m / 2 ^ (- e))) (of_Z i) f.
Proof.
  intros Hb He.
  destruct (bounded_canonical m e Hb) as [Hc _].
  destruct (canonical_bounds m e Hc) as (E & Hhi & _).
  assert (Hp : 0 < 2 ^ (- e)) by (apply pow2_pos; lia).
  assert (Hp2 : 2 <= 2 ^ (- e)).
  { change 2 with (2 ^ 1) at 1. apply pow2_le. lia. }
  assert (H0 : 0 <= Zpos m / 2 ^ (- e)) by (apply Z.div_pos; lia).
  assert (Hq : Zpos m / 2 ^ (- e) + 1 < 2 ^ 53).
  { pose proof (Z.mul_div_le (Zpos m) (2 ^ (- e)) Hp) as Hle.
    assert (H1 : 2 * (Zpos m / 2 ^ (- e)) <= 2 ^ (- e) * (Zpos m / 2 ^ (- e)))
      by (apply Z.mul_le_mono_nonneg_r; lia).
    change (2 ^ 53) with 9007199254740992 in *. lia. }
  induction fuel as [|fuel IH]; intros i f Hi; [reflexivity|].
  cbn [Calculate.factorial_loop].
  rewrite of_Z_leb_finite by (try assumption; lia).
  rewrite floor_le by exact He. rewrite of_Z_leb by lia.
  destruct (Z.leb_spec i (Zpos m / 2 ^ (- e))) as [Hle | Hgt]; [|reflexivity].
  rewrite add_of_Z by lia. apply IH. lia.
Qed.

(** [factorialOf] truncates: on every number from 1 to below 23, an
    integer or not, it returns the factorial of the integer part,
    exactly. *)
Theorem factorialOf_floor (m : positive) (e : Z) (fuel : nat) :
  bounded prec emax m e = true -> e < 0 ->
  1 <= Zpos m / 2 ^ (- e) <= 22 ->
  (Z.to_nat (Zpos m / 2 ^ (- e)) < fuel)%nat ->
  exists r,
    Calculate.factorialOf fuel (VNum (S754_finite false m e)) = Some (Normal r)
    /\ is_integer r (factorial (Z.to_nat (Zpos m / 2 ^ (- e)))).
Proof.
  intros Hb He Hq Hfuel.
  destruct (bounded_canonical m e Hb) as [Hc _].
  set (q := Zpos m / 2 ^ (- e)) in *.
  destruct (factorial_loop_exact (Z.to_nat q) fuel ltac:(lia) Hfuel)
    as (r & Hloop & _ & Hint).
  exists r. split; [|exact Hint].
  unfold Calculate.factorialOf, VerifyThis.number. cbv beta iota zeta.
  replace (ltb (S754_finite false m e) (of_Z 1)) with false.
  2:{ symmetry. apply (leb_not_gtb (of_Z 1)).
      rewrite (of_Z_leb_finite 1 m e ltac:(split; [lia | reflexivity]) Hc ltac:(lia)).
      rewrite floor_le by exact He. apply Z.leb_le. fold q. lia. }
  rewrite andb_false_r. cbv beta iota delta [throw_if bind check_rule the_number].
  rewrite (factorial_loop_floor m e Hb He fuel 1) by (fold q; lia).
  fold q. unfold of_nat in Hloop. rewrite Z2Nat.id in Hloop by lia.
  rewrite Hloop. reflexivity.
Qed.

Lemma factorialOf_floor_witness :
  exists r,
    Calculate.factorialOf 10 (VNum (S754_finite false 7881299347898368 (-51)))
    = Some (Normal r)
    /\ is_integer r
         (factorial (Z.to_nat (Zpos 7881299347898368 / 2 ^ (- (-51))))).
Proof.
  apply factorialOf_floor; [reflexivity | lia | split; vm_compute; discriminate |].
  vm_compute. lia.
Defined.

(** The indices of the array of [fibonacciOf] are integers. *)
Lemma fib_get_non_integer (arr : list (num * num)) (m : positive) (e : Z) :
  canonical_mantissa prec emax m e = true -> e < 0 ->
  Zpos m mod 2 ^ (- e) <> 0 ->
  (forall kv, In kv arr -> exists j, 0 <= j < 2 ^ 53 /\ fst kv = of_Z j) ->
  Calculate.fib_get arr (S754_finite false m e) = VUndefined.
Proof.
  intros Hc He Hfrac Hkeys. unfold Calculate.fib_get.
  assert (Hp : 0 < 2 ^ (- e)) by (apply pow2_pos; lia).
  destruct (find (fun kv => sameValueZero (fst kv) (S754_finite false m e)) arr)
    as [kv|] eqn:Hfind; [|reflexivity].
  exfalso. apply find_some in Hfind. destruct Hfind as [Hin Hsame].
  destruct (Hkeys kv Hin) as (j & Hj & Hkey). rewrite Hkey in Hsame.
  destruct (Z.eq_dec j 0) as [-> | Hnz]; [discriminate Hsame|].
  assert (Heq : eqb (of_Z j) (S754_finite false m e) = true).
  { destruct (of_Z_pos_exact j ltac:(lia)) as (mj & ej & Hof & _).
    rewrite Hof in Hsame |- *. exact Hsame. }
  unfold eqb, SFeqb in Heq.
  rewrite (of_Z_compare_finite j m e ltac:(lia) Hc ltac:(lia)) in Heq.
  destruct (Z.compare_spec (j * 2 ^ (- e)) (Zpos m)) as [H | H | H];
    try discriminate Heq.
  apply Hfrac. rewrite <- H. apply Z.mod_mul. lia.
Qed.

Lemma fibonacci_loop_keys (m : positive) (e : Z) :
  bounded prec emax m e = true -> e < 0 ->
  forall (fuel : nat) (i : Z) (arr : list (num * num)),
    2 <= i <= Z.max (Zpos m / 2 ^ (- e) + 1) 2 ->
    (Z.to_nat (Z.max (Zpos m / 2 ^ (- e) + 1) 2 - i) < fuel)%nat ->
    (forall kv, In kv arr -> exists j, 0 <= j < 2 ^ 53 /\ fst kv = of_Z j) ->
    exists arr',
      Calculate.fibonacci_loop fuel (S754_finite false m e) (of_Z i) arr = Some arr'
      /\ (forall kv, In kv arr' -> exists j, 0 <= j < 2 ^ 53 /\ fst kv = of_Z j).
Proof.
  intros Hb He.
  destruct (bounded_canonical m e Hb) as [Hc _].
  destruct (canonical_bounds m e Hc) as (E & Hhi & _).
  assert (Hp : 0 < 2 ^ (- e)) by (apply pow2_pos; lia).
  assert (Hp2 : 2 <= 2 ^ (- e)).
  { change 2 with (2 ^ 1) at 1. apply pow2_le. lia. }
  assert (H0 : 0 <= Zpos m / 2 ^ (- e)) by (apply Z.div_pos; lia).
  assert (Hq : Zpos m / 2 ^ (- e) + 1 < 2 ^ 53).
  { pose proof (Z.mul_div_le (Zpos m) (2 ^ (- e)) Hp) as Hle.
    assert (H1 : 2 * (Zpos m / 2 ^ (- e)) <= 2 ^ (- e) * (Zpos m / 2 ^ (- e)))
      by (apply Z.mul_le_mono_nonneg_r; lia).
    change (2 ^ 53) with 9007199254740992 in *. lia. }
  assert (H253 : 2 < 2 ^ 53) by reflexivity.
  induction fuel as [|fuel IH]; intros i arr Hi Hfuel Hkeys; [lia|].
  cbn [Calculate.fibonacci_loop].
  rewrite of_Z_leb_finite by (try assumption; lia).
  rewrite floor_le by exact He.
  destruct (Z.leb_spec i (Zpos m / 2 ^ (- e))) as [Hle | Hgt].
  - rewrite add_of_Z by lia. apply IH; [lia | lia|].
    intros kv Hin. unfold Calculate.fib_set in Hin. destruct Hin as [<- | Hin].
    + exists i. split; [lia | reflexivity].
    + apply filter_In in Hin. apply Hkeys, Hin.
  - exists arr. split; [reflexivity | exact Hkeys].
Qed.

(** [fibonacciOf] on a positive number that is not an integer returns
    [undefined]: the loop fills the indices up to the integer part, and
    the array has no element at the number itself. *)
Theorem fibonacciOf_non_integer (m : positive) (e : Z) (fuel : nat) :
  bounded prec emax m e = true -> e < 0 ->
  Zpos m mod 2 ^ (- e) <> 0 ->
  (Z.to_nat (Zpos m / 2 ^ (- e)) < fuel)%nat ->
  Calculate.fibonacciOf fuel (VNum (S754_finite false m e)) = Some (Normal VUndefined).
Proof.
  intros Hb He Hfrac Hfuel.
  destruct (bounded_canonical m e Hb) as [Hc _].
  assert (H0 : 0 <= Zpos m / 2 ^ (- e)) by (apply Z.div_pos; [lia | apply pow2_pos; lia]).
  unfold Calculate.fibonacciOf, VerifyThis.number. cbv beta iota zeta.
  replace (ltb (S754_finite false m e) (of_Z 0)) with false by reflexivity.
  rewrite andb_false_r. cbv beta iota delta [throw_if bind check_rule the_number].
  destruct (fibonacci_loop_keys m e Hb He fuel 2 [(of_Z 0, of_Z 0); (of_Z 1, of_Z 1)])
    as (arr' & Hloop & Hkeys).
  - lia.
  - lia.
  - intros kv [<- | [<- | []]]; [exists 0 | exists 1]; split; try reflexivity; lia.
  - rewrite Hloop. cbn [option_map].
    rewrite (fib_get_non_integer arr' m e Hc He Hfrac Hkeys). reflexivity.
Qed.

Lemma fibonacciOf_non_integer_witness :
  Calculate.fibonacciOf 10 (VNum (S754_finite false 5629499534213120 (-51)))
  = Some (Normal VUndefined).
Proof.
  apply fibonacciOf_non_integer; [reflexivity | lia | discriminate |].
  vm_compute. lia.
Defined.

End OtherNumbers.
